(** * Live-editing synchronisation: preview runtime and manifest injector

    A shallow embedding of [src/lib/preview-runtime.ts] (the embedded sync
    channel), [src/lib/manifest-injector.ts] (the remote hydration
    channel) and [src/lib/manifest-loader.ts] (the build-time reader of
    the manifest), followed by the properties proved about them.

    Modelling conventions.
    - The DOM is a finite tree.  A reference held by the script to a live
      node ([_highlightedEl], the element captured by a listener closure) is
      carried by the node itself: a mark for the highlighted element and a
      list of registered listeners.  [cloneNode] copies neither, as in the
      DOM.
    - A selector built by interpolation, [[a="v"]], is read as "attribute
      [a] has value [v]"; this is what the selector denotes for every [v]
      that [selectorSafe] accepts: free of double quotes, backslashes,
      line breaks and null characters.
    - [el.style] is a finite map from property names to their text; CSS
      value validation and shorthand expansion are not modelled.  Assigning
      the empty text removes the declaration, and reading an absent
      property gives the empty text, as in the CSSOM.
    - A JavaScript object is the list of its entries in [Object.entries]
      order; keys are unique.  Numbers are integers. *)

From Stdlib Require Import ZArith String List Bool Decimal DecimalString.
From stdpp Require Import base option list gmap strings.
Import ListNotations.
Open Scope string_scope.

#[local] Set Warnings "-register-all".

(** ** JavaScript strings *)

Definition startsWith (s p : string) : bool := String.prefix p s.

Definition endsWith (s p : string) : bool :=
  let n := String.length s in
  let m := String.length p in
  (m <=? n)%nat && bool_decide (String.substring (n - m) m s = p).

Definition includes (s p : string) : bool :=
  match String.index 0 p s with Some _ => true | None => false end.

(** [s.slice(0, -k)] *)
Definition slice_end (s : string) (k : nat) : string :=
  String.substring 0 (String.length s - k) s.

Fixpoint join (sep : string) (l : list string) : string :=
  match l with
  | [] => ""
  | [x] => x
  | x :: l' => x ++ sep ++ join sep l'
  end.

Definition string_of_Z (z : Z) : string := NilZero.string_of_int (Z.to_int z).

Definition string_of_nat (n : nat) : string := string_of_Z (Z.of_nat n).

(** ** JavaScript values *)

Inductive JsValue : Type :=
| JUndefined
| JNull
| JBool (b : bool)
| JNum (z : Z)
| JStr (s : string)
| JArr (items : list JsValue)
| JObj (fields : list (string * JsValue)).

Definition Record := list (string * JsValue).

(** [String(v)] *)
Fixpoint js_String (v : JsValue) : string :=
  match v with
  | JUndefined => "undefined"
  | JNull => "null"
  | JBool true => "true"
  | JBool false => "false"
  | JNum z => string_of_Z z
  | JStr s => s
  | JArr l =>
      join "," (map (fun x => match x with
                              | JUndefined | JNull => ""
                              | _ => js_String x
                              end) l)
  | JObj _ => "[object Object]"
  end.

(** [if (v)] *)
Definition truthy (v : JsValue) : bool :=
  match v with
  | JUndefined | JNull => false
  | JBool b => b
  | JNum z => negb (z =? 0)%Z
  | JStr s => negb (bool_decide (s = ""))
  | JArr _ | JObj _ => true
  end.

Definition nullish (v : JsValue) : bool :=
  match v with JUndefined | JNull => true | _ => false end.

(** [typeof v === 'object' && v !== null && !Array.isArray(v)] *)
Definition isPlainObject (v : JsValue) : bool :=
  match v with JObj _ => true | _ => false end.

Definition isArray (v : JsValue) : bool :=
  match v with JArr _ => true | _ => false end.

(** [typeof v !== 'object' || v === null] *)
Definition isPrimitive (v : JsValue) : bool :=
  match v with JArr _ | JObj _ => false | _ => true end.

Fixpoint lookup_field (k : string) (r : Record) : JsValue :=
  match r with
  | [] => JUndefined
  | (k', v) :: r' => if bool_decide (k' = k) then v else lookup_field k r'
  end.

(** [v?.k]: never throws. *)
Definition js_prop (v : JsValue) (k : string) : JsValue :=
  match v with JObj r => lookup_field k r | _ => JUndefined end.

(** [v.k]: a TypeError ([None]) on [null] and [undefined].  The keys read
    by the program are not built-in properties of strings or arrays. *)
Definition js_get (v : JsValue) (k : string) : option JsValue :=
  if nullish v then None else Some (js_prop v k).

(** [a ?? b] *)
Definition js_default (a b : JsValue) : JsValue := if nullish a then b else a.

Definition indexed {A} (l : list A) : list (string * A) :=
  imap (fun i x => (string_of_nat i, x)) l.

Fixpoint chars (s : string) : list JsValue :=
  match s with
  | EmptyString => []
  | String c s' => JStr (String c EmptyString) :: chars s'
  end.

(** [Object.entries(v)], total on non-nullish values. *)
Definition entries (v : JsValue) : Record :=
  match v with
  | JObj r => r
  | JArr l => indexed l
  | JStr s => indexed (chars s)
  | _ => []
  end.

(** [Object.entries(v)]: a TypeError on [null] and [undefined]. *)
Definition js_entries (v : JsValue) : option Record :=
  if nullish v then None else Some (entries v).

(** [for (const x of v)]: a TypeError on what is not iterable. *)
Definition js_iter (v : JsValue) : option (list JsValue) :=
  match v with
  | JArr l => Some l
  | JStr s => Some (chars s)
  | _ => None
  end.

(** ** The DOM *)

Inductive Listener : Type :=
| InlineFocus | InlineBlur | InlineInput
| ImageMouseEnter | ImageMouseLeave | ImageClick.

Inductive Node : Type :=
| TextNode (data : string)
| Element (tagName : string)
          (attrs : gmap string string)
          (style : gmap string string)
          (listeners : list Listener)
          (highlighted : bool)
          (childNodes : list Node).

Definition first_some {A B} (f : A -> option B) : list A -> option B :=
  fix go l :=
    match l with
    | [] => None
    | x :: l' => match f x with Some r => Some r | None => go l' end
    end.

(** Replace the first element of the list on which [g] succeeds. *)
Definition modify_list {A} (g : A -> option A) : list A -> option (list A) :=
  fix go l :=
    match l with
    | [] => None
    | x :: l' =>
        match g x with
        | Some x' => Some (x' :: l')
        | None => option_map (cons x) (go l')
        end
    end.

Definition children (n : Node) : list Node :=
  match n with TextNode _ => [] | Element _ _ _ _ _ cs => cs end.

Definition set_children (cs : list Node) (n : Node) : Node :=
  match n with
  | TextNode _ => n
  | Element t a s l h _ => Element t a s l h cs
  end.

Definition getAttribute (a : string) (n : Node) : option string :=
  match n with TextNode _ => None | Element _ at_ _ _ _ _ => at_ !! a end.

Definition setAttribute (a v : string) (n : Node) : Node :=
  match n with
  | TextNode _ => n
  | Element t at_ s l h cs => Element t (<[a := v]> at_) s l h cs
  end.

Definition tagOf (n : Node) : string :=
  match n with TextNode _ => "" | Element t _ _ _ _ _ => t end.

Definition styleOf (n : Node) : gmap string string :=
  match n with TextNode _ => ∅ | Element _ _ s _ _ _ => s end.

(** [el.style[p] = v] and [el.style.setProperty(p, v)] *)
Definition style_set (p v : string) (s : gmap string string) : gmap string string :=
  if bool_decide (v = "") then delete p s else <[p := v]> s.

(** Reading [el.style[p]] *)
Definition style_get (p : string) (s : gmap string string) : string :=
  default "" (s !! p).

Definition setStyle (p v : string) (n : Node) : Node :=
  match n with
  | TextNode _ => n
  | Element t a s l h cs => Element t a (style_set p v s) l h cs
  end.

(** [el.style.removeProperty(p)] *)
Definition removeStyle (p : string) (n : Node) : Node :=
  match n with
  | TextNode _ => n
  | Element t a s l h cs => Element t a (delete p s) l h cs
  end.

(** [el.textContent = v] *)
Definition setTextContent (v : string) (n : Node) : Node :=
  set_children (if bool_decide (v = "") then [] else [TextNode v]) n.

(** [el.textContent] *)
Fixpoint textContent (n : Node) : string :=
  match n with
  | TextNode d => d
  | Element _ _ _ _ _ cs => String.concat "" (map textContent cs)
  end.

Definition appendChild (c : Node) (n : Node) : Node :=
  set_children (children n ++ [c]) n.

(** [n.cloneNode(true)]: attributes and inline style are copied, listeners
    and script references are not. *)
Fixpoint cloneNode (n : Node) : Node :=
  match n with
  | TextNode d => TextNode d
  | Element t a s _ _ cs => Element t a s [] false (map cloneNode cs)
  end.

(** Selectors: [[a="v"]] and [[a]] *)
Definition attr_is (a v : string) (n : Node) : bool :=
  bool_decide (getAttribute a n = Some v).

Definition has_attr (a : string) (n : Node) : bool :=
  match getAttribute a n with Some _ => true | None => false end.

(** A selector that the source builds by writing a value between double
    quotes, as in [[data-dr-section="${id}"]], compares the attribute with
    the value itself when the value holds none of the characters that end
    or escape a quoted string or are replaced when the selector is read:
    the null character, the line feed, the form feed, the carriage return,
    the double quote and the backslash.  For such values the selector is
    [attr_is]; for the others it may match other elements or be refused
    as a syntax error, which [attr_is] does not describe. *)
Definition selectorSafe (v : string) : bool :=
  forallb (fun c => negb (bool_decide (Ascii.nat_of_ascii c ∈ [0; 10; 12; 13; 34; 92]%nat)))
          (list_ascii_of_string v).

(** The same for a value that may be [null]. *)
Definition selectorSafeRequest (v : option string) : bool :=
  from_option selectorSafe true v.

(** The first node satisfying [p] in the subtree of [n], [n] included, in
    document order. *)
Fixpoint find_in (p : Node -> bool) (n : Node) : option Node :=
  if p n then Some n
  else match n with
       | TextNode _ => None
       | Element _ _ _ _ _ cs => first_some (find_in p) cs
       end.

(** [n.querySelector(sel)]: the first proper descendant. *)
Definition querySelector (p : Node -> bool) (n : Node) : option Node :=
  first_some (find_in p) (children n).

Fixpoint find_all_in (p : Node -> bool) (n : Node) : list Node :=
  (if p n then [n] else []) ++
  match n with
  | TextNode _ => []
  | Element _ _ _ _ _ cs => flat_map (find_all_in p) cs
  end.

(** [n.querySelectorAll(sel)] *)
Definition querySelectorAll (p : Node -> bool) (n : Node) : list Node :=
  flat_map (find_all_in p) (children n).

(** Mutating, through the reference returned by a query, the first node
    that satisfies [p]: [f] is applied at that position.  [None] when the
    query finds nothing. *)
Fixpoint modify_in (p : Node -> bool) (f : Node -> Node) (n : Node) : option Node :=
  if p n then Some (f n)
  else match n with
       | TextNode _ => None
       | Element t a s l h cs =>
           option_map (Element t a s l h) (modify_list (modify_in p f) cs)
       end.

(** [const el = n.querySelector(sel); if (el) f(el)] *)
Definition modify_first (p : Node -> bool) (f : Node -> Node) (n : Node) : Node :=
  match modify_list (modify_in p f) (children n) with
  | Some cs => set_children cs n
  | None => n
  end.

(** [document.querySelector(sel)] also considers the root element. *)
Definition doc_querySelector (p : Node -> bool) (doc : Node) : option Node :=
  find_in p doc.

Definition doc_modify_first (p : Node -> bool) (f : Node -> Node) (doc : Node) : Node :=
  default doc (modify_in p f doc).

(** [n.querySelectorAll(sel).forEach(item => item.remove())]: every
    descendant satisfying [p] leaves the tree, with its own subtree. *)
Fixpoint remove_all (p : Node -> bool) (n : Node) : Node :=
  match n with
  | TextNode _ => n
  | Element t a s l h cs =>
      Element t a s l h
        (flat_map (fun c => if p c then [] else [remove_all p c]) cs)
  end.

(** Applying [f] to every outermost proper descendant satisfying [p]. *)
Fixpoint map_outermost_in (p : Node -> bool) (f : Node -> Node) (n : Node) : Node :=
  if p n then f n
  else match n with
       | TextNode _ => n
       | Element t a s l h cs => Element t a s l h (map (map_outermost_in p f) cs)
       end.

Definition map_outermost (p : Node -> bool) (f : Node -> Node) (n : Node) : Node :=
  set_children (map (map_outermost_in p f) (children n)) n.

(** Nodes are addressed from the root by child indices when the user
    interacts with them. *)
Definition Path := list nat.

Fixpoint node_at (path : Path) (n : Node) : option Node :=
  match path with
  | [] => Some n
  | i :: p => match children n !! i with Some c => node_at p c | None => None end
  end.

Fixpoint modify_at (path : Path) (f : Node -> Node) (n : Node) : Node :=
  match path with
  | [] => f n
  | i :: p => set_children (alter (modify_at p f) i (children n)) n
  end.

(** The nodes from the root down to the node at [path]. *)
Fixpoint chain (path : Path) (n : Node) : list Node :=
  n :: match path with
       | [] => []
       | i :: p => match children n !! i with Some c => chain p c | None => [] end
       end.

(** [el.closest(sel)] for the element at [path]. *)
Definition closest (p : Node -> bool) (path : Path) (doc : Node) : option Node :=
  List.find p (rev (chain path doc)).

(** The paths of the target and of its ancestors, innermost first. *)
Fixpoint bubble_paths (path : Path) : list Path :=
  match path with
  | [] => [[]]
  | i :: p => map (cons i) (bubble_paths p) ++ [[]]
  end.

(** ** The embedded sync channel: [preview-runtime.ts] *)

Module PreviewRuntime.

(** Messages sent from the admin portal to the iframe. *)
Inductive ParentToIframeMessage : Type :=
| FullUpdate (data : list (string * Record)) (sections : list (string * bool))
| FieldUpdate (sectionId field : string) (value : JsValue)
| SectionToggle (sectionId : string) (enabled : bool)
| StyleUpdate (sectionId field : string) (styles : list (string * string))
| SectionHighlight (sectionId : option string)
| ScrollToSection (sectionId : string).

Inductive ElementType : Type := TextElement | ImageElement.

(** Messages sent from the iframe to the admin portal. *)
Inductive IframeToParentMessage : Type :=
| FieldEdited (sectionId field value : string)
| ImageReplaceRequested (sectionId field : string)
| AiSuggestRequested (sectionId field content : string)
| ElementSelected (sectionId field : string) (elementType : ElementType) (content : string)
| Deselect
| Ready.

Definition _allowedStyleProps : list string :=
  [ "textAlign"; "fontWeight"; "fontSize"; "letterSpacing";
    "lineHeight"; "color"; "textTransform"; "opacity";
    "paddingTop"; "paddingBottom"; "paddingLeft"; "paddingRight";
    "marginTop"; "marginBottom";
    "gap"; "justifyContent"; "alignItems"; "flexDirection";
    "backgroundColor"; "borderRadius" ].

(** The handlers reached from the [switch] of [handleMessage]; the state
    records which ones ran. *)
Inductive Handler : Type :=
| HFullUpdate | HFieldUpdate | HSectionToggle | HStyleUpdate
| HSectionHighlight | HScrollToSection.

(** What the page knows of its window: [window.location.origin], and
    whether [window.parent] is another window. *)
Record Window : Type := {
  location_origin : string;
  has_parent : bool
}.

Record State : Type := {
  document : Node;
  _parentOrigin : string;
  posted : list (IframeToParentMessage * string);
  scrolled : list string;
  console : list string;
  dispatched : list Handler;
  active : bool
}.

Definition with_document (f : Node -> Node) (st : State) : State :=
  {| document := f (document st); _parentOrigin := _parentOrigin st;
     posted := posted st; scrolled := scrolled st; console := console st;
     dispatched := dispatched st; active := active st |}.

Definition with_parentOrigin (o : string) (st : State) : State :=
  {| document := document st; _parentOrigin := o;
     posted := posted st; scrolled := scrolled st; console := console st;
     dispatched := dispatched st; active := active st |}.

Definition post (m : IframeToParentMessage) (target : string) (st : State) : State :=
  {| document := document st; _parentOrigin := _parentOrigin st;
     posted := posted st ++ [(m, target)]; scrolled := scrolled st;
     console := console st; dispatched := dispatched st; active := active st |}.

Definition scroll (sectionId : string) (st : State) : State :=
  {| document := document st; _parentOrigin := _parentOrigin st;
     posted := posted st; scrolled := scrolled st ++ [sectionId];
     console := console st; dispatched := dispatched st; active := active st |}.

Definition log (line : string) (st : State) : State :=
  {| document := document st; _parentOrigin := _parentOrigin st;
     posted := posted st; scrolled := scrolled st;
     console := console st ++ [line]; dispatched := dispatched st;
     active := active st |}.

Definition dispatch (h : Handler) (st : State) : State :=
  {| document := document st; _parentOrigin := _parentOrigin st;
     posted := posted st; scrolled := scrolled st; console := console st;
     dispatched := dispatched st ++ [h]; active := active st |}.

Definition activate (st : State) : State :=
  {| document := document st; _parentOrigin := _parentOrigin st;
     posted := posted st; scrolled := scrolled st; console := console st;
     dispatched := dispatched st; active := true |}.

(** The module-level state before [initPreviewRuntime]. *)
Definition initial (doc : Node) : State :=
  {| document := doc; _parentOrigin := "*"; posted := []; scrolled := [];
     console := []; dispatched := []; active := false |}.

Definition sendToParent (w : Window) (message : IframeToParentMessage) (st : State) : State :=
  if has_parent w then post message (_parentOrigin st) st else st.

(** [document.querySelector(`[data-dr-section="${sectionId}"]`)], and the
    mutation of the element it returns. *)
Definition is_section (sectionId : string) : Node -> bool :=
  attr_is "data-dr-section" sectionId.

Definition on_section (sectionId : string) (f : Node -> Node) (doc : Node) : Node :=
  doc_modify_first (is_section sectionId) f doc.

Definition is_field (field : string) : Node -> bool := attr_is "data-dr-field" field.

Definition is_list (listName : string) : Node -> bool := attr_is "data-dr-list" listName.

Definition is_list_item : Node -> bool := has_attr "data-dr-list-item".

(** *** Theme CSS variables *)

Definition setProperty (name : string) (v : JsValue) (root : Node) : Node :=
  if truthy v then setStyle name (js_String v) root else root.

Definition applyThemeCssVars (themeData : JsValue) (doc : Node) : Node :=
  let colors := js_default (js_prop themeData "colors") (JObj []) in
  let typography := js_default (js_prop themeData "typography") (JObj []) in
  let radius := js_default (js_prop themeData "radius") (JObj []) in
  let doc := setProperty "--primary" (js_prop colors "primary") doc in
  let doc := setProperty "--primary-foreground" (js_prop colors "primaryForeground") doc in
  let doc := setProperty "--background" (js_prop colors "background") doc in
  let doc := setProperty "--surface" (js_prop colors "surface") doc in
  let doc := setProperty "--muted" (js_prop colors "muted") doc in
  let doc := setProperty "--border" (js_prop colors "border") doc in
  let doc := setProperty "--font-sans" (js_prop typography "fontSans") doc in
  let doc := setProperty "--font-serif" (js_prop typography "fontSerif") doc in
  setProperty "--radius" (js_prop radius "base") doc.

(** *** Section toggle *)

Definition handleSectionToggle (sectionId : string) (enabled : bool) (doc : Node) : Node :=
  on_section sectionId (setStyle "display" (if enabled then "" else "none")) doc.

(** *** Style update *)

(** The text a style property receives from an assigned value. *)
Definition css_text (v : JsValue) : string :=
  match v with JNull => "" | _ => js_String v end.

(** The loop of [handleStyleUpdate] over the entries of [styles]. *)
Definition applyStyles (styles : Record) (el : Node) : Node :=
  fold_left (fun el pv =>
               if bool_decide (fst pv ∈ _allowedStyleProps)
               then setStyle (fst pv) (css_text (snd pv)) el
               else el) styles el.

(** [handleStyleUpdate] once the section element is known. *)
Definition styleSection (field : string) (styles : Record) (sectionEl : Node) : Node :=
  if bool_decide (field = "__section") then applyStyles styles sectionEl
  else modify_first (attr_is "data-dr-style" field) (applyStyles styles) sectionEl.

Definition handleStyleUpdate (sectionId field : string) (styles : Record) (doc : Node) : Node :=
  on_section sectionId (styleSection field styles) doc.

(** *** Section highlight *)

(** [_highlightedEl] is the element that carries the mark. *)
Fixpoint clearHighlight (n : Node) : Node :=
  match n with
  | TextNode _ => n
  | Element t a s l h cs =>
      let cs' := map clearHighlight cs in
      if h then Element t a (style_set "outlineOffset" "" (style_set "outline" "" s)) l false cs'
      else Element t a s l h cs'
  end.

Definition mark (n : Node) : Node :=
  match n with
  | TextNode _ => n
  | Element t a s l _ cs => Element t a s l true cs
  end.

Definition handleSectionHighlight (sectionId : option string) (doc : Node) : Node :=
  let doc := clearHighlight doc in
  match sectionId with
  | None => doc
  | Some sectionId =>
      if bool_decide (sectionId = "") then doc
      else on_section sectionId
             (fun el => mark (setStyle "outlineOffset" "-2px"
                               (setStyle "outline" "2px solid rgba(59, 130, 246, 0.5)" el)))
             doc
  end.

(** *** Element update helpers *)

(** The writes of [updateFieldElement] on the element it located. *)
Definition writeField (field : string) (value : JsValue) (el : Node) : Node :=
  let el := removeStyle "display" el in
  if bool_decide (tagOf el = "img") then setAttribute "src" (js_String value) el
  else if bool_decide (tagOf el = "a") && includes field "href"
       then setAttribute "href" (js_String value) el
       else setTextContent (js_String value) el.

Definition updateFieldElement (container : Node) (field : string) (value : JsValue) : Node :=
  match querySelector (is_field field) container with
  | None => container
  | Some _ =>
      if nullish value then container
      else modify_first (is_field field) (writeField field value) container
  end.

(** The writes on the field element of a list item, by tag. *)
Definition writeItemField (itemData value : JsValue) (fieldEl : Node) : Node :=
  if bool_decide (tagOf fieldEl = "img") then setAttribute "src" (js_String value) fieldEl
  else if bool_decide (tagOf fieldEl = "a") then
         let fieldEl := setTextContent (js_String value) fieldEl in
         if truthy (js_prop itemData "href")
         then setAttribute "href" (js_String (js_prop itemData "href")) fieldEl
         else fieldEl
       else setTextContent (js_String value) fieldEl.

(** One iteration of the loop over [Object.entries(itemData)]. *)
Definition fillField (itemData : JsValue) (newItem : Node) (kv : string * JsValue) : Node :=
  if isPlainObject (snd kv) then
    fold_left (fun it sub =>
                 modify_first (is_field (fst kv ++ "." ++ fst sub))
                              (setTextContent (js_String (snd sub))) it)
              (entries (snd kv)) newItem
  else modify_first (is_field (fst kv)) (writeItemField itemData (snd kv)) newItem.

(** The body of the loop over [items]: the copy of the template filled
    from one entry. *)
Definition fillItem (newItem : Node) (itemData : JsValue) : Node :=
  if isPrimitive itemData then
    modify_first (has_attr "data-dr-field") (setTextContent (js_String itemData)) newItem
  else fold_left (fillField itemData) (entries itemData) newItem.

(** The callback of [listEls.forEach]: one list container. *)
Definition reconcileList (items : list JsValue) (listEl : Node) : Node :=
  match querySelector is_list_item listEl with
  | None => listEl
  | Some templateItem =>
      let templateClone := cloneNode templateItem in
      let listEl := remove_all is_list_item listEl in
      fold_left (fun listEl itemData =>
                   appendChild (fillItem (cloneNode templateClone) itemData) listEl)
                items listEl
  end.

(** [listEls.forEach] visits the containers found before any of them is
    touched, in document order.  A container below another one is either
    detached, inside a removed item, when its turn comes, or has lost its
    items to the enclosing container and is left as it is: what the page
    shows is the outermost containers reconciled. *)
Definition updateArrayField (container : Node) (listName : string) (items : list JsValue)
    (fallbackListName : option string) : Node :=
  let reconcile name := map_outermost (is_list name) (reconcileList items) container in
  match querySelectorAll (is_list listName) container with
  | _ :: _ => reconcile listName
  | [] =>
      match fallbackListName with
      | Some fallback => if bool_decide (fallback = "") then container else reconcile fallback
      | None => container
      end
  end.

(** *** Inline editing *)

(** [setupInlineEditing]: every [[data-dr-field]] element of the document
    that is not an image and has no [[data-dr-list-item]] ancestor-or-self
    becomes editable and receives three new listeners. *)
Fixpoint bindInline (inItem : bool) (n : Node) : Node :=
  match n with
  | TextNode _ => n
  | Element t a s l h cs =>
      let inItem := inItem || is_list_item n in
      let cs' := map (bindInline inItem) cs in
      if has_attr "data-dr-field" n && negb (bool_decide (t = "img")) && negb inItem
      then Element t (<["contenteditable" := "true"]> a)
                   (style_set "cursor" "text" (style_set "outline" "none" s))
                   (l ++ [InlineFocus; InlineBlur; InlineInput]) h cs'
      else Element t a s l h cs'
  end.

Definition setupInlineEditing (doc : Node) : Node := bindInline false doc.

(** [setupImageClickHandlers]: every [img[data-dr-field]]. *)
Fixpoint setupImageClickHandlers (n : Node) : Node :=
  match n with
  | TextNode _ => n
  | Element t a s l h cs =>
      let cs' := map setupImageClickHandlers cs in
      if bool_decide (t = "img") && has_attr "data-dr-field" n
      then Element t a
                   (style_set "transition" "outline 0.15s ease" (style_set "cursor" "pointer" s))
                   (l ++ [ImageMouseEnter; ImageMouseLeave; ImageClick]) h cs'
      else Element t a s l h cs'
  end.

(** *** Full update *)

(** The per-index writes that follow the reconciliation of an array. *)
Definition updateIndexed (field : string) (sectionEl : Node) (ix : string * JsValue) : Node :=
  if negb (isPrimitive (snd ix)) then
    fold_left (fun el kv =>
                 updateFieldElement el (field ++ "." ++ fst ix ++ "." ++ fst kv) (snd kv))
              (entries (snd ix)) sectionEl
  else updateFieldElement sectionEl (field ++ "." ++ fst ix) (snd ix).

(** One iteration of the loop over [Object.entries(sectionData)].  The
    call of [handleStyleUpdate] looks the section up again and finds
    [sectionEl], the first match, which the loop only changes from
    within. *)
Definition updateSectionField (sectionId : string) (sectionEl : Node)
    (fv : string * JsValue) : Node :=
  if endsWith (fst fv) "__style" && isPlainObject (snd fv) then
    styleSection (slice_end (fst fv) 7) (entries (snd fv)) sectionEl
  else
    match snd fv with
    | JObj nested =>
        fold_left (fun el kv => updateFieldElement el (fst fv ++ "." ++ fst kv) (snd kv))
                  nested sectionEl
    | JArr items =>
        let sectionEl := updateArrayField sectionEl (fst fv) items (Some sectionId) in
        fold_left (updateIndexed (fst fv)) (indexed items) sectionEl
    | value => updateFieldElement sectionEl (fst fv) value
    end.

Definition updateSection (doc : Node) (sd : string * Record) : Node :=
  if bool_decide (fst sd = "theme") then applyThemeCssVars (JObj (snd sd)) doc
  else on_section (fst sd) (fun sectionEl =>
                              fold_left (updateSectionField (fst sd)) (snd sd) sectionEl) doc.

Definition handleFullUpdate (data : list (string * Record)) (sections : list (string * bool))
    (doc : Node) : Node :=
  let doc := fold_left (fun doc sc => handleSectionToggle (fst sc) (snd sc) doc) sections doc in
  let doc := fold_left updateSection data doc in
  setupInlineEditing doc.

(** *** Field update *)

Definition handleFieldUpdate (sectionId field : string) (value : JsValue) (st : State) : State :=
  match doc_querySelector (is_section sectionId) (document st) with
  | None => log ("[preview-runtime] Section not found: " ++ sectionId) st
  | Some _ =>
      with_document
        (on_section sectionId
           (fun sectionEl =>
              match value with
              | JArr items => updateArrayField sectionEl field items (Some sectionId)
              | _ => updateFieldElement sectionEl field value
              end)) st
  end.

(** *** Message handler *)

Record MessageEvent : Type := {
  origin : string;
  (** [None]: no message, no [type], or a [type] the [switch] does not list *)
  data : option ParentToIframeMessage
}.

Definition originRejected (w : Window) (origin : string) : bool :=
  negb (bool_decide (origin = location_origin w))
  && negb (startsWith origin "http://localhost") && negb (startsWith origin "http://127.0.0.1")
  && negb (startsWith origin "https://localhost") && negb (startsWith origin "https://127.0.0.1")
  && negb (endsWith origin ".pages.dev")
  && negb (startsWith origin "https://").

Definition jsStyles (styles : list (string * string)) : Record :=
  map (fun pv => (fst pv, JStr (snd pv))) styles.

Definition handleMessage (w : Window) (event : MessageEvent) (st : State) : State :=
  if originRejected w (origin event) then st
  else
    let st := if bool_decide (_parentOrigin st = "*")
              then with_parentOrigin (origin event) st else st in
    match data event with
    | None => st
    | Some (FullUpdate data sections) =>
        log "[preview-runtime] Full update applied"
            (with_document (handleFullUpdate data sections) (dispatch HFullUpdate st))
    | Some (FieldUpdate sectionId field value) =>
        handleFieldUpdate sectionId field value (dispatch HFieldUpdate st)
    | Some (SectionToggle sectionId enabled) =>
        with_document (handleSectionToggle sectionId enabled) (dispatch HSectionToggle st)
    | Some (StyleUpdate sectionId field styles) =>
        with_document (handleStyleUpdate sectionId field (jsStyles styles))
                      (dispatch HStyleUpdate st)
    | Some (SectionHighlight sectionId) =>
        with_document (handleSectionHighlight sectionId) (dispatch HSectionHighlight st)
    | Some (ScrollToSection sectionId) =>
        let st := dispatch HScrollToSection st in
        match doc_querySelector (is_section sectionId) (document st) with
        | Some _ => scroll sectionId st
        | None => st
        end
    end.

(** *** Listeners *)

Definition nonEmpty (o : option string) : option string :=
  match o with
  | Some s => if bool_decide (s = "") then None else Some s
  | None => None
  end.

Definition getSectionId (path : Path) (doc : Node) : option string :=
  match closest (has_attr "data-dr-section") path doc with
  | Some section => nonEmpty (getAttribute "data-dr-section" section)
  | None => None
  end.

(** [if (sectionId && field) sendToParent(...)] for the element at [path] *)
Definition report (w : Window) (path : Path)
    (messages : Node -> string -> string -> list IframeToParentMessage) (st : State) : State :=
  match node_at path (document st) with
  | None => st
  | Some el =>
      match getSectionId path (document st), nonEmpty (getAttribute "data-dr-field" el) with
      | Some sectionId, Some field =>
          fold_left (fun st m => sendToParent w m st) (messages el sectionId field) st
      | _, _ => st
      end
  end.

(** The body of a listener registered on the element at [path]. *)
Definition runListener (w : Window) (l : Listener) (path : Path) (st : State) : State :=
  match l with
  | InlineFocus =>
      let st := with_document
                  (modify_at path (fun el =>
                     setStyle "borderRadius" "2px"
                       (setStyle "outlineOffset" "2px"
                          (setStyle "outline" "2px solid rgba(139, 92, 246, 0.5)" el)))) st in
      report w path (fun el sectionId field =>
                       [ElementSelected sectionId field TextElement (textContent el)]) st
  | InlineBlur =>
      let st := with_document
                  (modify_at path (fun el =>
                     setStyle "borderRadius" ""
                       (setStyle "outlineOffset" "" (setStyle "outline" "none" el)))) st in
      report w path (fun el sectionId field =>
                       [FieldEdited sectionId field (textContent el)]) st
  | InlineInput =>
      report w path (fun el sectionId field =>
                       [FieldEdited sectionId field (textContent el)]) st
  | ImageMouseEnter =>
      with_document
        (modify_at path (fun el =>
           setStyle "outlineOffset" "2px"
             (setStyle "outline" "2px solid rgba(139, 92, 246, 0.5)" el))) st
  | ImageMouseLeave =>
      with_document
        (modify_at path (fun el => setStyle "outlineOffset" "" (setStyle "outline" "none" el))) st
  | ImageClick =>
      report w path (fun el sectionId field =>
                       [ElementSelected sectionId field ImageElement
                          (default "" (getAttribute "src" el));
                        ImageReplaceRequested sectionId field]) st
  end.

Inductive EventType : Type :=
| FocusEvent | BlurEvent | InputEvent | MouseEnterEvent | MouseLeaveEvent | ClickEvent.

Definition listensTo (e : EventType) (l : Listener) : bool :=
  match e, l with
  | FocusEvent, InlineFocus | BlurEvent, InlineBlur | InputEvent, InlineInput
  | MouseEnterEvent, ImageMouseEnter | MouseLeaveEvent, ImageMouseLeave
  | ClickEvent, ImageClick => true
  | _, _ => false
  end.

Definition bubbles (e : EventType) : bool :=
  match e with InputEvent | ClickEvent => true | _ => false end.

Definition listenersOf (n : Node) : list Listener :=
  match n with TextNode _ => [] | Element _ _ _ l _ _ => l end.

Definition listenersAt (e : EventType) (path : Path) (doc : Node) : list Listener :=
  match node_at path doc with
  | Some n => filter (fun l => listensTo e l = true) (listenersOf n)
  | None => []
  end.

(** The listeners of one element run in registration order.  The click
    listener of an image stops the propagation. *)
Definition runAt (w : Window) (e : EventType) (path : Path) (st : State) : State * bool :=
  let ls := listenersAt e path (document st) in
  (fold_left (fun st l => runListener w l path st) ls st,
   existsb (fun l => match l with ImageClick => true | _ => false end) ls).

Fixpoint propagate (w : Window) (e : EventType) (paths : list Path) (st : State) : State * bool :=
  match paths with
  | [] => (st, false)
  | p :: ps =>
      let r := runAt w e p st in
      if snd r then r else propagate w e ps (fst r)
  end.

(** The click listener of the document that reports a deselection.  (The
    other one, which rewrites same-site navigation, posts nothing and
    leaves the page.) *)
Definition documentClick (w : Window) (target : Path) (st : State) : State :=
  match closest (has_attr "data-dr-field") target (document st) with
  | Some _ => st
  | None => sendToParent w Deselect st
  end.

Definition dispatchEvent (w : Window) (e : EventType) (target : Path) (st : State) : State :=
  match node_at target (document st) with
  | None => st
  | Some _ =>
      let r := propagate w e (if bubbles e then bubble_paths target else [target]) st in
      match e with
      | ClickEvent => if snd r || negb (active st) then fst r else documentClick w target (fst r)
      | _ => fst r
      end
  end.

(** *** Activation *)

Definition initPreviewRuntime (w : Window) (st : State) : State :=
  let st := log "[preview-runtime] Activated" st in
  let st := activate st in
  let st := with_document setupInlineEditing st in
  let st := with_document setupImageClickHandlers st in
  sendToParent w Ready st.

(** Loading the module: [preview] is the value of the [preview] query
    parameter. *)
Definition load (w : Window) (preview : option string) (doc : Node) : State :=
  if bool_decide (preview = Some "true") then initPreviewRuntime w (initial doc)
  else initial doc.

(** What happens to the page after it has loaded. *)
Inductive Event : Type :=
| Message (event : MessageEvent)
| UserEvent (e : EventType) (target : Path).

Definition step (w : Window) (st : State) (ev : Event) : State :=
  match ev with
  | Message event => if active st then handleMessage w event st else st
  | UserEvent e target => dispatchEvent w e target st
  end.

Definition run (w : Window) (evs : list Event) (st : State) : State :=
  fold_left (step w) evs st.

End PreviewRuntime.

(** ** The remote hydration channel: [manifest-injector.ts] *)

(** A loop whose body may throw: the iterations before the exception keep
    their effect, the flag tells whether the loop completed. *)
Fixpoint forEachTry {A S} (body : A -> S -> S * bool) (l : list A) (s : S) : S * bool :=
  match l with
  | [] => (s, true)
  | x :: l' =>
      let r := body x s in
      if snd r then forEachTry body l' (fst r) else r
  end.

Fixpoint foldlM {A B} (f : B -> A -> option B) (l : list A) (b : B) : option B :=
  match l with
  | [] => Some b
  | x :: l' => match f b x with Some b' => foldlM f l' b' | None => None end
  end.

(** [f], which may throw, on the first node satisfying [p]. *)
Definition doc_try_first (p : Node -> bool) (f : Node -> Node * bool) (doc : Node) : Node * bool :=
  match doc_querySelector p doc with
  | None => (doc, true)
  | Some el => let r := f el in (doc_modify_first p (fun _ => fst r) doc, snd r)
  end.

(** Threading the completion flag through the children, left to right. *)
Definition thread {A} (g : A -> bool -> A * bool) : list A -> bool -> list A * bool :=
  fix go cs ok :=
    match cs with
    | [] => ([], ok)
    | c :: cs' =>
        let rc := g c ok in
        let rr := go cs' (snd rc) in
        (fst rc :: fst rr, snd rr)
    end.

(** [f], which may throw, on the outermost nodes satisfying [p], in
    document order, until it throws. *)
Fixpoint try_outermost_in (p : Node -> bool) (f : Node -> Node * bool) (n : Node) (ok : bool)
    : Node * bool :=
  if negb ok then (n, false)
  else if p n then f n
  else match n with
       | TextNode _ => (n, true)
       | Element t a s l h cs =>
           let r := thread (try_outermost_in p f) cs true in
           (Element t a s l h (fst r), snd r)
       end.

Definition try_outermost (p : Node -> bool) (f : Node -> Node * bool) (n : Node) : Node * bool :=
  let r := thread (try_outermost_in p f) (children n) true in
  (set_children (fst r) n, snd r).

Module ManifestInjector.

Record Page : Type := {
  document : Node;
  console : list string;
  fetched : list string
}.

(** What [fetch(url)] and [response.json()] give: a rejected request, or a
    response whose body parses ([Some]) or does not. *)
Inductive FetchResult : Type :=
| NetworkError
| Response (ok : bool) (status : Z) (body : option JsValue).

Definition with_document (doc : Node) (pg : Page) : Page :=
  {| document := doc; console := console pg; fetched := fetched pg |}.

Definition log (line : string) (pg : Page) : Page :=
  {| document := document pg; console := console pg ++ [line]; fetched := fetched pg |}.

Definition request (url : string) (pg : Page) : Page :=
  {| document := document pg; console := console pg; fetched := fetched pg ++ [url] |}.

Definition is_section (sectionId : string) : Node -> bool :=
  attr_is "data-dr-section" sectionId.

Definition is_field (field : string) : Node -> bool := attr_is "data-dr-field" field.

Definition is_list (listName : string) : Node -> bool := attr_is "data-dr-list" listName.

Definition is_list_item : Node -> bool := has_attr "data-dr-list-item".

(** *** Theme *)

Definition setProperty (name : string) (v : JsValue) (root : Node) : Node :=
  if truthy v then setStyle name (js_String v) root else root.

Definition applyThemeCssVars (themeData : JsValue) (doc : Node) : Node :=
  let colors := js_default (js_prop themeData "colors") (JObj []) in
  let typography := js_default (js_prop themeData "typography") (JObj []) in
  let radius := js_default (js_prop themeData "radius") (JObj []) in
  let doc := setProperty "--primary" (js_prop colors "primary") doc in
  let doc := setProperty "--primary-foreground" (js_prop colors "primaryForeground") doc in
  let doc := setProperty "--background" (js_prop colors "background") doc in
  let doc := setProperty "--surface" (js_prop colors "surface") doc in
  let doc := setProperty "--muted" (js_prop colors "muted") doc in
  let doc := setProperty "--border" (js_prop colors "border") doc in
  let doc := setProperty "--font-sans" (js_prop typography "fontSans") doc in
  let doc := setProperty "--font-serif" (js_prop typography "fontSerif") doc in
  setProperty "--radius" (js_prop radius "base") doc.

(** *** Collection references *)

(** The key equality of a [Map]: primitives by value; two objects read
    from different places of the manifest are never the same object. *)
Definition sameValueZero (a b : JsValue) : bool :=
  match a, b with
  | JUndefined, JUndefined | JNull, JNull => true
  | JBool x, JBool y => bool_decide (x = y)
  | JNum x, JNum y => bool_decide (x = y)
  | JStr x, JStr y => bool_decide (x = y)
  | _, _ => false
  end.

(** The [Map] from item ids to items, latest entry first. *)
Definition CollectionIndex := list (JsValue * JsValue).

Definition index_get (index : CollectionIndex) (id : JsValue) : JsValue :=
  match List.find (fun kv => sameValueZero (fst kv) id) index with
  | Some kv => snd kv
  | None => JUndefined
  end.

Definition indexItem (index : CollectionIndex) (item : JsValue) : option CollectionIndex :=
  match js_get item "id" with
  | None => None
  | Some id => Some (if truthy id then (id, item) :: index else index)
  end.

Definition indexCollection (index : CollectionIndex) (col : JsValue) : option CollectionIndex :=
  match js_get col "data" with
  | None => None
  | Some data =>
      match js_iter (js_default data (JArr [])) with
      | None => None
      | Some items => foldlM indexItem items index
      end
  end.

Definition buildIndex (manifest : JsValue) : option CollectionIndex :=
  match js_iter (js_default (js_prop manifest "collections") (JArr [])) with
  | None => None
  | Some cols => foldlM indexCollection cols []
  end.

(** [data[key] = v] on a key the object has. *)
Fixpoint assign (key : string) (v : JsValue) (data : Record) : Record :=
  match data with
  | [] => [(key, v)]
  | (k, x) :: data' =>
      if bool_decide (k = key) then (k, v) :: data' else (k, x) :: assign key v data'
  end.

Definition resolveField (index : CollectionIndex) (data : Record)
    (ks : string * JsValue) : option Record :=
  match js_get (snd ks) "uiWidget" with
  | None => None
  | Some uiWidget =>
      if sameValueZero uiWidget (JStr "collectionPicker") then
        match lookup_field (fst ks) data with
        | JArr (JStr id0 :: refs) =>
            Some (assign (fst ks)
                    (JArr (filter (fun item => truthy item = true)
                             (map (index_get index) (JStr id0 :: refs)))) data)
        | _ => Some data
        end
      else Some data
  end.

Definition resolveCollectionRefs (section : JsValue) (index : CollectionIndex) : option Record :=
  let data := entries (js_prop section "data") in
  let schema := js_default (js_prop (js_prop section "schema") "properties") (JObj []) in
  foldlM (resolveField index) (entries schema) data.

(** *** DOM update helpers *)

Definition updateField (container : Node) (field : string) (value : JsValue) : Node :=
  match querySelector (is_field field) container with
  | None => container
  | Some _ =>
      if nullish value then container
      else modify_first (is_field field)
             (fun el =>
                let el := removeStyle "display" el in
                if bool_decide (tagOf el = "img") then setAttribute "src" (js_String value) el
                else if bool_decide (tagOf el = "a") && includes field "href"
                     then setAttribute "href" (js_String value) el
                     else setTextContent (js_String value) el)
             container
  end.

Definition writeItemField (itemData value : JsValue) (fieldEl : Node) : Node :=
  if bool_decide (tagOf fieldEl = "img") then setAttribute "src" (js_String value) fieldEl
  else if bool_decide (tagOf fieldEl = "a") then
         let fieldEl := setTextContent (js_String value) fieldEl in
         if truthy (js_prop itemData "href")
         then setAttribute "href" (js_String (js_prop itemData "href")) fieldEl
         else fieldEl
       else setTextContent (js_String value) fieldEl.

(** The copy of the template filled from one entry; [Object.entries]
    throws on [null] and [undefined]. *)
Definition fillItem (newItem : Node) (itemData : JsValue) : option Node :=
  match js_entries itemData with
  | None => None
  | Some es =>
      Some (fold_left (fun it kv =>
                         modify_first (is_field (fst kv)) (writeItemField itemData (snd kv)) it)
                      es newItem)
  end.

Definition reconcileList (items : list JsValue) (listEl : Node) : Node * bool :=
  match querySelector is_list_item listEl with
  | None => (listEl, true)
  | Some templateItem =>
      let templateClone := cloneNode templateItem in
      let listEl := remove_all is_list_item listEl in
      forEachTry (fun itemData listEl =>
                    match fillItem (cloneNode templateClone) itemData with
                    | Some newItem => (appendChild newItem listEl, true)
                    | None => (listEl, false)
                    end) items listEl
  end.

Definition updateArrayField (container : Node) (listName : string) (items : list JsValue)
    : Node * bool :=
  match querySelectorAll (is_list listName) container with
  | [] => (container, true)
  | _ :: _ => try_outermost (is_list listName) (reconcileList items) container
  end.

(** *** Apply manifest *)

Definition applyField (fv : string * JsValue) (sectionEl : Node) : Node * bool :=
  if endsWith (fst fv) "__style" then (sectionEl, true)
  else
    match snd fv with
    | JObj nested =>
        (fold_left (fun el kv => updateField el (fst fv ++ "." ++ fst kv) (snd kv))
                   nested sectionEl, true)
    | JArr items => updateArrayField sectionEl (fst fv) items
    | value => (updateField sectionEl (fst fv) value, true)
    end.

Definition applySection (index : CollectionIndex) (section : JsValue) (doc : Node)
    : Node * bool :=
  match js_get section "id" with
  | None => (doc, false)
  | Some id =>
      if sameValueZero id (JStr "theme") then (doc, true)
      else
        let sel := is_section (js_String id) in
        match doc_querySelector sel doc with
        | None => (doc, true)
        | Some _ =>
            if sameValueZero (js_prop section "enabled") (JBool false)
            then (doc_modify_first sel (setStyle "display" "none") doc, true)
            else
              let doc := doc_modify_first sel (setStyle "display" "") doc in
              if negb (truthy (js_prop section "data")) then (doc, true)
              else
                match resolveCollectionRefs section index with
                | None => (doc, false)
                | Some data => doc_try_first sel (forEachTry applyField data) doc
                end
        end
  end.

(** [manifest.sections.find(s => s.id === 'theme')]; the outer [None] is
    a TypeError. *)
Fixpoint findTheme (sections : list JsValue) : option (option JsValue) :=
  match sections with
  | [] => Some None
  | s :: rest =>
      match js_get s "id" with
      | None => None
      | Some id => if sameValueZero id (JStr "theme") then Some (Some s) else findTheme rest
      end
  end.

Definition sectionsOf (manifest : JsValue) : list JsValue :=
  match js_prop manifest "sections" with JArr l => l | _ => [] end.

Definition applyManifest (manifest : JsValue) (doc : Node) : Node * bool :=
  match buildIndex manifest with
  | None => (doc, false)
  | Some index =>
      match findTheme (sectionsOf manifest) with
      | None => (doc, false)
      | Some themeSection =>
          let doc :=
            match themeSection with
            | Some s =>
                if truthy (js_prop s "data") then applyThemeCssVars (js_prop s "data") doc
                else doc
            | None => doc
            end in
          forEachTry (applySection index) (sectionsOf manifest) doc
      end
  end.

(** *** Main *)

Definition urlBlocked (url : string) : bool :=
  negb (startsWith url "https://")
  && negb (startsWith url "http://localhost")
  && negb (startsWith url "http://127.0.0.1").

(** [!manifest || !Array.isArray(manifest.sections)] *)
Definition invalidShape (manifest : JsValue) : bool :=
  negb (truthy manifest) || negb (isArray (js_prop manifest "sections")).

Definition initManifestInjector (fetch : string -> FetchResult) (url : string) (pg : Page)
    : Page :=
  if urlBlocked url
  then log ("[manifest-injector] Blocked non-HTTPS manifest URL: " ++ url) pg
  else
    let pg := request url pg in
    match fetch url with
    | NetworkError => log "[manifest-injector] Error:" pg
    | Response false status _ =>
        log ("[manifest-injector] Failed to fetch manifest: " ++ string_of_Z status) pg
    | Response true _ None => log "[manifest-injector] Error:" pg
    | Response true _ (Some manifest) =>
        if invalidShape manifest
        then log "[manifest-injector] Invalid manifest shape — missing sections array" pg
        else
          let r := applyManifest manifest (document pg) in
          let pg := with_document (fst r) pg in
          if snd r then log "[manifest-injector] Manifest applied successfully" pg
          else log "[manifest-injector] Error:" pg
    end.

(** Loading the module: [manifest] is the value of the [manifest] query
    parameter. *)
Definition load (fetch : string -> FetchResult) (manifest : option string) (doc : Node) : Page :=
  let pg := {| document := doc; console := []; fetched := [] |} in
  match manifest with
  | Some url => if bool_decide (url = "") then pg else initManifestInjector fetch url pg
  | None => pg
  end.

End ManifestInjector.

(** ** The build-time reader: [manifest-loader.ts] *)

Module ManifestLoader.

(** A [Map] keyed by ids is the list of its entries, latest first, as the
    collection index of the injector; [get] is
    [ManifestInjector.index_get]. *)
Definition Index := ManifestInjector.CollectionIndex.

(** What the module holds once it has been loaded. *)
Record Tables : Type := {
  manifest : JsValue;
  sectionsMap : Index;
  collections : list JsValue;
  collectionsMap : Index;
  collectionItemIndex : Index
}.

(** [map.set(x.id, x)]; reading [x.id] throws on [null] and
    [undefined]. *)
Definition setById (index : Index) (x : JsValue) : option Index :=
  id ← js_get x "id"; Some ((id, x) :: index).

(** [arr.map(...)]: a TypeError on what is not an array. *)
Definition js_array (arr : JsValue) : option (list JsValue) :=
  match arr with JArr l => Some l | _ => None end.

(** [new Map(arr.map(x => [x.id, x]))] *)
Definition mapById (arr : list JsValue) : option Index := foldlM setById arr [].

(** [for (const item of col.data) collectionItemIndex.set(item.id, item)] *)
Definition indexCollection (index : Index) (col : JsValue) : option Index :=
  data ← js_get col "data";
  items ← js_iter data;
  foldlM setById items index.

(** The statements run when the module is loaded; [None] when one of them
    throws. *)
Definition init (manifest : JsValue) : option Tables :=
  sections ← js_get manifest "sections";
  sections ← js_array sections;
  sectionsMap ← mapById sections;
  collections ← js_array (js_default (js_prop manifest "collections") (JArr []));
  collectionsMap ← mapById collections;
  collectionItemIndex ← foldlM indexCollection collections [];
  Some {| manifest := manifest; sectionsMap := sectionsMap; collections := collections;
          collectionsMap := collectionsMap; collectionItemIndex := collectionItemIndex |}.

Definition quote : string := String (Ascii.ascii_of_nat 34) EmptyString.

(** [getSectionData]: the value returned and the warnings written to the
    console; [None] when it throws. *)
Definition getSectionData (T : Tables) (sectionId : string) : option (JsValue * list string) :=
  let section := ManifestInjector.index_get (sectionsMap T) (JStr sectionId) in
  if negb (truthy section)
  then Some (JObj [],
             ["[manifest-loader] Section " ++ quote ++ sectionId ++ quote ++ " not found"])
  else
    let data := js_default (js_prop section "data") (JObj []) in
    let properties := js_prop (js_prop section "schema") "properties" in
    if isPrimitive data || negb (truthy properties) then Some (data, [])
    else
      resolved ← foldlM (ManifestInjector.resolveField (collectionItemIndex T))
                        (entries properties) (entries data);
      Some (JObj resolved, []).

Definition getCollectionData (T : Tables) (collectionId : string) : JsValue * list string :=
  let col := ManifestInjector.index_get (collectionsMap T) (JStr collectionId) in
  if negb (truthy col)
  then (JArr [],
        ["[manifest-loader] Collection " ++ quote ++ collectionId ++ quote ++ " not found"])
  else (js_prop col "data", []).

(** [section?.enabled !== false] *)
Definition isSectionEnabled (T : Tables) (sectionId : string) : bool :=
  let section := ManifestInjector.index_get (sectionsMap T) (JStr sectionId) in
  negb (ManifestInjector.sameValueZero (js_prop section "enabled") (JBool false)).

(** [key in value], on an object or an array read from JSON. *)
Definition js_in (key : string) (value : JsValue) : bool :=
  match value with
  | JObj r => bool_decide (key ∈ map fst r)
  | _ => false
  end.

(** One entry of the object [extractDefaults] walks: what is stored under
    its key, if anything; [nested] is [extractDefaults(value)]. *)
Definition extractEntry (value nested : JsValue) : option JsValue :=
  if truthy value && negb (isPrimitive value) && js_in "default" value
  then Some (js_prop value "default")
  else if truthy value && negb (isPrimitive value) && negb (js_in "type" value)
       then Some nested
       else None.

(** The loop over [Object.entries(obj)], written out on the entries of an
    object and of an array. *)
Fixpoint extractDefaults (obj : JsValue) : JsValue :=
  match obj with
  | JObj r =>
      JObj ((fix go (r : Record) : Record :=
               match r with
               | [] => []
               | (key, value) :: r' =>
                   match extractEntry value (extractDefaults value) with
                   | Some d => (key, d) :: go r'
                   | None => go r'
                   end
               end) r)
  | JArr l =>
      JObj ((fix go (i : nat) (l : list JsValue) : Record :=
               match l with
               | [] => []
               | value :: l' =>
                   match extractEntry value (extractDefaults value) with
                   | Some d => (string_of_nat i, d) :: go (S i) l'
                   | None => go (S i) l'
                   end
               end) 0%nat l)
  | _ => JObj []
  end.

Definition defaultTheme : JsValue :=
  JObj [("colors", JObj [("primary", JStr "#1c1917"); ("primaryForeground", JStr "#ffffff");
                         ("background", JStr "#fafaf9"); ("surface", JStr "#ffffff");
                         ("muted", JStr "#a8a29e"); ("border", JStr "#e7e5e4")]);
        ("typography", JObj [("fontSans", JStr "'Inter', sans-serif");
                             ("fontSerif", JStr "'Cinzel', serif")]);
        ("radius", JObj [("base", JStr "0px")])].

Definition getTheme (T : Tables) : JsValue :=
  let themeSection := ManifestInjector.index_get (sectionsMap T) (JStr "theme") in
  if truthy (js_prop themeSection "data") then js_prop themeSection "data"
  else
    let theme := js_prop (manifest T) "theme" in
    if negb (truthy theme) then defaultTheme
    else if truthy (js_prop theme "data") then js_prop theme "data"
         else extractDefaults theme.

Definition getAllSections (T : Tables) : JsValue := js_prop (manifest T) "sections".

Definition getManifest (T : Tables) : JsValue := manifest T.

End ManifestLoader.

(** * What the statements speak of *)

(** ** Trees *)

Definition attrsOf (n : Node) : gmap string string :=
  match n with TextNode _ => ∅ | Element _ a _ _ _ _ => a end.

(** The tree after [modify_in], whether or not a node was found. *)
Definition modified (p : Node -> bool) (f : Node -> Node) (n : Node) : Node :=
  default n (modify_in p f n).

Definition modified_list (p : Node -> bool) (f : Node -> Node) (cs : list Node) : list Node :=
  default cs (modify_list (modify_in p f) cs).

Definition found (p : Node -> bool) (n : Node) : bool :=
  match find_in p n with Some _ => true | None => false end.

Definition found_list (p : Node -> bool) (cs : list Node) : bool :=
  match first_some (find_in p) cs with Some _ => true | None => false end.

(** No node below [n] satisfies [r]. *)
Definition freeBelow (r : Node -> bool) (n : Node) : bool :=
  negb (found_list r (children n)).

Definition isText (n : Node) : bool :=
  match n with TextNode _ => true | Element _ _ _ _ _ _ => false end.

(** What the writes of the appliers do to the node they reach: its
    attributes other than [src] and [href] stay, its children stay or
    become text. *)
Definition writer (f : Node -> Node) : Prop :=
  forall x, (forall a, a <> "src" -> a <> "href" -> getAttribute a (f x) = getAttribute a x)
            /\ (children (f x) = children x \/ forallb isText (children (f x)) = true).

(** ** The style patcher *)

(** The node a style update addresses: the section itself for
    ["__section"], otherwise its first [[data-dr-style]] descendant of
    that name. *)
Definition styleTarget (sectionId field : string) (doc : Node) : option Node :=
  match doc_querySelector (PreviewRuntime.is_section sectionId) doc with
  | None => None
  | Some sectionEl =>
      if bool_decide (field = "__section") then Some sectionEl
      else querySelector (attr_is "data-dr-style" field) sectionEl
  end.

Definition allowedStyle (pv : string * JsValue) : bool :=
  bool_decide (fst pv ∈ PreviewRuntime._allowedStyleProps).

(** What [applyStyles] does to the style map of an element. *)
Definition patchStyle (styles : Record) (s : gmap string string) : gmap string string :=
  fold_left (fun s pv => if allowedStyle pv
                         then style_set (fst pv) (PreviewRuntime.css_text (snd pv)) s
                         else s) styles s.

(** ** Origins and outbound events *)

(** An inbound message that passes the origin filter. *)
Definition accepted (w : PreviewRuntime.Window) (ev : PreviewRuntime.Event) : bool :=
  match ev with
  | PreviewRuntime.Message event =>
      negb (PreviewRuntime.originRejected w (PreviewRuntime.origin event))
  | PreviewRuntime.UserEvent _ _ => false
  end.

(** [st'] comes after [st]: the parent origin is [o], and what has been
    posted in between was posted to [o]. *)
Definition extends (o : string) (st st' : PreviewRuntime.State) : Prop :=
  PreviewRuntime._parentOrigin st' = o
  /\ exists new, PreviewRuntime.posted st' = (PreviewRuntime.posted st ++ new)%list
                 /\ Forall (fun mt => snd mt = o) new.

(** The origins called untrusted: not the page's own, not HTTPS, not
    loopback. *)
Definition loopback (origin : string) : bool :=
  startsWith origin "http://localhost" || startsWith origin "http://127.0.0.1"
  || startsWith origin "https://localhost" || startsWith origin "https://127.0.0.1".

Definition untrustedScheme (w : PreviewRuntime.Window) (origin : string) : bool :=
  negb (bool_decide (origin = PreviewRuntime.location_origin w))
  && negb (startsWith origin "https://") && negb (loopback origin).

(** ** Validation of a remote manifest *)

(** The host a URL names: what stands between [://] and the first [/],
    [?] or [#], without the user information that ends at the last [@]
    and without the port that starts at the first [:]. *)
Definition oneOf (cs : string) (c : Ascii.ascii) : bool :=
  includes cs (String c EmptyString).

Fixpoint takeUntil (stop : Ascii.ascii -> bool) (s : string) : string :=
  match s with
  | EmptyString => EmptyString
  | String c s' => if stop c then EmptyString else String c (takeUntil stop s')
  end.

Fixpoint afterLast (stop : Ascii.ascii -> bool) (s : string) : string :=
  match s with
  | EmptyString => EmptyString
  | String c s' =>
      if existsb stop (list_ascii_of_string s') then afterLast stop s'
      else if stop c then s' else s
  end.

Definition hostOf (url : string) : string :=
  match String.index 0 "://" url with
  | Some i =>
      let rest := String.substring (i + 3) (String.length url - (i + 3)) url in
      takeUntil (oneOf ":") (afterLast (oneOf "@") (takeUntil (oneOf "/?#") rest))
  | None => ""
  end.

(** The URLs called loopback name the host [localhost] or [127.0.0.1];
    the URLs called untrusted are neither HTTPS nor loopback. *)
Definition loopbackHost (url : string) : bool :=
  bool_decide (hostOf url = "localhost") || bool_decide (hostOf url = "127.0.0.1").

Definition untrustedUrl (url : string) : bool :=
  negb (startsWith url "https://") && negb (loopbackHost url).

(** A URL that starts with none of the three admitted prefixes. *)
Definition admittedPrefixes : list string :=
  ["https://"; "http://localhost"; "http://127.0.0.1"].

Definition refusedUrl (url : string) : bool :=
  forallb (fun prefix => negb (String.prefix prefix url)) admittedPrefixes.

(** A body that is an object holding an array under [sections]. *)
Definition sectionsArrayBody (body : JsValue) : bool :=
  match body with
  | JObj fields =>
      match lookup_field "sections" fields with JArr _ => true | _ => false end
  | _ => false
  end.

(** The load fails validation: the URL starts with no admitted prefix, the
    request fails or is answered without success, the body cannot be
    parsed, or it is not an object holding a [sections] array. *)
Definition validationFailure (fetch : string -> ManifestInjector.FetchResult)
    (url : string) : bool :=
  refusedUrl url
  || match fetch url with
     | ManifestInjector.NetworkError => true
     | ManifestInjector.Response false _ _ => true
     | ManifestInjector.Response true _ None => true
     | ManifestInjector.Response true _ (Some body) => negb (sectionsArrayBody body)
     end.

(** ** List containers, templates and entries *)

(** The item nodes of a container, and those that are its children. *)
Definition itemNodes (listEl : Node) : list Node :=
  querySelectorAll PreviewRuntime.is_list_item listEl.

Definition renderedItems (listEl : Node) : list Node :=
  List.filter PreviewRuntime.is_list_item (children listEl).

(** Field nodes, and templates whose field nodes are not nested: no
    field node lies below another one. *)
Definition tagged : Node -> bool := has_attr "data-dr-field".

Definition fieldFree (n : Node) : bool := negb (found_list tagged (children n)).

Fixpoint flatFields (n : Node) : bool :=
  match n with
  | TextNode _ => true
  | Element _ _ _ _ _ cs => (negb (tagged n) || fieldFree n) && forallb flatFields cs
  end.

Definition flatTemplate (templateItem : Node) : bool :=
  forallb flatFields (children templateItem).

(** Entries that are records of scalars and arrays, without nested
    objects. *)
Definition flatRecord (r : JsValue) : bool :=
  negb (isPrimitive r)
  && forallb (fun kv => negb (isPlainObject (snd kv))) (entries r).

(** The write of one entry of a flat record into an item. *)
Definition writeEntry (r : JsValue) (n : Node) (kv : string * JsValue) : Node :=
  modify_first (PreviewRuntime.is_field (fst kv)) (PreviewRuntime.writeItemField r (snd kv)) n.

(** [item] writes every field the first entry writes, and sets the link
    target if the first entry does. *)
Definition covers (first item : JsValue) : bool :=
  forallb (fun k => bool_decide (k ∈ map fst (entries item))) (map fst (entries first))
  && (negb (truthy (js_prop first "href")) || truthy (js_prop item "href")).

(** The entries for which a second reconciliation is shown to change
    nothing: scalars only; or, on a template whose field nodes are not
    nested, flat records that each cover the first one. *)
Definition uniformItems (listEl : Node) (items : list JsValue) : bool :=
  forallb isPrimitive items
  || (match querySelector PreviewRuntime.is_list_item listEl with
      | Some templateItem => flatTemplate templateItem
      | None => true
      end
      && match items with
         | [] => true
         | first :: _ => forallb (fun i => flatRecord i && covers first i) items
         end).

(** ** The hydration of a section, in the words of the specification *)

(** "For every remaining section applies enable/disable and then its
    field map through the same field/array/style routing as the
    full-update, after resolving" the reference-picker fields: the
    section toggle of the embedded channel, with the enabled flag
    defaulting to true, followed by the full-update's treatment of the
    section on the resolved data. *)
Definition hydrateSection_spec (index : ManifestInjector.CollectionIndex)
    (section : JsValue) (doc : Node) : Node :=
  let sectionId := js_String (js_prop section "id") in
  let enabled :=
    negb (ManifestInjector.sameValueZero (js_prop section "enabled") (JBool false)) in
  let doc := PreviewRuntime.handleSectionToggle sectionId enabled doc in
  match ManifestInjector.resolveCollectionRefs section index with
  | Some data => PreviewRuntime.updateSection doc (sectionId, data)
  | None => doc
  end.

(** A field node addressed by a dotted path below [field]. *)
Definition indexedUnder (field : string) (n : Node) : bool :=
  match getAttribute "data-dr-field" n with
  | Some a => startsWith a (field ++ ".")
  | None => false
  end.

(** The field maps on which both channels do the same: no [__style]
    key; arrays hold flat records only, the section has no list named
    after the section itself (unless the array is so named) and no field
    node addressed by index below the array's name. *)
Definition hydratableField (sectionId : string) (sectionEl : Node)
    (fv : string * JsValue) : bool :=
  negb (endsWith (fst fv) "__style")
  && match snd fv with
     | JArr items =>
         forallb flatRecord items
         && (bool_decide (fst fv = sectionId)
             || freeBelow (PreviewRuntime.is_list sectionId) sectionEl)
         && freeBelow (indexedUnder (fst fv)) sectionEl
     | _ => true
     end.

Definition hydratable (sectionId : string) (data : Record) (sectionEl : Node) : bool :=
  forallb (hydratableField sectionId sectionEl) data.

(** ** Reference resolution, field by field *)

(** The schema marks the field as a reference picker. *)
Definition isPicker (fieldSchema : JsValue) : bool :=
  ManifestInjector.sameValueZero (js_prop fieldSchema "uiWidget") (JStr "collectionPicker").

(** An array that starts with an id string becomes the array of the
    items found for its entries. *)
Definition resolvedValue (index : ManifestInjector.CollectionIndex) (v : JsValue) : JsValue :=
  match v with
  | JArr (JStr id0 :: refs) =>
      JArr (filter (fun item => truthy item = true)
              (map (ManifestInjector.index_get index) (JStr id0 :: refs)))
  | _ => v
  end.

(** The entries of an index built from the items of the collections, in
    document order. *)
Definition indexEntries (items : list JsValue) : list (JsValue * JsValue) :=
  flat_map (fun item => if truthy (js_prop item "id") then [(js_prop item "id", item)] else [])
           items.

(** The items of a collection: its [data], when it can be iterated and
    holds no [null]. *)
Definition collectionItems (col : JsValue) (items : list JsValue) : Prop :=
  nullish col = false
  /\ js_iter (js_default (js_prop col "data") (JArr [])) = Some items
  /\ Forall (fun item => nullish item = false) items.

(** ** Example pages, messages and manifests *)

Definition elem (t : string) (a : list (string * string)) (cs : list Node) : Node :=
  Element t (list_to_map a) ∅ [] false cs.

(** A page with one section, holding a heading that is a field and a
    style target. *)
Definition heroSectionEl : Node :=
  elem "section" [("data-dr-section", "hero")]
    [elem "h1" [("data-dr-field", "title"); ("data-dr-style", "title")] [TextNode "Hello"]].

Definition heroPage : Node := elem "html" [] [elem "body" [] [heroSectionEl]].

(** A page with one section that holds a list of two items; each item has
    a title and a subtitle. *)
Definition featureItem (title sub : string) : Node :=
  elem "li" [("data-dr-list-item", "")]
    [elem "span" [("data-dr-field", "title")] [TextNode title];
     elem "em" [("data-dr-field", "sub")] [TextNode sub]].

Definition featureList : Node :=
  elem "ul" [("data-dr-list", "features")]
    [featureItem "Fast" "Built for speed"; featureItem "Safe" "Checked twice"].

Definition featurePage : Node :=
  elem "html" []
    [elem "body" [] [elem "section" [("data-dr-section", "features")] [featureList]]].

(** The page served from [https://site.example], embedded in an editor. *)
Definition editor : PreviewRuntime.Window :=
  {| PreviewRuntime.location_origin := "https://site.example";
     PreviewRuntime.has_parent := true |}.

Definition fieldUpdateFrom (origin : string) (sectionId field : string) (value : JsValue)
    : PreviewRuntime.Event :=
  PreviewRuntime.Message
    {| PreviewRuntime.origin := origin;
       PreviewRuntime.data := Some (PreviewRuntime.FieldUpdate sectionId field value) |}.

Definition manifestOf (sections : list JsValue) : JsValue :=
  JObj [("sections", JArr sections)].

Definition styledHeroSection : JsValue :=
  JObj [("id", JStr "hero");
        ("data", JObj [("title", JStr "New title");
                       ("title__style", JObj [("color", JStr "red")])])].

Definition scalarListSection : JsValue :=
  JObj [("id", JStr "features");
        ("data", JObj [("features", JArr [JStr "Pool"; JStr "Gym"])])].

Definition plainHeroSection : JsValue :=
  JObj [("id", JStr "hero");
        ("data", JObj [("title", JStr "New title"); ("cta", JObj [("label", JStr "Go")])])].

(** ** Messages and the section they address *)

(** The section a message names, for the messages that act on one section
    only and on nothing else. *)
Definition addressee (msg : PreviewRuntime.ParentToIframeMessage) : option string :=
  match msg with
  | PreviewRuntime.FieldUpdate sectionId _ _
  | PreviewRuntime.SectionToggle sectionId _
  | PreviewRuntime.StyleUpdate sectionId _ _
  | PreviewRuntime.ScrollToSection sectionId => Some sectionId
  | PreviewRuntime.FullUpdate _ _ | PreviewRuntime.SectionHighlight _ => None
  end.

(** The origins the message handler lets through. *)
Definition acceptedOrigin (w : PreviewRuntime.Window) (origin : string) : bool :=
  bool_decide (origin = PreviewRuntime.location_origin w)
  || startsWith origin "https://"
  || startsWith origin "http://localhost"
  || startsWith origin "http://127.0.0.1"
  || endsWith origin ".pages.dev".

(** ** The highlight *)

(** The number of elements that carry the highlight. *)
Fixpoint highlights (n : Node) : nat :=
  match n with
  | TextNode _ => 0
  | Element _ _ _ _ h cs => (if h then 1 else 0) + sum_list (map highlights cs)
  end.

(** ** Theme variables *)

(** The custom properties [applyThemeCssVars] writes, each with the group
    and the key of the theme value it takes. *)
Definition themeVars : list (string * (string * string)) :=
  [("--primary", ("colors", "primary"));
   ("--primary-foreground", ("colors", "primaryForeground"));
   ("--background", ("colors", "background"));
   ("--surface", ("colors", "surface"));
   ("--muted", ("colors", "muted"));
   ("--border", ("colors", "border"));
   ("--font-sans", ("typography", "fontSans"));
   ("--font-serif", ("typography", "fontSerif"));
   ("--radius", ("radius", "base"))].

(** [(themeData?.group ?? {}).key] *)
Definition themeValue (themeData : JsValue) (group key : string) : JsValue :=
  js_prop (js_default (js_prop themeData group) (JObj [])) key.

(** What one guarded [style.setProperty(name, value)] does to the
    declarations of the root; [val] gives the value of an entry. *)
Definition setVar {X} (val : string * X -> JsValue) (s : gmap string string)
    (v : string * X) : gmap string string :=
  if truthy (val v) then style_set (fst v) (js_String (val v)) s else s.

(** ** Listeners and outbound events *)

(** No element of the tree has a listener of the runtime. *)
Fixpoint unbound (n : Node) : bool :=
  match n with
  | TextNode _ => true
  | Element _ _ _ l _ cs => bool_decide (l = []) && forallb unbound cs
  end.

(** The events an image field sends when it is clicked. *)
Definition fromImage (m : PreviewRuntime.IframeToParentMessage) : bool :=
  match m with
  | PreviewRuntime.ElementSelected _ _ PreviewRuntime.ImageElement _
  | PreviewRuntime.ImageReplaceRequested _ _ => true
  | _ => false
  end.

(** The element has a click listener of an image field. *)
Definition imageBound (n : Node) : bool :=
  existsb (PreviewRuntime.listensTo PreviewRuntime.ClickEvent) (PreviewRuntime.listenersOf n).

(** The tree without what scripts and styles added: tags, attributes and
    text only. *)
Fixpoint skeleton (n : Node) : Node :=
  match n with
  | TextNode d => TextNode d
  | Element t a _ _ _ cs => Element t a ∅ [] false (map skeleton cs)
  end.

(** [st'] differs from [st] by events of kind [P] added to the outbox. *)
Definition posts (P : PreviewRuntime.IframeToParentMessage -> bool)
    (st st' : PreviewRuntime.State) : Prop :=
  exists new,
    st' = {| PreviewRuntime.document := PreviewRuntime.document st;
             PreviewRuntime._parentOrigin := PreviewRuntime._parentOrigin st;
             PreviewRuntime.posted := PreviewRuntime.posted st ++ new;
             PreviewRuntime.scrolled := PreviewRuntime.scrolled st;
             PreviewRuntime.console := PreviewRuntime.console st;
             PreviewRuntime.dispatched := PreviewRuntime.dispatched st;
             PreviewRuntime.active := PreviewRuntime.active st |}
    /\ Forall (fun mt => P (fst mt) = true) new.

(** [st'] differs from [st] in styles at most: same elements, attributes
    and text, same outbox, same parent origin. *)
Definition restyled (st st' : PreviewRuntime.State) : Prop :=
  skeleton (PreviewRuntime.document st') = skeleton (PreviewRuntime.document st)
  /\ PreviewRuntime.posted st' = PreviewRuntime.posted st
  /\ PreviewRuntime._parentOrigin st' = PreviewRuntime._parentOrigin st.

(** ** Entries of a hydrated list *)

(** The copy of the template the injector fills from an entry that is
    neither [null] nor [undefined]. *)
Definition hydratedItem (templateItem : Node) (itemData : JsValue) : Node :=
  fold_left (fun it kv =>
               modify_first (ManifestInjector.is_field (fst kv))
                            (ManifestInjector.writeItemField itemData (snd kv)) it)
            (entries itemData) (cloneNode templateItem).

(** ** Manifests the injector cannot read *)

(** A collection the index cannot take in: [null] or [undefined], one
    whose [data] cannot be iterated, or one that holds a [null] or
    [undefined] item. *)
Definition brokenCollection (col : JsValue) : bool :=
  nullish col
  || match js_iter (js_default (js_prop col "data") (JArr [])) with
     | None => true
     | Some items => existsb nullish items
     end.

(** The manifest has collections that cannot be indexed, or a [null] or
    [undefined] section that no theme section precedes. *)
Definition malformed (manifest : JsValue) : Prop :=
  match js_iter (js_default (js_prop manifest "collections") (JArr [])) with
  | None => True
  | Some cols => existsb brokenCollection cols = true
  end
  \/ exists pre bad post,
       ManifestInjector.sectionsOf manifest = (pre ++ bad :: post)%list
       /\ nullish bad = true
       /\ Forall (fun s => nullish s = false
                           /\ ManifestInjector.sameValueZero (js_prop s "id") (JStr "theme")
                              = false) pre.

(** ** Lookups by id *)

(** The last element of [l] whose id is the string [id]; [undefined] when
    there is none. *)
Definition lastWithId (id : string) (l : list JsValue) : JsValue :=
  default JUndefined
    (List.find (fun x => ManifestInjector.sameValueZero (js_prop x "id") (JStr id)) (rev l)).

(** The entries of a [Map] filled from [l] by id, latest first. *)
Definition byId (l : list JsValue) : list (JsValue * JsValue) :=
  rev (map (fun x => (js_prop x "id", x)) l).

(** What the loader reads from a manifest: its sections, its collections
    and the items of each collection, none of them [null] or [undefined]. *)
Definition loads (manifest : JsValue) (sections cols : list JsValue)
    (itemss : list (list JsValue)) : Prop :=
  js_prop manifest "sections" = JArr sections
  /\ js_default (js_prop manifest "collections") (JArr []) = JArr cols
  /\ Forall (fun s => nullish s = false) sections
  /\ Forall2 (fun col items => nullish col = false
                               /\ js_iter (js_prop col "data") = Some items
                               /\ Forall (fun item => nullish item = false) items)
             cols itemss.

(** Every reference held by the data is truthy: no empty id, no [null]. *)
Definition truthyRefs (data : Record) : Prop :=
  Forall (fun kv => match snd kv with
                    | JArr refs => Forall (fun r => truthy r = true) refs
                    | _ => True
                    end) data.

(** ** Themes *)

(** A theme written out in schema style: every value that is not an
    object becomes a definition with a type and that value as default;
    objects are groups and are kept as groups. *)
Fixpoint schemaOf (theme : JsValue) : JsValue :=
  match theme with
  | JObj r => JObj (map (fun kv => let '(key, value) := kv in (key, schemaOf value)) r)
  | value => JObj [("type", JStr "string"); ("default", value)]
  end.

(** A theme whose groups have no key named [default] or [type]. *)
Fixpoint plainTheme (theme : JsValue) : bool :=
  match theme with
  | JObj r =>
      negb (bool_decide ("default" ∈ map fst r))
      && negb (bool_decide ("type" ∈ map fst r))
      && forallb (fun kv => let '(_, value) := kv in plainTheme value) r
  | _ => true
  end.

(** What [extractDefaults] keeps of one entry. *)
Definition extracted (kv : string * JsValue) : list (string * JsValue) :=
  match ManifestLoader.extractEntry (snd kv) (ManifestLoader.extractDefaults (snd kv)) with
  | Some d => [(fst kv, d)]
  | None => []
  end.

(** * Properties *)

(** ** Reasoning on the DOM tree *)

Section NodeInduction.
Variable P : Node -> Prop.
Hypothesis Ptext : forall d, P (TextNode d).
Hypothesis Pelem : forall t a s l h cs, Forall P cs -> P (Element t a s l h cs).

Fixpoint Node_induction (n : Node) : P n :=
  match n with
  | TextNode d => Ptext d
  | Element t a s l h cs =>
      Pelem t a s l h cs
        ((fix go (cs : list Node) : Forall P cs :=
            match cs with
            | [] => List.Forall_nil P
            | c :: cs' => List.Forall_cons P c cs' (Node_induction c) (go cs')
            end) cs)
  end.
End NodeInduction.

Section FirstMatch.
Variable p : Node -> bool.

Lemma first_some_app {A B} (f : A -> option B) (l1 l2 : list A) :
  first_some f (l1 ++ l2) =
  match first_some f l1 with Some r => Some r | None => first_some f l2 end.
Proof.
  induction l1 as [|x l1 IH]; simpl; [reflexivity|].
  destruct (f x); [reflexivity | exact IH].
Qed.

Lemma first_some_none {A B} (f : A -> option B) (l : list A) :
  Forall (fun x => f x = None) l -> first_some f l = None.
Proof.
  induction 1 as [|x l Hx _ IH]; simpl; [reflexivity|]. rewrite Hx. exact IH.
Qed.

Lemma modify_list_none {A} (g : A -> option A) (l : list A) :
  Forall (fun x => g x = None) l -> modify_list g l = None.
Proof.
  induction 1 as [|x l Hx _ IH]; simpl; [reflexivity|]. rewrite Hx, IH. reflexivity.
Qed.

Lemma modify_list_ext {A} (g g' : A -> option A) (l : list A) :
  Forall (fun x => g x = g' x) l -> modify_list g l = modify_list g' l.
Proof.
  induction 1 as [|x l Hx _ IH]; simpl; [reflexivity|]. rewrite Hx, IH. reflexivity.
Qed.

Lemma modify_list_fixed {A} (g : A -> option A) (l : list A) :
  Forall (fun x => g x = None \/ g x = Some x) l ->
  modify_list g l = None \/ modify_list g l = Some l.
Proof.
  induction 1 as [|x l Hx _ IH]; simpl; [left; reflexivity|].
  destruct Hx as [-> | ->]; [|right; reflexivity].
  destruct IH as [-> | ->]; [left|right]; reflexivity.
Qed.

(** The mutation and the query find the same node. *)
Lemma modify_in_found (f : Node -> Node) (n : Node) :
  modify_in p f n = None <-> find_in p n = None.
Proof.
  induction n as [d | t a s l h cs IH] using Node_induction; simpl.
  - destruct (p (TextNode d)); split; intros; congruence.
  - destruct (p (Element t a s l h cs)); [split; intros; congruence|].
    induction IH as [|c cs Hc _ IHcs]; simpl; [tauto|].
    destruct (modify_in p f c) eqn:Em, (find_in p c) eqn:Ef.
    + split; intros; discriminate.
    + destruct Hc as [_ Hc]. specialize (Hc eq_refl). discriminate.
    + destruct Hc as [Hc _]. specialize (Hc eq_refl). discriminate.
    + destruct (modify_list (modify_in p f) cs); simpl in *.
      * split; [discriminate|]. intros H. apply IHcs in H. discriminate.
      * split; [|reflexivity]. intros _. apply IHcs. reflexivity.
Qed.

Lemma modify_in_ext (f g : Node -> Node) (n : Node) :
  (forall x, p x = true -> f x = g x) -> modify_in p f n = modify_in p g n.
Proof.
  intros Hfg.
  induction n as [d | t a s l h cs IH] using Node_induction; simpl.
  - destruct (p (TextNode d)) eqn:E; [rewrite Hfg by exact E|]; reflexivity.
  - destruct (p (Element t a s l h cs)) eqn:E; [rewrite Hfg by exact E; reflexivity|].
    rewrite (modify_list_ext _ _ _ IH). reflexivity.
Qed.

(** A mutation that changes nothing. *)
Lemma modify_in_fixed (f : Node -> Node) (n : Node) :
  (forall x, p x = true -> f x = x) ->
  modify_in p f n = None \/ modify_in p f n = Some n.
Proof.
  intros Hf.
  induction n as [d | t a s l h cs IH] using Node_induction; simpl.
  - destruct (p (TextNode d)) eqn:E; [right; rewrite Hf by exact E|left]; reflexivity.
  - destruct (p (Element t a s l h cs)) eqn:E; [right; rewrite Hf by exact E; reflexivity|].
    destruct (modify_list_fixed _ _ IH) as [-> | ->]; [left|right]; reflexivity.
Qed.

Lemma doc_modify_first_fixed (f : Node -> Node) (doc : Node) :
  (forall x, p x = true -> f x = x) -> doc_modify_first p f doc = doc.
Proof.
  intros Hf. unfold doc_modify_first.
  destruct (modify_in_fixed f doc Hf) as [-> | ->]; reflexivity.
Qed.

Lemma modify_first_fixed (f : Node -> Node) (n : Node) :
  (forall x, p x = true -> f x = x) -> modify_first p f n = n.
Proof.
  intros Hf. unfold modify_first.
  destruct (modify_list_fixed (modify_in p f) (children n)) as [-> | ->].
  - apply Forall_forall. intros c _. apply modify_in_fixed, Hf.
  - reflexivity.
  - destruct n; reflexivity.
Qed.
End FirstMatch.

Section FindAfterModify.
Variable p : Node -> bool.
Variable f : Node -> Node.
Hypothesis f_keeps_p : forall x, p x = true -> p (f x) = true.
Hypothesis p_local : forall cs n, p (set_children cs n) = p n.

Lemma find_in_modify_list (cs cs' : list Node) :
  Forall (fun c => forall c', modify_in p f c = Some c' ->
                              find_in p c' = f <$> find_in p c) cs ->
  modify_list (modify_in p f) cs = Some cs' ->
  first_some (find_in p) cs' = f <$> first_some (find_in p) cs.
Proof.
  intros IH. revert cs'.
  induction IH as [|c cs Hc _ IHcs]; intros cs'; simpl; [discriminate|].
  destruct (modify_in p f c) as [c'|] eqn:Em.
  - intros [= <-]. simpl. rewrite (Hc c' eq_refl).
    destruct (find_in p c) eqn:Ef; [reflexivity|].
    apply (proj2 (modify_in_found p f c)) in Ef. rewrite Ef in Em. discriminate.
  - apply modify_in_found in Em. rewrite Em.
    destruct (modify_list (modify_in p f) cs) as [cs''|]; [|discriminate].
    intros [= <-]. simpl. rewrite Em. apply IHcs. reflexivity.
Qed.

Lemma find_in_modify_in (n n' : Node) :
  modify_in p f n = Some n' -> find_in p n' = f <$> find_in p n.
Proof.
  revert n'.
  induction n as [d | t a s l h cs IH] using Node_induction; intros n'; simpl.
  - destruct (p (TextNode d)) eqn:E; [|discriminate].
    intros [= <-]. destruct (f (TextNode d)) eqn:Ef; simpl;
      rewrite <- Ef, (f_keeps_p _ E); reflexivity.
  - destruct (p (Element t a s l h cs)) eqn:E.
    + intros [= <-]. destruct (f (Element t a s l h cs)) eqn:Ef; simpl;
        rewrite <- Ef, (f_keeps_p _ E); reflexivity.
    + destruct (modify_list (modify_in p f) cs) as [cs'|] eqn:El; [|discriminate].
      intros [= <-]. simpl.
      pose proof (p_local cs' (Element t a s l h cs)) as Hp. simpl in Hp.
      rewrite Hp, E. apply find_in_modify_list; assumption.
Qed.

Lemma doc_querySelector_modify (doc : Node) :
  doc_querySelector p (doc_modify_first p f doc) = f <$> doc_querySelector p doc.
Proof.
  unfold doc_querySelector, doc_modify_first.
  destruct (modify_in p f doc) as [doc'|] eqn:E; simpl.
  - apply find_in_modify_in, E.
  - apply modify_in_found in E. rewrite E. reflexivity.
Qed.

Lemma querySelector_modify_first (n : Node) :
  querySelector p (modify_first p f n) = f <$> querySelector p n.
Proof.
  unfold querySelector, modify_first.
  destruct (modify_list (modify_in p f) (children n)) as [cs'|] eqn:E.
  - destruct n as [d | t a s l h cs]; [discriminate|]. simpl in *.
    apply find_in_modify_list; [|exact E].
    apply Forall_forall. intros c _ c'. apply find_in_modify_in.
  - assert (H : first_some (find_in p) (children n) = None).
    { revert E. induction (children n) as [|c cs IHcs]; simpl; [reflexivity|].
      destruct (modify_in p f c) eqn:Em; [discriminate|].
      apply modify_in_found in Em. rewrite Em.
      destruct (modify_list (modify_in p f) cs); [discriminate|]. intros _.
      apply IHcs. reflexivity. }
    rewrite H. reflexivity.
Qed.
End FindAfterModify.

Lemma modify_first_ext p f g n :
  (forall x, p x = true -> f x = g x) -> modify_first p f n = modify_first p g n.
Proof.
  intros H. unfold modify_first.
  rewrite (modify_list_ext (modify_in p f) (modify_in p g)); [reflexivity|].
  apply Forall_forall. intros c _. apply modify_in_ext, H.
Qed.

Lemma doc_modify_first_ext p f g doc :
  (forall x, p x = true -> f x = g x) -> doc_modify_first p f doc = doc_modify_first p g doc.
Proof. intros H. unfold doc_modify_first. rewrite (modify_in_ext p f g doc H). reflexivity. Qed.

(** What a query returns satisfies the selector. *)
Lemma find_in_sound p n r : find_in p n = Some r -> p r = true.
Proof.
  revert r. induction n as [d | t a s l h cs IH] using Node_induction; intros r; simpl.
  - destruct (p (TextNode d)) eqn:E; [|discriminate]. intros [= <-]. exact E.
  - destruct (p (Element t a s l h cs)) eqn:E; [intros [= <-]; exact E|]. clear E.
    induction IH as [|c cs' Hc _ IHcs]; simpl; [discriminate|].
    destruct (find_in p c) eqn:Ec; [intros [= <-]; apply (Hc _ eq_refl)|].
    apply IHcs.
Qed.

Lemma querySelector_sound p n r : querySelector p n = Some r -> p r = true.
Proof.
  unfold querySelector. induction (children n) as [|c cs IHcs]; simpl; [discriminate|].
  destruct (find_in p c) eqn:Ec; [intros [= <-]; apply (find_in_sound _ _ _ Ec)|].
  apply IHcs.
Qed.

(** Selectors look at the attributes of a node only. *)
Lemma attr_is_local a v cs n : attr_is a v (set_children cs n) = attr_is a v n.
Proof. destruct n; reflexivity. Qed.

Lemma has_attr_local a cs n : has_attr a (set_children cs n) = has_attr a n.
Proof. destruct n; reflexivity. Qed.

Lemma attr_is_Element a v n :
  attr_is a v n = true -> exists t at_ s l h cs, n = Element t at_ s l h cs.
Proof.
  destruct n as [d | t at_ s l h cs]; [discriminate|]. intros _. eauto 10.
Qed.

Lemma attr_is_setStyle a v p x n : attr_is a v (setStyle p x n) = attr_is a v n.
Proof. destruct n; reflexivity. Qed.

(** ** The value applier ignores [null] and [undefined] *)

Lemma updateFieldElement_nullish container field value :
  nullish value = true -> PreviewRuntime.updateFieldElement container field value = container.
Proof.
  intros H. unfold PreviewRuntime.updateFieldElement.
  destruct (querySelector _ container); [rewrite H|]; reflexivity.
Qed.

Lemma updateField_nullish container field value :
  nullish value = true -> ManifestInjector.updateField container field value = container.
Proof.
  intros H. unfold ManifestInjector.updateField.
  destruct (querySelector _ container); [rewrite H|]; reflexivity.
Qed.

(** C7 — For a value that is [null] or [undefined], the value applier
    leaves the container it searches, hence the field node it locates
    (content and visibility), exactly as it was.  This holds for
    [updateFieldElement] of the embedded channel, whether it is reached
    from a field-update message or from the field map of a full-update,
    and for [updateField] of the remote hydration channel, reached from
    the field map of a manifest section. *)
Theorem null_value_leaves_field_unchanged (value : JsValue) :
  nullish value = true ->
  (forall container field,
      PreviewRuntime.updateFieldElement container field value = container)
  /\ (forall container field,
         ManifestInjector.updateField container field value = container)
  /\ (forall sectionId sectionEl field,
         PreviewRuntime.updateSectionField sectionId sectionEl (field, value) = sectionEl)
  /\ (forall w o sectionId field st,
         PreviewRuntime.document
           (PreviewRuntime.handleMessage w
              {| PreviewRuntime.origin := o;
                 PreviewRuntime.data := Some (PreviewRuntime.FieldUpdate sectionId field value) |}
              st)
         = PreviewRuntime.document st)
  /\ (forall sectionEl field,
         ManifestInjector.applyField (field, value) sectionEl = (sectionEl, true)).
Proof.
  intros Hnull. repeat split.
  - intros. apply updateFieldElement_nullish, Hnull.
  - intros. apply updateField_nullish, Hnull.
  - intros sectionId sectionEl field. unfold PreviewRuntime.updateSectionField. simpl.
    destruct value; try discriminate;
      rewrite andb_false_r; apply updateFieldElement_nullish; reflexivity.
  - intros w o sectionId field st. unfold PreviewRuntime.handleMessage. simpl.
    destruct (PreviewRuntime.originRejected w o); [reflexivity|].
    unfold PreviewRuntime.handleFieldUpdate.
    destruct (bool_decide (PreviewRuntime._parentOrigin st = "*")); simpl;
      (destruct (doc_querySelector _ _); simpl; [|reflexivity]);
      apply doc_modify_first_fixed; intros x _;
      destruct value; try discriminate; apply updateFieldElement_nullish; reflexivity.
  - intros sectionEl field. unfold ManifestInjector.applyField. simpl.
    destruct (endsWith field "__style"); [reflexivity|].
    destruct value; try discriminate; rewrite updateField_nullish; reflexivity.
Qed.

Lemma null_value_leaves_field_unchanged_witness :
  nullish JNull = true
  /\ PreviewRuntime.updateFieldElement
       (Element "section" ∅ ∅ [] false
          [Element "h1" {[ "data-dr-field" := "title" ]} {[ "display" := "none" ]} [] false
             [TextNode "Hello"]])
       "title" JNull
     = Element "section" ∅ ∅ [] false
         [Element "h1" {[ "data-dr-field" := "title" ]} {[ "display" := "none" ]} [] false
            [TextNode "Hello"]].
Proof.
  split; [reflexivity|].
  apply (null_value_leaves_field_unchanged JNull); reflexivity.
Defined.

(** ** The style patcher and the allow list *)

Lemma style_get_set p v s : style_get p (style_set p v s) = v.
Proof.
  unfold style_get, style_set. case_bool_decide as Hv.
  - rewrite lookup_delete_eq. subst. reflexivity.
  - rewrite lookup_insert_eq. reflexivity.
Qed.

Lemma lookup_style_set_ne p q v (s : gmap string string) :
  p <> q -> style_set p v s !! q = s !! q.
Proof.
  intros Hne. unfold style_set. case_bool_decide.
  - apply lookup_delete_ne, Hne.
  - apply lookup_insert_ne, Hne.
Qed.

Lemma applyStyles_Element styles t a s l h cs :
  PreviewRuntime.applyStyles styles (Element t a s l h cs)
  = Element t a (patchStyle styles s) l h cs.
Proof.
  unfold PreviewRuntime.applyStyles, patchStyle. revert s.
  unfold allowedStyle.
  induction styles as [|pv styles IH]; intros s; cbn [fold_left]; [reflexivity|].
  destruct (bool_decide (pv.1 ∈ _)); apply IH.
Qed.

Lemma applyStyles_filter styles el :
  PreviewRuntime.applyStyles styles el
  = PreviewRuntime.applyStyles (List.filter allowedStyle styles) el.
Proof.
  unfold PreviewRuntime.applyStyles. revert el.
  induction styles as [|pv styles IH]; intros el; cbn [fold_left List.filter]; [reflexivity|].
  unfold allowedStyle at 1. destruct (bool_decide (pv.1 ∈ _)) eqn:E; cbn [fold_left].
  - rewrite E. apply IH.
  - apply IH.
Qed.

Lemma patchStyle_cons pv styles s :
  patchStyle (pv :: styles) s
  = patchStyle styles (if allowedStyle pv
                       then style_set (fst pv) (PreviewRuntime.css_text (snd pv)) s
                       else s).
Proof. reflexivity. Qed.

Lemma allowedStyle_true pv :
  allowedStyle pv = true <-> fst pv ∈ PreviewRuntime._allowedStyleProps.
Proof. unfold allowedStyle. apply bool_decide_eq_true. Qed.

(** A property that is not on the allow list, or not in the payload,
    keeps its declaration. *)
Lemma patchStyle_other q styles s :
  q ∉ PreviewRuntime._allowedStyleProps \/ q ∉ map fst styles ->
  patchStyle styles s !! q = s !! q.
Proof.
  revert s. induction styles as [|pv styles IH]; intros s Hq; [reflexivity|].
  rewrite patchStyle_cons.
  assert (Hq' : q ∉ PreviewRuntime._allowedStyleProps \/ q ∉ map fst styles).
  { destruct Hq as [Hq | Hq]; [left; exact Hq|right].
    intros Hin. apply Hq. apply list_elem_of_further, Hin. }
  rewrite (IH _ Hq').
  destruct (allowedStyle pv) eqn:Hallowed; [|reflexivity].
  apply allowedStyle_true in Hallowed.
  apply lookup_style_set_ne. intros <-.
  destruct Hq as [Hq | Hq]; [exact (Hq Hallowed)|].
  apply Hq. apply list_elem_of_here.
Qed.

(** A property on the allow list reads back the value of the payload. *)
Lemma patchStyle_allowed p v styles s :
  NoDup (map fst styles) -> (p, v) ∈ styles -> p ∈ PreviewRuntime._allowedStyleProps ->
  style_get p (patchStyle styles s) = PreviewRuntime.css_text v.
Proof.
  intros Hnd Hin Hallowed. revert s.
  induction styles as [|pv styles IH]; intros s; [inversion Hin|].
  cbn [map] in Hnd. apply NoDup_cons in Hnd as [Hfresh Hnd].
  rewrite patchStyle_cons.
  apply elem_of_cons in Hin as [<- | Hin].
  - rewrite (proj2 (allowedStyle_true (p, v)) Hallowed).
    unfold style_get. rewrite patchStyle_other by (right; exact Hfresh).
    apply style_get_set.
  - apply IH; assumption.
Qed.

Lemma styleSection_keeps_section sectionId field styles x :
  PreviewRuntime.is_section sectionId x = true ->
  PreviewRuntime.is_section sectionId (PreviewRuntime.styleSection field styles x) = true.
Proof.
  intros Hx. destruct (attr_is_Element _ _ _ Hx) as (t & a & s & l & h & cs & ->).
  unfold PreviewRuntime.styleSection. case_bool_decide.
  - rewrite applyStyles_Element. exact Hx.
  - unfold modify_first. destruct (modify_list _ _); exact Hx.
Qed.

Lemma applyStyles_keeps_attr a v styles x :
  attr_is a v x = true -> attr_is a v (PreviewRuntime.applyStyles styles x) = true.
Proof.
  intros Hx. destruct (attr_is_Element _ _ _ Hx) as (t & at_ & s & l & h & cs & ->).
  rewrite applyStyles_Element. exact Hx.
Qed.

(** The style update reaches the node it addresses, and only its style. *)
Lemma styleTarget_handleStyleUpdate sectionId field styles doc :
  styleTarget sectionId field (PreviewRuntime.handleStyleUpdate sectionId field styles doc)
  = PreviewRuntime.applyStyles styles <$> styleTarget sectionId field doc.
Proof.
  unfold styleTarget, PreviewRuntime.handleStyleUpdate, PreviewRuntime.on_section.
  rewrite doc_querySelector_modify.
  - destruct (doc_querySelector _ doc) as [sectionEl|]; simpl; [|reflexivity].
    unfold PreviewRuntime.styleSection. case_bool_decide; [reflexivity|].
    apply querySelector_modify_first.
    + intros x. apply applyStyles_keeps_attr.
    + intros cs n. apply attr_is_local.
  - intros x. apply styleSection_keeps_section.
  - intros cs n. apply attr_is_local.
Qed.



(** ** The parent origin and the outbound events *)

Section ParentOrigin.
Import PreviewRuntime.
Variable w : Window.

Lemma extends_refl o st : _parentOrigin st = o -> extends o st st.
Proof.
  intros H. split; [exact H|]. exists []. rewrite app_nil_r. split; [reflexivity|constructor].
Qed.

Lemma extends_trans o st1 st2 st3 :
  extends o st1 st2 -> extends o st2 st3 -> extends o st1 st3.
Proof.
  intros (_ & new1 & E1 & F1) (Ho & new2 & E2 & F2). split; [exact Ho|].
  exists (new1 ++ new2)%list. rewrite E2, E1, <- app_assoc. split; [reflexivity|].
  apply Forall_app; split; assumption.
Qed.

(** A step that touches neither the parent origin nor the outbox. *)
Lemma extends_silent o st st' :
  _parentOrigin st = o -> _parentOrigin st' = _parentOrigin st -> posted st' = posted st ->
  extends o st st'.
Proof.
  intros Ho Hp Hposted. split; [congruence|]. exists []. rewrite app_nil_r.
  split; [exact Hposted|constructor].
Qed.

Lemma sendToParent_extends o m st :
  _parentOrigin st = o -> extends o st (sendToParent w m st).
Proof.
  intros Ho. unfold sendToParent. destruct (has_parent w); [|apply extends_refl, Ho].
  split; [exact Ho|]. exists [(m, _parentOrigin st)]. split; [reflexivity|].
  constructor; [exact Ho|constructor].
Qed.

Lemma fold_extends {A} o (g : State -> A -> State) (l : list A) st :
  (forall st x, _parentOrigin st = o -> extends o st (g st x)) ->
  _parentOrigin st = o -> extends o st (fold_left g l st).
Proof.
  intros Hg. revert st. induction l as [|x l IH]; intros st Ho; simpl.
  - apply extends_refl, Ho.
  - eapply extends_trans; [apply Hg, Ho|]. apply IH. apply (Hg st x Ho).
Qed.

Lemma report_extends o path messages st :
  _parentOrigin st = o -> extends o st (report w path messages st).
Proof.
  intros Ho. unfold report.
  destruct (node_at path (document st)); [|apply extends_refl, Ho].
  destruct (getSectionId path (document st)); [|apply extends_refl, Ho].
  destruct (nonEmpty _); [|apply extends_refl, Ho].
  apply fold_extends; [|exact Ho]. intros st' m. apply sendToParent_extends.
Qed.

Lemma runListener_extends o l path st :
  _parentOrigin st = o -> extends o st (runListener w l path st).
Proof.
  intros Ho.
  assert (Hstyle : forall f, extends o st (with_document f st))
    by (intros f; apply extends_silent; [exact Ho|reflexivity|reflexivity]).
  destruct l; simpl.
  - eapply extends_trans; [apply Hstyle|]. apply report_extends, Ho.
  - eapply extends_trans; [apply Hstyle|]. apply report_extends, Ho.
  - apply report_extends, Ho.
  - apply Hstyle.
  - apply Hstyle.
  - apply report_extends, Ho.
Qed.

Lemma runAt_extends o e path st :
  _parentOrigin st = o -> extends o st (fst (runAt w e path st)).
Proof.
  intros Ho. unfold runAt. simpl. apply fold_extends; [|exact Ho].
  intros st' l. apply runListener_extends.
Qed.

Lemma propagate_extends o e paths st :
  _parentOrigin st = o -> extends o st (fst (propagate w e paths st)).
Proof.
  revert st. induction paths as [|p ps IH]; intros st Ho.
  - apply extends_refl, Ho.
  - change (propagate w e (p :: ps) st)
      with (if snd (runAt w e p st) then runAt w e p st
            else propagate w e ps (fst (runAt w e p st))).
    destruct (snd (runAt w e p st)); [apply runAt_extends, Ho|].
    eapply extends_trans; [apply (runAt_extends o e p st Ho)|].
    apply IH. apply (runAt_extends o e p st Ho).
Qed.

Lemma dispatchEvent_extends o e target st :
  _parentOrigin st = o -> extends o st (dispatchEvent w e target st).
Proof.
  intros Ho. unfold dispatchEvent.
  destruct (node_at target (document st)); [|apply extends_refl, Ho].
  pose proof (propagate_extends o e (if bubbles e then bubble_paths target else [target]) st Ho)
    as Hp.
  destruct e; try exact Hp.
  destruct (_ || _); [exact Hp|].
  eapply extends_trans; [exact Hp|]. unfold documentClick.
  destruct (closest _ _ _); [apply extends_refl|apply sendToParent_extends]; apply Hp.
Qed.

(** No handler posts anything; only the latch writes the parent origin. *)
Lemma handleMessage_posted event st :
  posted (handleMessage w event st) = posted st.
Proof.
  unfold handleMessage. destruct (originRejected w (origin event)); [reflexivity|].
  destruct (bool_decide (_parentOrigin st = "*"));
    (destruct (data event) as [[]|]; simpl; try reflexivity;
     [ unfold handleFieldUpdate; destruct (doc_querySelector _ _); reflexivity
     | destruct (doc_querySelector _ _); reflexivity ]).
Qed.

Lemma handleMessage_parentOrigin event st :
  _parentOrigin (handleMessage w event st)
  = if originRejected w (origin event) then _parentOrigin st
    else if bool_decide (_parentOrigin st = "*") then origin event
         else _parentOrigin st.
Proof.
  unfold handleMessage. destruct (originRejected w (origin event)); [reflexivity|].
  destruct (bool_decide (_parentOrigin st = "*"));
    (destruct (data event) as [[]|]; simpl; try reflexivity;
     [ unfold handleFieldUpdate; destruct (doc_querySelector _ _); reflexivity
     | destruct (doc_querySelector _ _); reflexivity ]).
Qed.

Lemma step_extends st ev :
  accepted w ev = false \/ _parentOrigin st <> "*" ->
  extends (_parentOrigin st) st (step w st ev).
Proof.
  intros Hev. destruct ev as [event | e target]; simpl.
  - destruct (active st); [|apply extends_refl; reflexivity].
    apply extends_silent; [reflexivity| |apply handleMessage_posted].
    rewrite handleMessage_parentOrigin.
    destruct (originRejected w (origin event)) eqn:Er; [reflexivity|].
    case_bool_decide as Hstar; [|reflexivity].
    destruct Hev as [Hev | Hev]; [|contradiction].
    simpl in Hev. rewrite Er in Hev. discriminate.
  - apply dispatchEvent_extends. reflexivity.
Qed.

Lemma run_extends o evs st :
  _parentOrigin st = o ->
  o <> "*" \/ Forall (fun ev => accepted w ev = false) evs ->
  extends o st (run w evs st).
Proof.
  unfold run. revert st. induction evs as [|ev evs IH]; intros st Ho Hevs; simpl.
  - apply extends_refl, Ho.
  - assert (Hstep : extends o st (step w st ev)).
    { rewrite <- Ho. apply step_extends.
      destruct Hevs as [Hevs | Hevs]; [right; congruence|left].
      inversion Hevs; assumption. }
    eapply extends_trans; [exact Hstep|]. apply IH; [apply Hstep|].
    destruct Hevs as [Hevs | Hevs]; [left; exact Hevs|right].
    inversion Hevs; assumption.
Qed.

(** The filter never lets the wildcard through. *)
Lemma wildcard_rejected : location_origin w <> "*" -> originRejected w "*" = true.
Proof.
  intros Hw. unfold originRejected.
  rewrite bool_decide_eq_false_2 by congruence. reflexivity.
Qed.
End ParentOrigin.

(** ** Message admission *)

Lemma untrusted_rejected w origin :
  untrustedScheme w origin = true -> endsWith origin ".pages.dev" = false ->
  PreviewRuntime.originRejected w origin = true.
Proof.
  unfold untrustedScheme, loopback, PreviewRuntime.originRejected. intros H Hsuffix.
  rewrite Hsuffix.
  destruct (bool_decide (origin = _)); [discriminate|].
  destruct (startsWith origin "https://"); [discriminate|].
  destruct (startsWith origin "http://localhost"); [discriminate|].
  destruct (startsWith origin "http://127.0.0.1"); [discriminate|].
  destruct (startsWith origin "https://localhost"); [discriminate|].
  destruct (startsWith origin "https://127.0.0.1"); [discriminate|].
  reflexivity.
Qed.

Lemma load_fresh w preview doc :
  PreviewRuntime._parentOrigin (PreviewRuntime.load w preview doc) = "*"
  /\ PreviewRuntime.dispatched (PreviewRuntime.load w preview doc) = []
  /\ PreviewRuntime.posted (PreviewRuntime.load w preview doc)
     = if bool_decide (preview = Some "true") && PreviewRuntime.has_parent w
       then [(PreviewRuntime.Ready, "*")] else [].
Proof.
  unfold PreviewRuntime.load, PreviewRuntime.initPreviewRuntime, PreviewRuntime.sendToParent.
  destruct (bool_decide (preview = Some "true")); simpl; [|auto].
  destruct (PreviewRuntime.has_parent w); auto.
Qed.




(** C5 — Once a message has passed the origin filter while the parent
    origin was still the wildcard, the parent origin is the origin of that
    message, which is not the wildcard; whatever follows (messages from
    any origin, focus, blur, input and click events) leaves it there, and
    every event posted afterwards is posted to it.  The page's own origin
    is a serialised origin, hence not ["*"]. *)
Theorem parent_origin_latched_once
    (w : PreviewRuntime.Window) (st : PreviewRuntime.State)
    (event : PreviewRuntime.MessageEvent) (evs : list PreviewRuntime.Event) :
  PreviewRuntime.location_origin w <> "*" ->
  PreviewRuntime.active st = true ->
  PreviewRuntime._parentOrigin st = "*" ->
  PreviewRuntime.originRejected w (PreviewRuntime.origin event) = false ->
  let st1 := PreviewRuntime.step w st (PreviewRuntime.Message event) in
  PreviewRuntime._parentOrigin st1 = PreviewRuntime.origin event
  /\ PreviewRuntime.origin event <> "*"
  /\ PreviewRuntime._parentOrigin (PreviewRuntime.run w evs st1) = PreviewRuntime.origin event
  /\ exists new,
       PreviewRuntime.posted (PreviewRuntime.run w evs st1)
       = (PreviewRuntime.posted st1 ++ new)%list
       /\ Forall (fun mt => snd mt = PreviewRuntime.origin event) new.
Proof.
  intros Hw Hactive Hstar Hacc st1.
  assert (Hne : PreviewRuntime.origin event <> "*").
  { intros Heq. rewrite Heq, (wildcard_rejected w Hw) in Hacc. discriminate. }
  assert (H1 : PreviewRuntime._parentOrigin st1 = PreviewRuntime.origin event).
  { subst st1. simpl. rewrite Hactive, handleMessage_parentOrigin, Hacc.
    rewrite bool_decide_eq_true_2 by exact Hstar. reflexivity. }
  split; [exact H1|]. split; [exact Hne|].
  destruct (run_extends w (PreviewRuntime.origin event) evs st1 H1 (or_introl Hne))
    as (Ho & new & Hposted & Hall).
  split; [exact Ho|]. exists new. split; assumption.
Qed.

Lemma parent_origin_latched_once_witness :
  PreviewRuntime.location_origin editor <> "*"
  /\ PreviewRuntime.posted
       (PreviewRuntime.run editor
          [PreviewRuntime.UserEvent PreviewRuntime.InputEvent [0; 0; 0]%nat;
           PreviewRuntime.Message
             {| PreviewRuntime.origin := "https://other.example";
                PreviewRuntime.data := None |};
           PreviewRuntime.UserEvent PreviewRuntime.BlurEvent [0; 0; 0]%nat]
          (PreviewRuntime.step editor (PreviewRuntime.load editor (Some "true") heroPage)
             (PreviewRuntime.Message
                {| PreviewRuntime.origin := "https://admin.example";
                   PreviewRuntime.data := Some (PreviewRuntime.ScrollToSection "hero") |})))
     = [(PreviewRuntime.Ready, "*");
        (PreviewRuntime.FieldEdited "hero" "title" "Hello", "https://admin.example");
        (PreviewRuntime.FieldEdited "hero" "title" "Hello", "https://admin.example")]
  /\ PreviewRuntime._parentOrigin
       (PreviewRuntime.run editor
          [PreviewRuntime.UserEvent PreviewRuntime.InputEvent [0; 0; 0]%nat;
           PreviewRuntime.Message
             {| PreviewRuntime.origin := "https://other.example";
                PreviewRuntime.data := None |};
           PreviewRuntime.UserEvent PreviewRuntime.BlurEvent [0; 0; 0]%nat]
          (PreviewRuntime.step editor (PreviewRuntime.load editor (Some "true") heroPage)
             (PreviewRuntime.Message
                {| PreviewRuntime.origin := "https://admin.example";
                   PreviewRuntime.data := Some (PreviewRuntime.ScrollToSection "hero") |})))
     = "https://admin.example".
Proof.
  split; [discriminate|]. split; [vm_compute; reflexivity|].
  apply (parent_origin_latched_once editor
           (PreviewRuntime.load editor (Some "true") heroPage)
           {| PreviewRuntime.origin := "https://admin.example";
              PreviewRuntime.data := Some (PreviewRuntime.ScrollToSection "hero") |});
    [discriminate | reflexivity | reflexivity | reflexivity].
Defined.

(** C10 — As long as no inbound message has passed the origin filter, the
    parent origin is the wildcard and every event posted so far was posted
    to the wildcard; the first of them, on an embedded page activated by
    [preview=true], is the [ready] event of the activation. *)
Theorem outbound_wildcard_until_latched
    (w : PreviewRuntime.Window) (preview : option string) (doc : Node)
    (evs : list PreviewRuntime.Event) :
  Forall (fun ev => accepted w ev = false) evs ->
  PreviewRuntime._parentOrigin (PreviewRuntime.run w evs (PreviewRuntime.load w preview doc))
  = "*"
  /\ Forall (fun mt => snd mt = "*")
       (PreviewRuntime.posted (PreviewRuntime.run w evs (PreviewRuntime.load w preview doc)))
  /\ PreviewRuntime._parentOrigin (PreviewRuntime.initial doc) = "*"
  /\ PreviewRuntime.posted (PreviewRuntime.load w (Some "true") doc)
     = if PreviewRuntime.has_parent w then [(PreviewRuntime.Ready, "*")] else [].
Proof.
  intros Hevs. destruct (load_fresh w preview doc) as (Ho & _ & Hposted).
  destruct (run_extends w "*" evs _ Ho (or_intror Hevs)) as (Ho' & new & Hnew & Hall).
  split; [exact Ho'|]. split.
  - rewrite Hnew, Hposted. apply Forall_app. split; [|exact Hall].
    destruct (_ && _); repeat constructor.
  - split; [reflexivity|]. destruct (load_fresh w (Some "true") doc) as (_ & _ & ->).
    reflexivity.
Qed.

Lemma outbound_wildcard_until_latched_witness :
  Forall (fun ev => accepted editor ev = false)
    [PreviewRuntime.UserEvent PreviewRuntime.FocusEvent [0; 0; 0]%nat;
     PreviewRuntime.Message {| PreviewRuntime.origin := "http://evil.example";
                               PreviewRuntime.data := None |};
     PreviewRuntime.UserEvent PreviewRuntime.ClickEvent [0]%nat]
  /\ PreviewRuntime.posted
       (PreviewRuntime.run editor
          [PreviewRuntime.UserEvent PreviewRuntime.FocusEvent [0; 0; 0]%nat;
           PreviewRuntime.Message {| PreviewRuntime.origin := "http://evil.example";
                                     PreviewRuntime.data := None |};
           PreviewRuntime.UserEvent PreviewRuntime.ClickEvent [0]%nat]
          (PreviewRuntime.load editor (Some "true") heroPage))
     = [(PreviewRuntime.Ready, "*");
        (PreviewRuntime.ElementSelected "hero" "title" PreviewRuntime.TextElement "Hello", "*");
        (PreviewRuntime.Deselect, "*")]
  /\ Forall (fun mt => snd mt = "*")
       (PreviewRuntime.posted
          (PreviewRuntime.run editor
             [PreviewRuntime.UserEvent PreviewRuntime.FocusEvent [0; 0; 0]%nat;
              PreviewRuntime.Message {| PreviewRuntime.origin := "http://evil.example";
                                        PreviewRuntime.data := None |};
              PreviewRuntime.UserEvent PreviewRuntime.ClickEvent [0]%nat]
             (PreviewRuntime.load editor (Some "true") heroPage))).
Proof.
  assert (H : Forall (fun ev => accepted editor ev = false)
                [PreviewRuntime.UserEvent PreviewRuntime.FocusEvent [0; 0; 0]%nat;
                 PreviewRuntime.Message {| PreviewRuntime.origin := "http://evil.example";
                                           PreviewRuntime.data := None |};
                 PreviewRuntime.UserEvent PreviewRuntime.ClickEvent [0]%nat])
    by (repeat constructor).
  split; [exact H|]. split; [vm_compute; reflexivity|].
  apply (outbound_wildcard_until_latched editor (Some "true") heroPage _ H).
Defined.

(** ** Validation failures of the remote hydration *)

(** C8 — The code does not do what the claim says.  The URL
    [http://localhost.evil.example/m.json] is not an HTTPS URL and its
    host, [localhost.evil.example], is not a loopback host; the claim has
    such a load make no request and leave the document alone.  The guard
    only compares the first characters of the URL with [http://localhost],
    so the manifest is requested from that host and applied: the heading
    of the page is rewritten and success is logged. *)
Theorem loopback_prefix_admits_foreign_host :
  untrustedUrl "http://localhost.evil.example/m.json" = true
  /\ hostOf "http://localhost.evil.example/m.json" = "localhost.evil.example"
  /\ ManifestInjector.fetched
       (ManifestInjector.load
          (fun _ => ManifestInjector.Response true 200 (Some (manifestOf [plainHeroSection])))
          (Some "http://localhost.evil.example/m.json") heroPage)
     = ["http://localhost.evil.example/m.json"]
  /\ textContent heroPage = "Hello"
  /\ textContent
       (ManifestInjector.document
          (ManifestInjector.load
             (fun _ => ManifestInjector.Response true 200
                         (Some (manifestOf [plainHeroSection])))
             (Some "http://localhost.evil.example/m.json") heroPage))
     = "New title"
  /\ ManifestInjector.console
       (ManifestInjector.load
          (fun _ => ManifestInjector.Response true 200 (Some (manifestOf [plainHeroSection])))
          (Some "http://localhost.evil.example/m.json") heroPage)
     = ["[manifest-injector] Manifest applied successfully"].
Proof.
  repeat split; vm_compute; reflexivity.
Qed.

(** The guard refuses the URLs that start with none of the admitted
    prefixes, and the shape test the bodies that are not an object holding
    a [sections] array. *)
Lemma urlBlocked_refusedUrl url : ManifestInjector.urlBlocked url = refusedUrl url.
Proof.
  unfold ManifestInjector.urlBlocked, refusedUrl, admittedPrefixes, startsWith.
  cbn [forallb]. rewrite andb_true_r, andb_assoc. reflexivity.
Qed.

Lemma invalidShape_sectionsArrayBody body :
  ManifestInjector.invalidShape body = negb (sectionsArrayBody body).
Proof.
  unfold ManifestInjector.invalidShape, sectionsArrayBody.
  destruct body as [| |[]|z|s|l|r]; cbn [truthy negb orb js_prop isArray];
    rewrite ?orb_true_r; reflexivity.
Qed.

(** X29: a load that fails validation applies nothing.  When the URL
    starts with none of [https://], [http://localhost] and
    [http://127.0.0.1], nothing is requested and the document is
    untouched; when the request fails, is answered without success, or
    its body cannot be parsed or is not an object holding a [sections]
    array, the document is untouched after the one request.  In each case
    exactly one line is logged, which is not the line that reports
    success, and the load ends there. *)
Theorem failed_validation_never_applies
    (fetch : string -> ManifestInjector.FetchResult) (url : string)
    (pg : ManifestInjector.Page) :
  validationFailure fetch url = true ->
  ManifestInjector.document (ManifestInjector.initManifestInjector fetch url pg)
  = ManifestInjector.document pg
  /\ (exists line,
         ManifestInjector.console (ManifestInjector.initManifestInjector fetch url pg)
         = (ManifestInjector.console pg ++ [line])%list
         /\ line <> "[manifest-injector] Manifest applied successfully")
  /\ ManifestInjector.fetched (ManifestInjector.initManifestInjector fetch url pg)
     = (if refusedUrl url then ManifestInjector.fetched pg
        else (ManifestInjector.fetched pg ++ [url])%list)
  /\ (refusedUrl url = true ->
      forall doc,
        ManifestInjector.fetched (ManifestInjector.load fetch (Some url) doc) = []
        /\ ManifestInjector.document (ManifestInjector.load fetch (Some url) doc) = doc).
Proof.
  unfold validationFailure, ManifestInjector.initManifestInjector. intros H.
  rewrite urlBlocked_refusedUrl.
  destruct (refusedUrl url) eqn:Eb.
  - split; [reflexivity|]. split; [eexists; split; [reflexivity|discriminate]|].
    split; [reflexivity|].
    intros _ doc. unfold ManifestInjector.load, ManifestInjector.initManifestInjector.
    rewrite urlBlocked_refusedUrl, Eb. case_bool_decide as Hurl; split; reflexivity.
  - simpl in H.
    destruct (fetch url) as [|[] status [body|]]; simpl;
      rewrite ?invalidShape_sectionsArrayBody, ?H; simpl;
      try discriminate H;
      (split; [reflexivity|]; split; [eexists; split; [reflexivity|discriminate]|];
       split; [reflexivity|discriminate]).
Qed.

Lemma failed_validation_never_applies_witness :
  validationFailure
    (fun _ => ManifestInjector.Response true 200 (Some (JObj [("title", JStr "Home")])))
    "https://api.example/manifest.json" = true
  /\ ManifestInjector.document
       (ManifestInjector.initManifestInjector
          (fun _ => ManifestInjector.Response true 200 (Some (JObj [("title", JStr "Home")])))
          "https://api.example/manifest.json"
          {| ManifestInjector.document := heroPage; ManifestInjector.console := [];
             ManifestInjector.fetched := [] |})
     = heroPage.
Proof.
  split; [reflexivity|].
  exact (proj1 (failed_validation_never_applies
                  (fun _ => ManifestInjector.Response true 200
                              (Some (JObj [("title", JStr "Home")])))
                  "https://api.example/manifest.json"
                  {| ManifestInjector.document := heroPage; ManifestInjector.console := [];
                     ManifestInjector.fetched := [] |}
                  eq_refl)).
Defined.

(** ** Binding the inline edit surface twice *)

(** C9 — The code does not do what the claim says.  On a page with one
    editable heading, activation registers one input listener on it and a
    user edit posts one [field-edited] event; after any full-update, whose
    last step binds again, the heading carries two input listeners and the
    same edit posts the event twice. *)
Theorem rebinding_duplicates_listeners :
  PreviewRuntime.listenersAt PreviewRuntime.InputEvent [0; 0; 0]%nat
    (PreviewRuntime.document (PreviewRuntime.load editor (Some "true") heroPage))
  = [InlineInput]
  /\ PreviewRuntime.posted
       (PreviewRuntime.run editor
          [PreviewRuntime.UserEvent PreviewRuntime.InputEvent [0; 0; 0]%nat]
          (PreviewRuntime.load editor (Some "true") heroPage))
     = [(PreviewRuntime.Ready, "*");
        (PreviewRuntime.FieldEdited "hero" "title" "Hello", "*")]
  /\ PreviewRuntime.listenersAt PreviewRuntime.InputEvent [0; 0; 0]%nat
       (PreviewRuntime.document
          (PreviewRuntime.run editor
             [PreviewRuntime.Message
                {| PreviewRuntime.origin := "https://admin.example";
                   PreviewRuntime.data := Some (PreviewRuntime.FullUpdate [] []) |}]
             (PreviewRuntime.load editor (Some "true") heroPage)))
     = [InlineInput; InlineInput]
  /\ PreviewRuntime.posted
       (PreviewRuntime.run editor
          [PreviewRuntime.Message
             {| PreviewRuntime.origin := "https://admin.example";
                PreviewRuntime.data := Some (PreviewRuntime.FullUpdate [] []) |};
           PreviewRuntime.UserEvent PreviewRuntime.InputEvent [0; 0; 0]%nat]
          (PreviewRuntime.load editor (Some "true") heroPage))
     = [(PreviewRuntime.Ready, "*");
        (PreviewRuntime.FieldEdited "hero" "title" "Hello", "https://admin.example");
        (PreviewRuntime.FieldEdited "hero" "title" "Hello", "https://admin.example")].
Proof. repeat split; vm_compute; reflexivity. Qed.

(** ** Removing and appending nodes *)

Lemma children_set_children cs n :
  children (set_children cs n) = match n with TextNode _ => [] | _ => cs end.
Proof. destruct n; reflexivity. Qed.

Lemma set_children_twice cs cs' n : set_children cs (set_children cs' n) = set_children cs n.
Proof. destruct n; reflexivity. Qed.

Lemma set_children_same n : set_children (children n) n = n.
Proof. destruct n; reflexivity. Qed.

Lemma remove_all_children p n :
  remove_all p n
  = set_children (flat_map (fun c => if p c then [] else [remove_all p c]) (children n)) n.
Proof. destruct n; reflexivity. Qed.

(** Appending in a loop appends the list. *)
Lemma fold_appendChild {A} (g : A -> Node) (items : list A) (n : Node) :
  fold_left (fun n x => appendChild (g x) n) items n
  = set_children (children n ++ map g items) n.
Proof.
  revert n. induction items as [|x items IH]; intros n; simpl.
  - rewrite app_nil_r. symmetry. apply set_children_same.
  - rewrite IH. unfold appendChild. destruct n as [d | t a s l h cs]; simpl; [reflexivity|].
    rewrite <- app_assoc. reflexivity.
Qed.

Lemma find_all_in_unfold p n :
  find_all_in p n = ((if p n then [n] else []) ++ querySelectorAll p n)%list.
Proof. destruct n; reflexivity. Qed.

Section Removal.
Variable p : Node -> bool.
Hypothesis p_local : forall cs n, p (set_children cs n) = p n.

Lemma p_remove_all n : p (remove_all p n) = p n.
Proof. rewrite remove_all_children. apply p_local. Qed.

(** After the removal no node of the subtree satisfies the selector,
    except perhaps its root. *)
Lemma remove_all_no_match n : querySelectorAll p (remove_all p n) = [].
Proof.
  induction n as [d | t a s l h cs IH] using Node_induction; [reflexivity|].
  unfold querySelectorAll. simpl.
  induction IH as [|c cs Hc _ IHcs]; simpl; [reflexivity|].
  destruct (p c) eqn:Ec; simpl; [exact IHcs|].
  rewrite IHcs, app_nil_r, find_all_in_unfold, p_remove_all, Ec. exact Hc.
Qed.

Lemma find_all_in_nil n : find_all_in p n = [] -> find_in p n = None.
Proof.
  induction n as [d | t a s l h cs IH] using Node_induction; simpl.
  - destruct (p (TextNode d)); [discriminate|reflexivity].
  - destruct (p (Element t a s l h cs)); [discriminate|]. simpl.
    induction IH as [|c cs Hc _ IHcs]; simpl; [reflexivity|].
    intros H. apply app_eq_nil in H as [H1 H2]. rewrite (Hc H1). exact (IHcs H2).
Qed.

Lemma querySelectorAll_nil n : querySelectorAll p n = [] -> querySelector p n = None.
Proof.
  unfold querySelectorAll, querySelector.
  induction (children n) as [|c cs IHcs]; simpl; [reflexivity|].
  intros H. apply app_eq_nil in H as [H1 H2]. rewrite (find_all_in_nil _ H1). exact (IHcs H2).
Qed.

Lemma querySelector_remove_all n : querySelector p (remove_all p n) = None.
Proof. apply querySelectorAll_nil, remove_all_no_match. Qed.

(** Where nothing satisfies the selector there is nothing to remove. *)
Lemma remove_all_nothing n : querySelectorAll p n = [] -> remove_all p n = n.
Proof.
  induction n as [d | t a s l h cs IH] using Node_induction; [reflexivity|].
  unfold querySelectorAll. simpl. intros H. f_equal.
  induction IH as [|c cs Hc _ IHcs]; simpl in *; [reflexivity|].
  apply app_eq_nil in H as [H1 H2].
  destruct c as [d' | t' a' s' l' h' cs']; simpl in *.
  - destruct (p (TextNode d')); [discriminate|]. simpl. rewrite (IHcs H2). reflexivity.
  - destruct (p (Element t' a' s' l' h' cs')); [discriminate|]. simpl in *.
    rewrite (IHcs H2). f_equal. apply Hc, H1.
Qed.

Lemma remove_all_idem n : remove_all p (remove_all p n) = remove_all p n.
Proof. apply remove_all_nothing, remove_all_no_match. Qed.

(** Removing again after matching nodes were appended. *)
Lemma remove_all_appended n news :
  Forall (fun c => p c = true) news ->
  remove_all p (set_children (children (remove_all p n) ++ news) (remove_all p n))
  = remove_all p n.
Proof.
  intros Hnews. pose proof (remove_all_idem n) as Hidem.
  rewrite remove_all_children in Hidem |- *.
  destruct (remove_all p n) as [d | t a s l h cs]; [reflexivity|]. simpl in *.
  rewrite flat_map_app.
  assert (Hempty : flat_map (fun c => if p c then [] else [remove_all p c]) news = []).
  { induction Hnews as [|c news Hc _ IHnews]; simpl; [reflexivity|]. rewrite Hc. exact IHnews. }
  rewrite Hempty, app_nil_r. exact Hidem.
Qed.

(** The first match after matching nodes were appended is the first of
    them. *)
Lemma querySelector_appended n c news :
  p c = true ->
  querySelector p (set_children (children (remove_all p n) ++ c :: news) (remove_all p n))
  = match n with TextNode _ => None | _ => Some c end.
Proof.
  intros Hc. pose proof (querySelector_remove_all n) as Hnone.
  unfold querySelector in *. rewrite children_set_children.
  destruct n as [d | t a s l h cs]; [reflexivity|].
  change (remove_all p (Element t a s l h cs))
    with (Element t a s l h (flat_map (fun c => if p c then [] else [remove_all p c]) cs)) in *.
  simpl in Hnone. simpl. rewrite first_some_app, Hnone. simpl.
  destruct c; simpl; rewrite Hc; reflexivity.
Qed.
End Removal.

(** ** The list reconciler *)

Lemma is_list_item_local cs n :
  PreviewRuntime.is_list_item (set_children cs n) = PreviewRuntime.is_list_item n.
Proof. apply has_attr_local. Qed.

(** The container after a reconciliation: what was left by the removal,
    followed by one filled copy of the template per entry. *)
Lemma reconcileList_unfold items listEl templateItem :
  querySelector PreviewRuntime.is_list_item listEl = Some templateItem ->
  PreviewRuntime.reconcileList items listEl
  = set_children
      (children (remove_all PreviewRuntime.is_list_item listEl)
       ++ map (PreviewRuntime.fillItem (cloneNode (cloneNode templateItem))) items)
      (remove_all PreviewRuntime.is_list_item listEl).
Proof.
  intros H. unfold PreviewRuntime.reconcileList. rewrite H.
  apply (fold_appendChild (PreviewRuntime.fillItem (cloneNode (cloneNode templateItem)))).
Qed.

Lemma reconcileList_no_template items listEl :
  querySelector PreviewRuntime.is_list_item listEl = None ->
  PreviewRuntime.reconcileList items listEl = listEl.
Proof. intros H. unfold PreviewRuntime.reconcileList. rewrite H. reflexivity. Qed.

Lemma reconcileList_nil listEl templateItem :
  querySelector PreviewRuntime.is_list_item listEl = Some templateItem ->
  PreviewRuntime.reconcileList [] listEl = remove_all PreviewRuntime.is_list_item listEl.
Proof.
  intros H. rewrite (reconcileList_unfold _ _ _ H). simpl.
  rewrite app_nil_r. apply set_children_same.
Qed.

(** C2 (as stated) fails: an editor that empties the list of a section
    and then sends one entry finds the list still empty, although the
    same entry sent to the original page renders one item titled
    ["Fresh"]. *)
Lemma emptied_list_stays_empty :
  length (itemNodes featureList) = 2%nat
  /\ flat_map itemNodes
       (option_list
          (doc_querySelector (PreviewRuntime.is_list "features")
             (PreviewRuntime.document
                (PreviewRuntime.run editor
                   [fieldUpdateFrom "https://admin.example" "features" "features" (JArr []);
                    fieldUpdateFrom "https://admin.example" "features" "features"
                      (JArr [JObj [("title", JStr "Fresh")]])]
                   (PreviewRuntime.load editor (Some "true") featurePage)))))
     = []
  /\ map textContent
       (flat_map itemNodes
          (option_list
             (doc_querySelector (PreviewRuntime.is_list "features")
                (PreviewRuntime.document
                   (PreviewRuntime.run editor
                      [fieldUpdateFrom "https://admin.example" "features" "features"
                         (JArr [JObj [("title", JStr "Fresh")]])]
                      (PreviewRuntime.load editor (Some "true") featurePage))))))
     = ["FreshBuilt for speed"]
  /\ itemNodes
       (PreviewRuntime.reconcileList [JObj [("title", JStr "Fresh")]]
          (PreviewRuntime.reconcileList [] featureList))
     = [].
Proof. repeat split; vm_compute; reflexivity. Qed.

(** C2 (amended) — Reconciling a list container that has at least one
    item node with an empty sequence leaves no item node in it; the
    container itself survives with its tag, attributes, style and its
    other children, but no template is kept: the container holds no item
    to copy, and every later reconciliation of it, whatever the entries,
    leaves it as it is. *)
Theorem empty_reconcile_clears_list (listEl templateItem : Node) :
  querySelector PreviewRuntime.is_list_item listEl = Some templateItem ->
  itemNodes (PreviewRuntime.reconcileList [] listEl) = []
  /\ tagOf (PreviewRuntime.reconcileList [] listEl) = tagOf listEl
  /\ attrsOf (PreviewRuntime.reconcileList [] listEl) = attrsOf listEl
  /\ styleOf (PreviewRuntime.reconcileList [] listEl) = styleOf listEl
  /\ PreviewRuntime.reconcileList [] listEl
     = remove_all PreviewRuntime.is_list_item listEl
  /\ querySelector PreviewRuntime.is_list_item (PreviewRuntime.reconcileList [] listEl) = None
  /\ forall items,
       PreviewRuntime.reconcileList items (PreviewRuntime.reconcileList [] listEl)
       = PreviewRuntime.reconcileList [] listEl.
Proof.
  intros H. rewrite (reconcileList_nil _ _ H).
  pose proof (querySelector_remove_all _ is_list_item_local listEl) as Hnone.
  split; [apply remove_all_no_match, is_list_item_local|].
  split; [destruct listEl; reflexivity|].
  split; [destruct listEl; reflexivity|].
  split; [destruct listEl; reflexivity|].
  split; [reflexivity|]. split; [exact Hnone|].
  intros items. apply reconcileList_no_template, Hnone.
Qed.

Lemma empty_reconcile_clears_list_witness :
  querySelector PreviewRuntime.is_list_item featureList
  = Some (featureItem "Fast" "Built for speed")
  /\ itemNodes (PreviewRuntime.reconcileList [] featureList) = []
  /\ PreviewRuntime.reconcileList [JStr "Fresh"] (PreviewRuntime.reconcileList [] featureList)
     = PreviewRuntime.reconcileList [] featureList.
Proof.
  assert (H : querySelector PreviewRuntime.is_list_item featureList
              = Some (featureItem "Fast" "Built for speed")) by (vm_compute; reflexivity).
  split; [exact H|].
  destruct (empty_reconcile_clears_list featureList _ H) as (H1 & _ & _ & _ & _ & _ & H2).
  split; [exact H1|apply H2].
Defined.

(** ** Copies of the template *)

Lemma cloneNode_idem n : cloneNode (cloneNode n) = cloneNode n.
Proof.
  induction n as [d | t a s l h cs IH] using Node_induction; simpl; [reflexivity|].
  f_equal. rewrite map_map. apply map_ext_Forall. exact IH.
Qed.

Lemma modify_list_map {A} (c : A -> A) (g : A -> option A) (l : list A) :
  Forall (fun x => g (c x) = c <$> g x) l ->
  modify_list g (map c l) = map c <$> modify_list g l.
Proof.
  induction 1 as [|x l Hx _ IH]; simpl; [reflexivity|].
  rewrite Hx, IH. destruct (g x); simpl; [reflexivity|].
  destruct (modify_list g l); reflexivity.
Qed.

Section CloneCommutes.
Variable p : Node -> bool.
Variable f : Node -> Node.
Hypothesis p_clone : forall x, p (cloneNode x) = p x.
Hypothesis f_clone : forall x, f (cloneNode x) = cloneNode (f x).

Lemma modify_in_cloneNode n : modify_in p f (cloneNode n) = cloneNode <$> modify_in p f n.
Proof.
  induction n as [d | t a s l h cs IH] using Node_induction.
  - simpl. destruct (p (TextNode d)); [|reflexivity]. simpl.
    rewrite <- f_clone. reflexivity.
  - pose proof (p_clone (Element t a s l h cs)) as Hp.
    pose proof (f_clone (Element t a s l h cs)) as Hf. simpl in *.
    rewrite Hp. destruct (p (Element t a s l h cs)); simpl; [rewrite Hf; reflexivity|].
    rewrite (modify_list_map cloneNode _ _ IH).
    destruct (modify_list (modify_in p f) cs); reflexivity.
Qed.

Lemma modify_first_cloneNode n :
  cloneNode (modify_first p f n) = modify_first p f (cloneNode n).
Proof.
  unfold modify_first. destruct n as [d | t a s l h cs]; [reflexivity|]. simpl.
  rewrite (modify_list_map cloneNode).
  - destruct (modify_list (modify_in p f) cs); reflexivity.
  - apply Forall_forall. intros c _. apply modify_in_cloneNode.
Qed.
End CloneCommutes.

Lemma attr_is_cloneNode a v x : attr_is a v (cloneNode x) = attr_is a v x.
Proof. destruct x; reflexivity. Qed.

Lemma has_attr_cloneNode a x : has_attr a (cloneNode x) = has_attr a x.
Proof. destruct x; reflexivity. Qed.

Lemma setTextContent_cloneNode v x :
  setTextContent v (cloneNode x) = cloneNode (setTextContent v x).
Proof. destruct x; [reflexivity|]. unfold setTextContent. simpl. case_bool_decide; reflexivity. Qed.

Lemma setAttribute_cloneNode a v x :
  setAttribute a v (cloneNode x) = cloneNode (setAttribute a v x).
Proof. destruct x; reflexivity. Qed.

Lemma tagOf_cloneNode x : tagOf (cloneNode x) = tagOf x.
Proof. destruct x; reflexivity. Qed.

Lemma tagOf_setTextContent v x : tagOf (setTextContent v x) = tagOf x.
Proof. destruct x; reflexivity. Qed.

Lemma writeItemField_cloneNode itemData value x :
  PreviewRuntime.writeItemField itemData value (cloneNode x)
  = cloneNode (PreviewRuntime.writeItemField itemData value x).
Proof.
  unfold PreviewRuntime.writeItemField. rewrite tagOf_cloneNode.
  repeat case_bool_decide; try apply setAttribute_cloneNode; try apply setTextContent_cloneNode.
  destruct (truthy _); rewrite setTextContent_cloneNode;
    [apply setAttribute_cloneNode|reflexivity].
Qed.

Lemma fold_left_commute {A} (c : Node -> Node) (g : Node -> A -> Node) (l : list A) n :
  (forall x a, c (g x a) = g (c x) a) -> c (fold_left g l n) = fold_left g l (c n).
Proof.
  intros H. revert n. induction l as [|a l IH]; intros n; simpl; [reflexivity|].
  rewrite IH, H. reflexivity.
Qed.

Lemma fillField_cloneNode itemData kv x :
  cloneNode (PreviewRuntime.fillField itemData x kv)
  = PreviewRuntime.fillField itemData (cloneNode x) kv.
Proof.
  unfold PreviewRuntime.fillField. destruct (isPlainObject (snd kv)).
  - apply fold_left_commute. intros y sub. apply modify_first_cloneNode.
    + intros z. apply attr_is_cloneNode.
    + intros z. apply setTextContent_cloneNode.
  - apply modify_first_cloneNode.
    + intros z. apply attr_is_cloneNode.
    + intros z. apply writeItemField_cloneNode.
Qed.

(** Filling a copy gives a copy: the filled item carries no listener. *)
Lemma fillItem_cloneNode itemData x :
  cloneNode (PreviewRuntime.fillItem x itemData)
  = PreviewRuntime.fillItem (cloneNode x) itemData.
Proof.
  unfold PreviewRuntime.fillItem. destruct (isPrimitive itemData).
  - apply modify_first_cloneNode.
    + intros z. apply has_attr_cloneNode.
    + intros z. apply setTextContent_cloneNode.
  - apply fold_left_commute. intros y kv. apply fillField_cloneNode.
Qed.

(** Filling an item writes below its root only. *)
Lemma modify_first_root p f n : exists cs, modify_first p f n = set_children cs n.
Proof.
  unfold modify_first. destruct (modify_list _ _) as [cs|]; [eauto|].
  exists (children n). symmetry. apply set_children_same.
Qed.

Lemma fold_left_root {A} (g : Node -> A -> Node) (l : list A) n :
  (forall x a, exists cs, g x a = set_children cs x) ->
  exists cs, fold_left g l n = set_children cs n.
Proof.
  intros H. revert n. induction l as [|a l IH]; intros n; simpl.
  - exists (children n). symmetry. apply set_children_same.
  - destruct (H n a) as [cs ->]. destruct (IH (set_children cs n)) as [cs' ->].
    exists cs'. apply set_children_twice.
Qed.

Lemma fillField_root itemData x kv :
  exists cs, PreviewRuntime.fillField itemData x kv = set_children cs x.
Proof.
  unfold PreviewRuntime.fillField. destruct (isPlainObject (snd kv)).
  - apply fold_left_root. intros y sub. apply modify_first_root.
  - apply modify_first_root.
Qed.

Lemma fillItem_root x itemData :
  exists cs, PreviewRuntime.fillItem x itemData = set_children cs x.
Proof.
  unfold PreviewRuntime.fillItem. destruct (isPrimitive itemData).
  - apply modify_first_root.
  - apply fold_left_root. intros y kv. apply fillField_root.
Qed.

Lemma is_list_item_fillItem x itemData :
  PreviewRuntime.is_list_item (PreviewRuntime.fillItem x itemData)
  = PreviewRuntime.is_list_item x.
Proof. destruct (fillItem_root x itemData) as [cs ->]. apply is_list_item_local. Qed.

(** The second reconciliation takes the first filled item as template. *)
Lemma reconcileList_twice i0 items listEl templateItem :
  querySelector PreviewRuntime.is_list_item listEl = Some templateItem ->
  PreviewRuntime.reconcileList (i0 :: items) (PreviewRuntime.reconcileList (i0 :: items) listEl)
  = set_children
      (children (remove_all PreviewRuntime.is_list_item listEl)
       ++ map (PreviewRuntime.fillItem
                 (PreviewRuntime.fillItem (cloneNode templateItem) i0)) (i0 :: items))
      (remove_all PreviewRuntime.is_list_item listEl).
Proof.
  intros H. rewrite (reconcileList_unfold (i0 :: items) _ _ H).
  rewrite cloneNode_idem. cbn [map].
  assert (Hitem : PreviewRuntime.is_list_item
                    (PreviewRuntime.fillItem (cloneNode templateItem) i0) = true).
  { rewrite is_list_item_fillItem. unfold PreviewRuntime.is_list_item.
    rewrite has_attr_cloneNode. apply (querySelector_sound _ _ _ H). }
  rewrite (reconcileList_unfold (i0 :: items) _
             (PreviewRuntime.fillItem (cloneNode templateItem) i0)).
  - rewrite (remove_all_appended _ is_list_item_local).
    + rewrite cloneNode_idem, fillItem_cloneNode, cloneNode_idem. reflexivity.
    + constructor; [exact Hitem|]. apply Forall_forall. intros c Hc.
      apply list_elem_of_In, in_map_iff in Hc as (i & <- & _).
      rewrite is_list_item_fillItem. unfold PreviewRuntime.is_list_item.
      rewrite has_attr_cloneNode. apply (querySelector_sound _ _ _ H).
  - rewrite (querySelector_appended _ is_list_item_local _ _ _ Hitem).
    destruct listEl; [discriminate|reflexivity].
Qed.

(** The criterion: a second reconciliation with the same entries changes
    nothing exactly when filling the first filled item gives what filling
    the template gives. *)
Lemma reconcileList_idempotent_iff items listEl :
  PreviewRuntime.reconcileList items (PreviewRuntime.reconcileList items listEl)
  = PreviewRuntime.reconcileList items listEl
  <-> forall templateItem i0 rest,
        querySelector PreviewRuntime.is_list_item listEl = Some templateItem ->
        items = i0 :: rest ->
        Forall (fun i =>
                  PreviewRuntime.fillItem (PreviewRuntime.fillItem (cloneNode templateItem) i0) i
                  = PreviewRuntime.fillItem (cloneNode templateItem) i) items.
Proof.
  destruct (querySelector PreviewRuntime.is_list_item listEl) as [T|] eqn:HT.
  - destruct items as [|i0 rest].
    + split; [intros _ T' i0 rest _ Hnil; discriminate|]. intros _.
      rewrite (reconcileList_nil _ _ HT).
      apply reconcileList_no_template, querySelector_remove_all, is_list_item_local.
    + rewrite (reconcileList_twice _ _ _ _ HT), (reconcileList_unfold _ _ _ HT).
      rewrite cloneNode_idem. split.
      * intros Heq T' i0' rest' [= <-] [= <- <-].
        assert (Hel : exists t a s l h cs, listEl = Element t a s l h cs)
          by (destruct listEl; [discriminate|eauto 10]).
        destruct Hel as (t & a & s & l & h & cs & ->). simpl in Heq.
        injection Heq as Heq. apply app_inv_head in Heq.
        apply Forall_forall. intros i Hi.
        apply list_elem_of_In in Hi.
        assert (Hmap : forall l', 
                   map (PreviewRuntime.fillItem
                          (PreviewRuntime.fillItem (cloneNode T) i0)) l'
                   = map (PreviewRuntime.fillItem (cloneNode T)) l' ->
                   In i l' ->
                   PreviewRuntime.fillItem (PreviewRuntime.fillItem (cloneNode T) i0) i
                   = PreviewRuntime.fillItem (cloneNode T) i).
        { induction l' as [|x l' IH]; simpl; [intros _ []|].
          intros [= Hx Hl'] [<- | Hin]; [exact Hx|exact (IH Hl' Hin)]. }
        exact (Hmap (i0 :: rest) Heq Hi).
      * intros Hall. f_equal. f_equal. apply map_ext_Forall.
        exact (Hall T i0 rest eq_refl eq_refl).
  - rewrite !(reconcileList_no_template _ _ HT). split; [|reflexivity].
    intros _ T' i0 rest [=].
Qed.

(** ** Writes at the first match, as functions on the tree *)

Section Modified.
Variable p : Node -> bool.
Variable f : Node -> Node.

Lemma modified_match n : p n = true -> modified p f n = f n.
Proof. intros H. unfold modified. destruct n; simpl; rewrite H; reflexivity. Qed.

Lemma modified_Element t a s l h cs :
  p (Element t a s l h cs) = false ->
  modified p f (Element t a s l h cs) = Element t a s l h (modified_list p f cs).
Proof.
  intros H. unfold modified, modified_list. simpl. rewrite H.
  destruct (modify_list _ cs); reflexivity.
Qed.

Lemma modified_TextNode d : p (TextNode d) = false -> modified p f (TextNode d) = TextNode d.
Proof. intros H. unfold modified. simpl. rewrite H. reflexivity. Qed.

Lemma modified_not_found n : found p n = false -> modified p f n = n.
Proof.
  unfold found, modified. destruct (find_in p n) eqn:E; [discriminate|]. intros _.
  apply (proj2 (modify_in_found p f n)) in E. rewrite E. reflexivity.
Qed.

Lemma modified_list_cons c cs :
  modified_list p f (c :: cs)
  = if found p c then modified p f c :: cs else c :: modified_list p f cs.
Proof.
  unfold modified_list, modified, found. simpl.
  destruct (modify_in p f c) eqn:Em.
  - destruct (find_in p c) eqn:Ef; [reflexivity|].
    apply (proj2 (modify_in_found p f c)) in Ef. congruence.
  - apply modify_in_found in Em. rewrite Em.
    destruct (modify_list _ cs); reflexivity.
Qed.

Lemma modified_list_not_found cs : found_list p cs = false -> modified_list p f cs = cs.
Proof.
  induction cs as [|c cs IH]; [reflexivity|].
  unfold found_list. simpl. rewrite modified_list_cons. unfold found.
  destruct (find_in p c); [discriminate|]. intros H. rewrite IH; [reflexivity|exact H].
Qed.

Lemma found_list_cons c cs : found_list p (c :: cs) = found p c || found_list p cs.
Proof. unfold found_list, found. simpl. destruct (find_in p c); reflexivity. Qed.

Lemma found_unfold n : found p n = p n || found_list p (children n).
Proof. unfold found, found_list. destruct n; simpl; destruct (p _); reflexivity. Qed.

Lemma modify_first_modified n :
  modify_first p f n = set_children (modified_list p f (children n)) n.
Proof.
  unfold modify_first, modified_list.
  destruct (modify_list _ _); [reflexivity|]. symmetry. apply set_children_same.
Qed.

Lemma doc_modify_first_modified doc : doc_modify_first p f doc = modified p f doc.
Proof. reflexivity. Qed.
End Modified.

(** Two writes at the same selector amount to one. *)
Section Absorption.
Variable p : Node -> bool.
Variables f g : Node -> Node.
Hypothesis f_keeps_p : forall x, p x = true -> p (f x) = true.
Hypothesis p_local : forall cs n, p (set_children cs n) = p n.

Lemma modified_twice n :
  modified p g (modified p f n) = modified p (fun x => g (f x)) n.
Proof.
  induction n as [d | t a s l h cs IH] using Node_induction.
  - destruct (p (TextNode d)) eqn:E.
    + rewrite (modified_match p f _ E), (modified_match p _ _ E).
      apply modified_match, f_keeps_p, E.
    + rewrite !modified_TextNode by exact E. reflexivity.
  - destruct (p (Element t a s l h cs)) eqn:E.
    + rewrite (modified_match p f _ E), (modified_match p _ _ E).
      apply modified_match, f_keeps_p, E.
    + rewrite (modified_Element p f), (modified_Element p (fun x => g (f x))) by exact E.
      rewrite modified_Element.
      * f_equal. clear E.
        induction IH as [|c cs Hc _ IHcs]; [reflexivity|].
        rewrite (modified_list_cons p f), (modified_list_cons p (fun x => g (f x))).
        destruct (found p c) eqn:Ec.
        -- rewrite modified_list_cons.
           assert (Hf : found p (modified p f c) = true).
           { unfold found, modified. unfold found in Ec.
             destruct (modify_in p f c) as [c'|] eqn:Em.
             - simpl. rewrite (find_in_modify_in p f f_keeps_p p_local _ _ Em).
               destruct (find_in p c); [reflexivity|discriminate].
             - simpl. destruct (find_in p c); [reflexivity|discriminate]. }
           rewrite Hf, Hc. reflexivity.
        -- rewrite modified_list_cons, Ec, IHcs. reflexivity.
      * pose proof (p_local (modified_list p f cs) (Element t a s l h cs)) as Hp.
        simpl in Hp. rewrite Hp. exact E.
Qed.

Lemma modify_first_twice n :
  modify_first p g (modify_first p f n) = modify_first p (fun x => g (f x)) n.
Proof.
  rewrite !modify_first_modified. rewrite children_set_children, set_children_twice.
  destruct n as [d | t a s l h cs]; [reflexivity|]. simpl. f_equal.
  induction cs as [|c cs IHcs]; [reflexivity|].
  rewrite (modified_list_cons p f), (modified_list_cons p (fun x => g (f x))).
  destruct (found p c) eqn:Ec.
  - rewrite modified_list_cons.
    assert (Hf : found p (modified p f c) = true).
    { unfold found, modified. unfold found in Ec.
      destruct (modify_in p f c) as [c'|] eqn:Em.
      - simpl. rewrite (find_in_modify_in p f f_keeps_p p_local _ _ Em).
        destruct (find_in p c); [reflexivity|discriminate].
      - simpl. destruct (find_in p c); [reflexivity|discriminate]. }
    rewrite Hf, modified_twice. reflexivity.
  - rewrite modified_list_cons, Ec, IHcs. reflexivity.
Qed.
End Absorption.

Lemma setTextContent_twice u v x : setTextContent v (setTextContent u x) = setTextContent v x.
Proof. destruct x; reflexivity. Qed.

Lemma has_attr_setTextContent a v x : has_attr a (setTextContent v x) = has_attr a x.
Proof. destruct x; reflexivity. Qed.

(** Scalar entries: the second fill overwrites the first. *)
Lemma fillItem_primitive_twice a b x :
  isPrimitive a = true -> isPrimitive b = true ->
  PreviewRuntime.fillItem (PreviewRuntime.fillItem x a) b = PreviewRuntime.fillItem x b.
Proof.
  intros Ha Hb. unfold PreviewRuntime.fillItem. rewrite Ha, Hb.
  rewrite modify_first_twice.
  - apply modify_first_ext. intros y _. apply setTextContent_twice.
  - intros y Hy. rewrite has_attr_setTextContent. exact Hy.
  - intros cs n. apply has_attr_local.
Qed.

(** ** Writes on a template whose field nodes are not nested *)

Lemma found_list_false_mono (p q : Node -> bool) :
  (forall x, p x = true -> q x = true) ->
  forall cs, found_list q cs = false -> found_list p cs = false.
Proof.
  intros Hpq.
  assert (Hnode : forall n, found q n = false -> found p n = false).
  { induction n as [d | t a s l h cs IH] using Node_induction; rewrite !found_unfold; simpl.
    - destruct (p (TextNode d)) eqn:E; [rewrite (Hpq _ E); discriminate|]. reflexivity.
    - destruct (p (Element t a s l h cs)) eqn:E; [rewrite (Hpq _ E); discriminate|].
      destruct (q (Element t a s l h cs)); [discriminate|]. simpl. clear E.
      induction IH as [|c cs Hc _ IHcs]; [reflexivity|].
      rewrite !found_list_cons. intros H. apply orb_false_iff in H as [H1 H2].
      rewrite (Hc H1), (IHcs H2). reflexivity. }
  induction cs as [|c cs IH]; [reflexivity|].
  rewrite !found_list_cons. intros H. apply orb_false_iff in H as [H1 H2].
  rewrite (Hnode _ H1), (IH H2). reflexivity.
Qed.

Lemma is_field_tagged k x : PreviewRuntime.is_field k x = true -> tagged x = true.
Proof.
  unfold PreviewRuntime.is_field, attr_is, tagged, has_attr. intros H.
  apply bool_decide_eq_true in H. rewrite H. reflexivity.
Qed.

Lemma is_field_disjoint k k' x :
  k <> k' -> PreviewRuntime.is_field k' x = true -> PreviewRuntime.is_field k x = false.
Proof.
  unfold PreviewRuntime.is_field, attr_is. intros Hne H.
  apply bool_decide_eq_true in H. apply bool_decide_eq_false. congruence.
Qed.

Lemma found_list_text p cs :
  (forall d, p (TextNode d) = false) -> forallb isText cs = true -> found_list p cs = false.
Proof.
  intros Hp. induction cs as [|c cs IH]; [reflexivity|]. simpl. intros H.
  apply andb_true_iff in H as [H1 H2]. rewrite found_list_cons, (IH H2).
  destruct c as [d|]; [|discriminate]. rewrite found_unfold, Hp. reflexivity.
Qed.

Lemma flatFields_text cs : forallb isText cs = true -> forallb flatFields cs = true.
Proof.
  induction cs as [|c cs IH]; [reflexivity|]. simpl. intros H.
  apply andb_true_iff in H as [H1 H2]. rewrite (IH H2). destruct c; [reflexivity|discriminate].
Qed.

Lemma flatFields_Element t a s l h cs :
  flatFields (Element t a s l h cs) = true
  <-> (tagged (Element t a s l h cs) = true -> found_list tagged cs = false)
      /\ forallb flatFields cs = true.
Proof.
  simpl. unfold fieldFree. simpl. rewrite andb_true_iff, orb_true_iff, !negb_true_iff.
  split; intros [H1 H2]; (split; [|exact H2]).
  - intros Ht. destruct H1 as [H1 | H1]; [congruence|exact H1].
  - destruct (tagged (Element t a s l h cs)); [right; apply H1; reflexivity|left; reflexivity].
Qed.

Section OneWrite.
Import PreviewRuntime.
Variables k k' : string.
Variable g : Node -> Node.
Hypothesis k_ne : k <> k'.
Hypothesis g_writer : writer g.

Lemma writer_is_field j x : is_field j (g x) = is_field j x.
Proof.
  unfold is_field, attr_is.
  rewrite (proj1 (g_writer x) "data-dr-field") by discriminate. reflexivity.
Qed.

Lemma writer_tagged x : tagged (g x) = tagged x.
Proof.
  unfold tagged, has_attr.
  rewrite (proj1 (g_writer x) "data-dr-field") by discriminate. reflexivity.
Qed.

Lemma writer_children_free (r : Node -> bool) x :
  (forall d, r (TextNode d) = false) ->
  found_list r (children x) = false -> found_list r (children (g x)) = false.
Proof.
  intros Hr H. destruct (proj2 (g_writer x)) as [-> | Ht]; [exact H|].
  apply found_list_text; assumption.
Qed.

(** A write at [k'] does not change whether [k] is found. *)
Lemma found_modified_list cs :
  Forall (fun c => flatFields c = true ->
                   found (is_field k) (modified (is_field k') g c) = found (is_field k) c) cs ->
  forallb flatFields cs = true ->
  found_list (is_field k) (modified_list (is_field k') g cs) = found_list (is_field k) cs.
Proof.
  induction 1 as [|c cs Hc _ IH]; [reflexivity|]. simpl. intros Hflat.
  apply andb_true_iff in Hflat as [Hflat1 Hflat2].
  rewrite modified_list_cons. destruct (found (is_field k') c).
  - rewrite !found_list_cons, (Hc Hflat1). reflexivity.
  - rewrite !found_list_cons, (IH Hflat2). reflexivity.
Qed.

Lemma found_modified n :
  flatFields n = true -> found (is_field k) (modified (is_field k') g n) = found (is_field k) n.
Proof.
  induction n as [d | t a s l h cs IH] using Node_induction; intros Hflat.
  - rewrite modified_TextNode; reflexivity.
  - apply flatFields_Element in Hflat as [Hfree Hflat].
    destruct (is_field k' (Element t a s l h cs)) eqn:Eq.
    + rewrite (modified_match (is_field k') g _ Eq), !found_unfold.
      pose proof (is_field_tagged _ _ Eq) as Ht.
      pose proof (found_list_false_mono (is_field k) tagged (is_field_tagged k) _ (Hfree Ht)) as Hp.
      rewrite writer_is_field, (is_field_disjoint k k' _ k_ne Eq).
      simpl in *. rewrite Hp. apply writer_children_free; [reflexivity|exact Hp].
    + rewrite (modified_Element (is_field k') g _ _ _ _ _ _ Eq), !found_unfold. simpl.
      change (is_field k (Element t a s l h (modified_list (is_field k') g cs)))
        with (is_field k (Element t a s l h cs)).
      rewrite (found_modified_list cs IH Hflat). reflexivity.
Qed.

(** A write keeps the field nodes apart. *)
Lemma flatFields_modified_list cs :
  Forall (fun c => flatFields c = true -> flatFields (modified (is_field k') g c) = true) cs ->
  forallb flatFields cs = true ->
  forallb flatFields (modified_list (is_field k') g cs) = true.
Proof.
  induction 1 as [|c cs Hc _ IH]; [reflexivity|]. simpl. intros Hflat.
  apply andb_true_iff in Hflat as [Hflat1 Hflat2].
  rewrite modified_list_cons. destruct (found (is_field k') c); simpl.
  - rewrite (Hc Hflat1), Hflat2. reflexivity.
  - rewrite Hflat1, (IH Hflat2). reflexivity.
Qed.

Lemma flatFields_modified n :
  flatFields n = true -> flatFields (modified (is_field k') g n) = true.
Proof.
  induction n as [d | t a s l h cs IH] using Node_induction; intros Hflat.
  - rewrite modified_TextNode; reflexivity.
  - pose proof Hflat as Hflat0.
    apply flatFields_Element in Hflat as [Hfree Hflat].
    destruct (is_field k' (Element t a s l h cs)) eqn:Eq.
    + rewrite (modified_match (is_field k') g _ Eq).
      pose proof (is_field_tagged _ _ Eq) as Ht.
      pose proof (writer_tagged (Element t a s l h cs)) as Ht'.
      pose proof (writer_children_free tagged (Element t a s l h cs)
                    (fun d => eq_refl) (Hfree Ht)) as Hfree'.
      destruct (proj2 (g_writer (Element t a s l h cs))) as [Hsame | Htext];
        destruct (g (Element t a s l h cs)) as [d' | t' a' s' l' h' cs']; try reflexivity;
        apply flatFields_Element; (split; [intros _; exact Hfree'|]).
      * simpl in Hsame. subst cs'. exact Hflat.
      * apply flatFields_text, Htext.
    + rewrite (modified_Element (is_field k') g _ _ _ _ _ _ Eq). apply flatFields_Element. split.
      * change (tagged (Element t a s l h (modified_list (is_field k') g cs)))
          with (tagged (Element t a s l h cs)).
        intros Ht. rewrite modified_list_not_found; [exact (Hfree Ht)|].
        apply (found_list_false_mono (is_field k') tagged (is_field_tagged k')), Hfree, Ht.
      * apply flatFields_modified_list; assumption.
Qed.
End OneWrite.

Section TwoWrites.
Import PreviewRuntime.
Variables k k' : string.
Variables f g : Node -> Node.
Hypothesis k_ne : k <> k'.
Hypothesis f_writer : writer f.
Hypothesis g_writer : writer g.

Lemma k_ne_sym : k' <> k.
Proof. congruence. Qed.

Lemma modified_commute_list cs :
  Forall (fun c => flatFields c = true ->
                   modified (is_field k) f (modified (is_field k') g c)
                   = modified (is_field k') g (modified (is_field k) f c)) cs ->
  forallb flatFields cs = true ->
  modified_list (is_field k) f (modified_list (is_field k') g cs)
  = modified_list (is_field k') g (modified_list (is_field k) f cs).
Proof.
  induction 1 as [|c cs Hc _ IH]; [reflexivity|]. simpl. intros Hflat.
  apply andb_true_iff in Hflat as [Hflat1 Hflat2].
  rewrite (modified_list_cons (is_field k') g), (modified_list_cons (is_field k) f).
  pose proof (found_modified k k' g k_ne g_writer c Hflat1) as Hp.
  pose proof (found_modified k' k f k_ne_sym f_writer c Hflat1) as Hq.
  destruct (found (is_field k) c) eqn:Ep, (found (is_field k') c) eqn:Eq;
    rewrite (modified_list_cons (is_field k) f), (modified_list_cons (is_field k') g).
  - rewrite Hp, Hq, (Hc Hflat1). reflexivity.
  - rewrite Ep, Hq. reflexivity.
  - rewrite Hp, Eq. reflexivity.
  - rewrite Ep, Eq, (IH Hflat2). reflexivity.
Qed.

(** Writes at different addresses commute. *)
Lemma modified_commute n :
  flatFields n = true ->
  modified (is_field k) f (modified (is_field k') g n)
  = modified (is_field k') g (modified (is_field k) f n).
Proof.
  induction n as [d | t a s l h cs IH] using Node_induction; intros Hflat.
  - rewrite !modified_TextNode; reflexivity.
  - apply flatFields_Element in Hflat as [Hfree Hflat].
    destruct (is_field k (Element t a s l h cs)) eqn:Ep,
             (is_field k' (Element t a s l h cs)) eqn:Eq.
    + rewrite (is_field_disjoint k k' _ k_ne Eq) in Ep. discriminate.
    + pose proof (Hfree (is_field_tagged _ _ Ep)) as Hnone.
      rewrite (modified_Element _ g _ _ _ _ _ _ Eq).
      rewrite (modified_list_not_found _ g cs)
        by (apply (found_list_false_mono _ tagged (is_field_tagged k')), Hnone).
      rewrite (modified_match _ f _ Ep). symmetry. apply modified_not_found.
      rewrite found_unfold.
      rewrite (writer_is_field f f_writer), Eq. simpl.
      apply (writer_children_free f f_writer); [reflexivity|].
      apply (found_list_false_mono _ tagged (is_field_tagged k')), Hnone.
    + pose proof (Hfree (is_field_tagged _ _ Eq)) as Hnone.
      rewrite (modified_Element _ f _ _ _ _ _ _ Ep).
      rewrite (modified_list_not_found _ f cs)
        by (apply (found_list_false_mono _ tagged (is_field_tagged k)), Hnone).
      rewrite (modified_match _ g _ Eq). apply modified_not_found.
      rewrite found_unfold.
      rewrite (writer_is_field g g_writer), Ep. simpl.
      apply (writer_children_free g g_writer); [reflexivity|].
      apply (found_list_false_mono _ tagged (is_field_tagged k)), Hnone.
    + rewrite (modified_Element _ g _ _ _ _ _ _ Eq), (modified_Element _ f _ _ _ _ _ _ Ep).
      rewrite !modified_Element by assumption.
      f_equal. apply modified_commute_list; assumption.
Qed.

Lemma modify_first_commute T :
  flatTemplate T = true ->
  modify_first (is_field k) f (modify_first (is_field k') g T)
  = modify_first (is_field k') g (modify_first (is_field k) f T).
Proof.
  intros Hflat. rewrite !modify_first_modified.
  destruct T as [d | t a s l h cs]; [reflexivity|]. simpl. f_equal.
  apply modified_commute_list; [|exact Hflat].
  apply Forall_forall. intros c _. apply modified_commute.
Qed.
End TwoWrites.

Lemma flatTemplate_modify_first k g T :
  writer g -> flatTemplate T = true ->
  flatTemplate (modify_first (PreviewRuntime.is_field k) g T) = true.
Proof.
  intros Hg Hflat. rewrite modify_first_modified.
  destruct T as [d | t a s l h cs]; [reflexivity|]. unfold flatTemplate in *. simpl in *.
  apply flatFields_modified_list; [|exact Hflat].
  apply Forall_forall. intros c _. apply flatFields_modified, Hg.
Qed.

(** ** Filling an item twice *)

Lemma writer_setTextContent v : writer (setTextContent v).
Proof.
  intros x. destruct x as [d | t a s l h cs]; simpl; [auto|]. split; [reflexivity|].
  right. case_bool_decide; reflexivity.
Qed.

Lemma writer_setAttribute a v : a = "src" \/ a = "href" -> writer (setAttribute a v).
Proof.
  intros Ha x. destruct x as [d | t at_ s l h cs]; simpl; [auto|].
  split; [|auto]. intros b Hsrc Hhref. apply lookup_insert_ne.
  destruct Ha; congruence.
Qed.

Lemma writer_compose f g : writer f -> writer g -> writer (fun x => g (f x)).
Proof.
  intros Hf Hg x. destruct (Hf x) as [Hf1 Hf2], (Hg (f x)) as [Hg1 Hg2].
  split; [intros a Hsrc Hhref; rewrite Hg1, Hf1 by assumption; reflexivity|].
  destruct Hg2 as [Hg2 | Hg2]; [|right; exact Hg2].
  rewrite Hg2. exact Hf2.
Qed.

Lemma writer_writeItemField itemData value :
  writer (PreviewRuntime.writeItemField itemData value).
Proof.
  intros x. unfold PreviewRuntime.writeItemField.
  case_bool_decide; [apply writer_setAttribute; auto|].
  case_bool_decide; [|apply writer_setTextContent].
  destruct (truthy _); [|apply writer_setTextContent].
  apply (writer_compose (setTextContent _) (setAttribute "href" _)).
  - apply writer_setTextContent.
  - apply writer_setAttribute. auto.
Qed.

Lemma setAttribute_twice a u v x : setAttribute a v (setAttribute a u x) = setAttribute a v x.
Proof. destruct x; simpl; [reflexivity|]. rewrite insert_insert_eq. reflexivity. Qed.

Lemma setTextContent_setAttribute a u v x :
  setTextContent v (setAttribute a u x) = setAttribute a u (setTextContent v x).
Proof. destruct x; reflexivity. Qed.

Lemma tagOf_setAttribute a v x : tagOf (setAttribute a v x) = tagOf x.
Proof. destruct x; reflexivity. Qed.

Lemma tagOf_writeItemField itemData value x :
  tagOf (PreviewRuntime.writeItemField itemData value x) = tagOf x.
Proof.
  unfold PreviewRuntime.writeItemField.
  repeat case_bool_decide; try destruct (truthy _);
    rewrite ?tagOf_setAttribute, ?tagOf_setTextContent; reflexivity.
Qed.

(** On the same node the later write of an entry hides the earlier one,
    provided the later entry sets the link target whenever the earlier
    one did. *)
Lemma writeItemField_twice first v0 item v x :
  (truthy (js_prop first "href") = true -> truthy (js_prop item "href") = true) ->
  PreviewRuntime.writeItemField item v (PreviewRuntime.writeItemField first v0 x)
  = PreviewRuntime.writeItemField item v x.
Proof.
  intros Hhref. unfold PreviewRuntime.writeItemField at 1 3.
  rewrite tagOf_writeItemField. unfold PreviewRuntime.writeItemField.
  case_bool_decide; [apply setAttribute_twice|].
  case_bool_decide; [|apply setTextContent_twice].
  destruct (truthy (js_prop first "href")).
  - rewrite (Hhref eq_refl), setTextContent_setAttribute, setTextContent_twice.
    apply setAttribute_twice.
  - rewrite setTextContent_twice. reflexivity.
Qed.

Lemma fold_left_ext_Forall {A} (g g' : Node -> A -> Node) (l : list A) n :
  Forall (fun a => forall x, g x a = g' x a) l -> fold_left g l n = fold_left g' l n.
Proof.
  intros H. revert n. induction H as [|a l Ha _ IH]; intros n; simpl; [reflexivity|].
  rewrite Ha. apply IH.
Qed.

(** Filling from a flat record: one write per entry. *)
Lemma fillItem_flatRecord x r :
  flatRecord r = true ->
  PreviewRuntime.fillItem x r
  = fold_left (fun n kv =>
                 modify_first (PreviewRuntime.is_field (fst kv))
                              (PreviewRuntime.writeItemField r (snd kv)) n)
              (entries r) x.
Proof.
  unfold flatRecord, PreviewRuntime.fillItem. intros H.
  apply andb_true_iff in H as [Hnp Hflat]. apply negb_true_iff in Hnp. rewrite Hnp.
  apply fold_left_ext_Forall. apply Forall_forall. intros kv Hin y.
  apply list_elem_of_In in Hin.
  pose proof (proj1 (forallb_forall _ _) Hflat kv Hin) as Hkv.
  unfold PreviewRuntime.fillField. apply negb_true_iff in Hkv. rewrite Hkv. reflexivity.
Qed.

Section Refill.
Variables first item : JsValue.
Hypothesis href_covered :
  truthy (js_prop first "href") = true -> truthy (js_prop item "href") = true.

(** A writeEntry of the first entry disappears under the writes of an entry
    that has the same key. *)
Lemma fold_absorbs es k v0 X :
  flatTemplate X = true -> k ∈ map fst es ->
  fold_left (writeEntry item) es (writeEntry first X (k, v0)) = fold_left (writeEntry item) es X.
Proof.
  revert X. induction es as [|[k1 v1] es IH]; intros X Hflat Hin; [inversion Hin|].
  cbn [fold_left map fst] in *. unfold writeEntry at 2 3 5. cbn [fst snd].
  destruct (decide (k1 = k)) as [-> | Hne].
  - rewrite modify_first_twice.
    + f_equal. apply modify_first_ext. intros y _.
      apply writeItemField_twice, href_covered.
    + intros y Hy. rewrite (writer_is_field _ (writer_writeItemField first v0)). exact Hy.
    + intros cs n. apply attr_is_local.
  - rewrite (modify_first_commute k1 k _ _ Hne (writer_writeItemField item v1)
               (writer_writeItemField first v0) X Hflat).
    apply (IH (modify_first (PreviewRuntime.is_field k1)
                 (PreviewRuntime.writeItemField item v1) X)).
    + apply flatTemplate_modify_first; [apply writer_writeItemField|exact Hflat].
    + apply elem_of_cons in Hin as [Hin | Hin]; [congruence|exact Hin].
Qed.

Lemma fold_refill es0 X :
  flatTemplate X = true ->
  Forall (fun kv => fst kv ∈ map fst (entries item)) es0 ->
  fold_left (writeEntry item) (entries item) (fold_left (writeEntry first) es0 X)
  = fold_left (writeEntry item) (entries item) X.
Proof.
  intros Hflat Hes0. revert X Hflat.
  induction Hes0 as [|[k v0] es0 Hk _ IH]; intros X Hflat; [reflexivity|].
  cbn [fold_left]. rewrite IH.
  - apply fold_absorbs; assumption.
  - apply flatTemplate_modify_first; [apply writer_writeItemField|exact Hflat].
Qed.
End Refill.

(** Flat records on a flat template: the second fill overwrites the
    first. *)
Lemma fillItem_record_twice first item X :
  flatTemplate X = true -> flatRecord first = true -> flatRecord item = true ->
  covers first item = true ->
  PreviewRuntime.fillItem (PreviewRuntime.fillItem X first) item = PreviewRuntime.fillItem X item.
Proof.
  intros Hflat Hfirst Hitem Hcov. unfold covers in Hcov.
  apply andb_true_iff in Hcov as [Hkeys Hhref].
  rewrite (fillItem_flatRecord X first Hfirst), !(fillItem_flatRecord _ item Hitem).
  apply fold_refill; [|exact Hflat|].
  - intros Ht. rewrite Ht in Hhref. exact Hhref.
  - apply Forall_forall. intros kv Hin.
    pose proof (proj1 (forallb_forall _ _) Hkeys (fst kv)) as Hk.
    simpl in Hk. apply (proj1 (bool_decide_eq_true _)), Hk.
    apply in_map, list_elem_of_In, Hin.
Qed.

Lemma flatTemplate_cloneNode T : flatTemplate (cloneNode T) = flatTemplate T.
Proof.
  assert (Hfound : forall n, found tagged (cloneNode n) = found tagged n).
  { induction n as [d | t a s l h cs IH] using Node_induction; [reflexivity|].
    rewrite !found_unfold. cbn [cloneNode children]. f_equal.
    induction IH as [|c cs Hc _ IHcs]; [reflexivity|].
    cbn [map]. rewrite !found_list_cons, Hc, IHcs. reflexivity. }
  assert (Hlist : forall cs, found_list tagged (map cloneNode cs) = found_list tagged cs).
  { induction cs as [|c cs IH]; [reflexivity|].
    cbn [map]. rewrite !found_list_cons, Hfound, IH. reflexivity. }
  assert (Hflat : forall n, flatFields (cloneNode n) = flatFields n).
  { induction n as [d | t a s l h cs IH] using Node_induction; [reflexivity|].
    cbn [cloneNode flatFields]. unfold fieldFree. cbn [children]. rewrite Hlist.
    f_equal. induction IH as [|c cs Hc _ IHcs]; [reflexivity|].
    cbn [map forallb]. rewrite Hc, IHcs. reflexivity. }
  unfold flatTemplate. destruct T as [d | t a s l h cs]; [reflexivity|].
  cbn [cloneNode children]. induction cs as [|c cs IH]; [reflexivity|].
  cbn [map forallb]. rewrite Hflat, IH. reflexivity.
Qed.

(** ** Reconciling twice with the same entries *)

Lemma filter_all_true {A} (p : Node -> bool) (g : A -> Node) (l : list A) :
  (forall a, p (g a) = true) -> List.filter p (map g l) = map g l.
Proof.
  intros H. induction l as [|a l IH]; simpl; [reflexivity|]. rewrite H, IH. reflexivity.
Qed.

Lemma renderedItems_appended {A} (listEl : Node) (g : A -> Node) (l : list A) t a s ls h cs :
  listEl = Element t a s ls h cs ->
  (forall x, PreviewRuntime.is_list_item (g x) = true) ->
  length (renderedItems
            (set_children
               (children (remove_all PreviewRuntime.is_list_item listEl) ++ map g l)
               (remove_all PreviewRuntime.is_list_item listEl)))
  = (length (renderedItems (remove_all PreviewRuntime.is_list_item listEl)) + length l)%nat.
Proof.
  intros -> Hg. unfold renderedItems. simpl.
  rewrite List.filter_app, length_app, (filter_all_true _ g l Hg), length_map. reflexivity.
Qed.




(** ** Selectors that stay unmatched *)

Section AttrOnly.
Variable r : Node -> bool.
Hypothesis r_text : forall d, r (TextNode d) = false.
Hypothesis r_attrs :
  forall x y, (forall a, a <> "src" -> a <> "href" -> getAttribute a x = getAttribute a y) ->
              r x = r y.

Lemma r_set_children cs n : r (set_children cs n) = r n.
Proof. apply r_attrs. intros a _ _. destruct n; reflexivity. Qed.

Lemma r_Element t a s l h cs s' l' h' cs' :
  r (Element t a s' l' h' cs') = r (Element t a s l h cs).
Proof. apply r_attrs. reflexivity. Qed.

Lemma r_writer f x : writer f -> r (f x) = r x.
Proof. intros Hf. apply r_attrs, (proj1 (Hf x)). Qed.

Lemma found_list_app cs cs' :
  found_list r (cs ++ cs') = found_list r cs || found_list r cs'.
Proof.
  induction cs as [|c cs IH]; [reflexivity|].
  rewrite <- app_comm_cons, !found_list_cons, IH, orb_assoc. reflexivity.
Qed.

(** What a query returns lies in the tree. *)
Lemma found_descendant p n T :
  find_in p n = Some T -> found r n = false -> found r T = false.
Proof.
  revert T. induction n as [d | t a s l h cs IH] using Node_induction; intros T; simpl.
  - destruct (p (TextNode d)); [|discriminate]. intros [= <-]. auto.
  - destruct (p (Element t a s l h cs)); [intros [= <-]; auto|].
    rewrite (found_unfold r (Element t a s l h cs)). simpl.
    destruct (r (Element t a s l h cs)); [discriminate|]. simpl.
    induction IH as [|c cs Hc _ IHcs]; simpl; [discriminate|].
    rewrite found_list_cons. intros Hfind Hfree.
    apply orb_false_iff in Hfree as [Hfree1 Hfree2].
    destruct (find_in p c) eqn:Ec; [injection Hfind as ->; exact (Hc _ eq_refl Hfree1)|].
    exact (IHcs Hfind Hfree2).
Qed.

Lemma found_querySelector p n T :
  querySelector p n = Some T -> found_list r (children n) = false -> found r T = false.
Proof.
  unfold querySelector. induction (children n) as [|c cs IH]; simpl; [discriminate|].
  rewrite found_list_cons. intros Hfind Hfree.
  apply orb_false_iff in Hfree as [Hfree1 Hfree2].
  destruct (find_in p c) eqn:Ec; [injection Hfind as ->; exact (found_descendant _ _ _ Ec Hfree1)|].
  exact (IH Hfind Hfree2).
Qed.

Lemma found_list_map (c : Node -> Node) cs :
  Forall (fun x => found r (c x) = found r x) cs ->
  found_list r (map c cs) = found_list r cs.
Proof.
  induction 1 as [|x cs Hx _ IH]; [reflexivity|].
  cbn [map]. rewrite !found_list_cons, Hx, IH. reflexivity.
Qed.

Lemma found_cloneNode n : found r (cloneNode n) = found r n.
Proof.
  induction n as [d | t a s l h cs IH] using Node_induction; [reflexivity|].
  rewrite !found_unfold. cbn [cloneNode children].
  rewrite (r_Element t a s l h cs s [] false (map cloneNode cs)).
  rewrite (found_list_map cloneNode cs IH). reflexivity.
Qed.

Lemma found_list_false_Forall cs :
  found_list r cs = false <-> Forall (fun c => found r c = false) cs.
Proof.
  induction cs as [|c cs IH]; [split; [constructor|reflexivity]|].
  rewrite found_list_cons, orb_false_iff, IH. split.
  - intros [H1 H2]. constructor; assumption.
  - intros H. inversion H; subst. split; assumption.
Qed.

(** A write leaves the selector unmatched. *)
Lemma free_modified_list p f cs :
  Forall (fun c => found r c = false -> found r (modified p f c) = false) cs ->
  found_list r cs = false -> found_list r (modified_list p f cs) = false.
Proof.
  induction 1 as [|c cs Hc _ IH]; [reflexivity|].
  rewrite found_list_cons, modified_list_cons. intros H.
  apply orb_false_iff in H as [H1 H2].
  destruct (found p c); rewrite found_list_cons.
  - rewrite (Hc H1), H2. reflexivity.
  - rewrite H1, (IH H2). reflexivity.
Qed.

Lemma free_modified p f n :
  writer f -> found r n = false -> found r (modified p f n) = false.
Proof.
  intros Hf. induction n as [d | t a s l h cs IH] using Node_induction.
  - intros _. destruct (p (TextNode d)) eqn:E.
    + rewrite (modified_match p f _ E), found_unfold, (r_writer f _ Hf), r_text. simpl.
      destruct (proj2 (Hf (TextNode d))) as [-> | Ht]; [reflexivity|].
      apply found_list_text; assumption.
    + rewrite modified_TextNode by exact E. rewrite found_unfold, r_text. reflexivity.
  - rewrite (found_unfold r (Element t a s l h cs)). intros H.
    apply orb_false_iff in H as [Hr Hcs]. simpl in Hcs.
    destruct (p (Element t a s l h cs)) eqn:E.
    + rewrite (modified_match p f _ E), found_unfold, (r_writer f _ Hf), Hr. simpl.
      destruct (proj2 (Hf (Element t a s l h cs))) as [-> | Ht]; [exact Hcs|].
      apply found_list_text; assumption.
    + rewrite (modified_Element p f _ _ _ _ _ _ E), found_unfold.
      rewrite (r_Element t a s l h cs s l h (modified_list p f cs)), Hr. simpl.
      apply free_modified_list; assumption.
Qed.

Lemma free_modify_first p f n :
  writer f -> found_list r (children n) = false ->
  found_list r (children (modify_first p f n)) = false.
Proof.
  intros Hf H. rewrite modify_first_modified, children_set_children.
  destruct n as [d | t a s l h cs]; [reflexivity|]. simpl in *.
  apply free_modified_list; [|exact H].
  apply Forall_forall. intros c _. apply free_modified, Hf.
Qed.

Lemma free_fold_left {A} (g : Node -> A -> Node) (l : list A) n :
  (forall x a, found_list r (children x) = false -> found_list r (children (g x a)) = false) ->
  found_list r (children n) = false -> found_list r (children (fold_left g l n)) = false.
Proof.
  intros Hg. revert n. induction l as [|a l IH]; intros n H; simpl; [exact H|].
  apply IH, Hg, H.
Qed.

(** A removal leaves the selector unmatched. *)
Lemma free_remove_all p n : found r n = false -> found r (remove_all p n) = false.
Proof.
  induction n as [d | t a s l h cs IH] using Node_induction; [auto|].
  rewrite !found_unfold, remove_all_children, r_set_children, children_set_children.
  cbn [children]. intros H. apply orb_false_iff in H as [-> Hcs]. simpl.
  induction IH as [|c cs Hc _ IHcs]; [reflexivity|].
  rewrite found_list_cons in Hcs. apply orb_false_iff in Hcs as [H1 H2]. simpl.
  rewrite found_list_app, (IHcs H2), orb_false_r.
  destruct (p c); [reflexivity|]. rewrite found_list_cons, (Hc H1). reflexivity.
Qed.

(** So does a function applied at the outermost matches, if it does. *)
Lemma free_map_outermost_in p g n :
  (forall x, found r x = false -> found r (g x) = false) ->
  found r n = false -> found r (map_outermost_in p g n) = false.
Proof.
  intros Hg. induction n as [d | t a s l h cs IH] using Node_induction; simpl.
  - destruct (p (TextNode d)); auto.
  - destruct (p (Element t a s l h cs)); [apply Hg|].
    rewrite !found_unfold. cbn [children].
    rewrite (r_Element t a s l h cs s l h (map (map_outermost_in p g) cs)).
    intros H. apply orb_false_iff in H as [-> Hcs]. simpl.
    apply found_list_false_Forall in Hcs. apply found_list_false_Forall.
    apply Forall_map. apply Forall_forall. intros c Hc.
    apply (proj1 (Forall_forall _ _) IH c Hc), (proj1 (Forall_forall _ _) Hcs c Hc).
Qed.

Lemma free_map_outermost p g n :
  (forall x, found r x = false -> found r (g x) = false) ->
  found_list r (children n) = false ->
  found_list r (children (map_outermost p g n)) = false.
Proof.
  intros Hg H. unfold map_outermost. rewrite children_set_children.
  destruct n as [d | t a s l h cs]; [reflexivity|]. simpl in *.
  apply found_list_false_Forall in H. apply found_list_false_Forall.
  apply Forall_map. apply Forall_forall. intros c Hc.
  apply free_map_outermost_in; [exact Hg|]. apply (proj1 (Forall_forall _ _) H c Hc).
Qed.
End AttrOnly.

(** ** The appliers leave unmatched selectors unmatched *)

Lemma writer_removeStyle p : writer (removeStyle p).
Proof. intros x. destruct x; simpl; auto. Qed.

Lemma writer_writeField field value : writer (PreviewRuntime.writeField field value).
Proof.
  unfold PreviewRuntime.writeField.
  assert (Htag : forall x, tagOf (removeStyle "display" x) = tagOf x) by (intros []; reflexivity).
  intros x. rewrite Htag.
  case_bool_decide.
  - apply (writer_compose (removeStyle "display") (setAttribute "src" _));
      [apply writer_removeStyle|apply writer_setAttribute; auto].
  - destruct (_ && _).
    + apply (writer_compose (removeStyle "display") (setAttribute "href" _));
        [apply writer_removeStyle|apply writer_setAttribute; auto].
    + apply (writer_compose (removeStyle "display") (setTextContent _));
        [apply writer_removeStyle|apply writer_setTextContent].
Qed.

Lemma writer_applyStyles styles : writer (PreviewRuntime.applyStyles styles).
Proof.
  intros x. destruct x as [d | t a s l h cs].
  - assert (H : PreviewRuntime.applyStyles styles (TextNode d) = TextNode d).
    { unfold PreviewRuntime.applyStyles. induction styles as [|pv styles IH]; [reflexivity|].
      cbn [fold_left]. destruct (bool_decide _); exact IH. }
    rewrite H. auto.
  - rewrite applyStyles_Element. simpl. auto.
Qed.

Section AppliersKeepFree.
Variable r : Node -> bool.
Hypothesis r_text : forall d, r (TextNode d) = false.
Hypothesis r_attrs :
  forall x y, (forall a, a <> "src" -> a <> "href" -> getAttribute a x = getAttribute a y) ->
              r x = r y.

Lemma free_fillField itemData x kv :
  found_list r (children x) = false ->
  found_list r (children (PreviewRuntime.fillField itemData x kv)) = false.
Proof.
  unfold PreviewRuntime.fillField. destruct (isPlainObject (snd kv)).
  - apply (free_fold_left r). intros y sub.
    apply (free_modify_first r r_text r_attrs), writer_setTextContent.
  - apply (free_modify_first r r_text r_attrs), writer_writeItemField.
Qed.

Lemma free_fillItem x itemData :
  found r x = false -> found r (PreviewRuntime.fillItem x itemData) = false.
Proof.
  rewrite !found_unfold. intros H. apply orb_false_iff in H as [Hr Hcs].
  destruct (fillItem_root x itemData) as [cs Hroot].
  rewrite Hroot at 1. rewrite (r_set_children r r_attrs), Hr. simpl.
  unfold PreviewRuntime.fillItem. destruct (isPrimitive itemData).
  - apply (free_modify_first r r_text r_attrs); [apply writer_setTextContent|exact Hcs].
  - apply (free_fold_left r); [|exact Hcs]. intros y kv. apply free_fillField.
Qed.

Lemma free_reconcileList items listEl :
  found r listEl = false -> found r (PreviewRuntime.reconcileList items listEl) = false.
Proof.
  intros H. destruct (querySelector PreviewRuntime.is_list_item listEl) as [T|] eqn:HT.
  - rewrite (reconcileList_unfold _ _ _ HT).
    pose proof (free_remove_all r r_attrs PreviewRuntime.is_list_item listEl H) as Hrm.
    rewrite found_unfold in Hrm. apply orb_false_iff in Hrm as [Hrm1 Hrm2].
    rewrite found_unfold, (r_set_children r r_attrs), Hrm1, children_set_children. simpl.
    destruct (remove_all PreviewRuntime.is_list_item listEl) as [d | t a s l h cs];
      [reflexivity|].
    cbn [children] in *. rewrite (found_list_app r), Hrm2. simpl.
    apply (found_list_false_Forall r), Forall_map, Forall_forall. intros i _.
    apply free_fillItem. rewrite !(found_cloneNode r r_attrs).
    rewrite found_unfold in H. apply orb_false_iff in H as [_ H].
    apply (found_querySelector r _ _ _ HT H).
  - rewrite (reconcileList_no_template _ _ HT). exact H.
Qed.

Lemma free_updateFieldElement x field value :
  found_list r (children x) = false ->
  found_list r (children (PreviewRuntime.updateFieldElement x field value)) = false.
Proof.
  intros H. unfold PreviewRuntime.updateFieldElement.
  destruct (querySelector _ x); [|exact H]. destruct (nullish value); [exact H|].
  apply (free_modify_first r r_text r_attrs); [apply writer_writeField|exact H].
Qed.

Lemma free_updateArrayField x listName items fallback :
  found_list r (children x) = false ->
  found_list r (children (PreviewRuntime.updateArrayField x listName items fallback)) = false.
Proof.
  intros H. unfold PreviewRuntime.updateArrayField.
  assert (Hrec : forall name,
             found_list r (children (map_outermost (PreviewRuntime.is_list name)
                                       (PreviewRuntime.reconcileList items) x)) = false).
  { intros name. apply (free_map_outermost r r_attrs); [|exact H].
    intros y. apply free_reconcileList. }
  destruct (querySelectorAll _ x); [|apply Hrec].
  destruct fallback as [fb|]; [|exact H]. destruct (bool_decide (fb = "")); [exact H|apply Hrec].
Qed.

Lemma free_updateIndexed field x ix :
  found_list r (children x) = false ->
  found_list r (children (PreviewRuntime.updateIndexed field x ix)) = false.
Proof.
  unfold PreviewRuntime.updateIndexed. destruct (negb _).
  - apply (free_fold_left r). intros y kv. apply free_updateFieldElement.
  - apply free_updateFieldElement.
Qed.

Lemma free_updateSectionField sectionId x fv :
  found_list r (children x) = false ->
  found_list r (children (PreviewRuntime.updateSectionField sectionId x fv)) = false.
Proof.
  intros H. unfold PreviewRuntime.updateSectionField. destruct (_ && _).
  - unfold PreviewRuntime.styleSection. case_bool_decide.
    + destruct (proj2 (writer_applyStyles (entries (snd fv)) x)) as [-> | Ht]; [exact H|].
      apply found_list_text; assumption.
    + apply (free_modify_first r r_text r_attrs); [apply writer_applyStyles|exact H].
  - destruct (snd fv) as [| | | | |items|nested]; try (apply free_updateFieldElement, H).
    + apply (free_fold_left r); [intros y ix; apply free_updateIndexed|].
      apply free_updateArrayField, H.
    + apply (free_fold_left r); [|exact H]. intros y kv. apply free_updateFieldElement.
Qed.
End AppliersKeepFree.

(** ** The two channels on the same field map *)

Lemma updateField_same container field value :
  ManifestInjector.updateField container field value
  = PreviewRuntime.updateFieldElement container field value.
Proof. reflexivity. Qed.

Lemma forEachTry_total {A S} (body : A -> S -> S * bool) (g : S -> A -> S) (l : list A) (s : S) :
  Forall (fun x => forall s, body x s = (g s x, true)) l ->
  forEachTry body l s = (fold_left g l s, true).
Proof.
  intros H. revert s. induction H as [|x l Hx _ IH]; intros s; simpl; [reflexivity|].
  rewrite Hx. simpl. apply IH.
Qed.

(** On a flat record the two reconcilers fill an item alike. *)
Lemma fillItem_same newItem itemData :
  flatRecord itemData = true ->
  ManifestInjector.fillItem newItem itemData = Some (PreviewRuntime.fillItem newItem itemData).
Proof.
  intros H. rewrite (fillItem_flatRecord _ _ H). unfold ManifestInjector.fillItem, js_entries.
  unfold flatRecord in H. apply andb_true_iff in H as [H _].
  destruct itemData; try discriminate; reflexivity.
Qed.

Lemma reconcileList_same items listEl :
  forallb flatRecord items = true ->
  ManifestInjector.reconcileList items listEl = (PreviewRuntime.reconcileList items listEl, true).
Proof.
  intros H. unfold ManifestInjector.reconcileList, PreviewRuntime.reconcileList.
  change ManifestInjector.is_list_item with PreviewRuntime.is_list_item.
  destruct (querySelector PreviewRuntime.is_list_item listEl) as [T|]; [|reflexivity].
  apply (forEachTry_total _ (fun l i => appendChild (PreviewRuntime.fillItem
                                                        (cloneNode (cloneNode T)) i) l)).
  apply Forall_forall. intros i Hi l. apply list_elem_of_In in Hi.
  rewrite (fillItem_same _ _ (proj1 (forallb_forall _ _) H i Hi)). reflexivity.
Qed.

(** When nothing throws, the guarded traversal is the plain one. *)
Lemma try_outermost_in_total p (f : Node -> Node * bool) (g : Node -> Node) n :
  (forall x, f x = (g x, true)) ->
  try_outermost_in p f n true = (map_outermost_in p g n, true).
Proof.
  intros Hf. induction n as [d | t a s l h cs IH] using Node_induction; simpl.
  - destruct (p (TextNode d)); [apply Hf|reflexivity].
  - destruct (p (Element t a s l h cs)); [apply Hf|].
    assert (Hthread : thread (try_outermost_in p f) cs true
                      = (map (map_outermost_in p g) cs, true)).
    { induction IH as [|c cs Hc _ IHcs]; [reflexivity|].
      cbn [thread map]. rewrite Hc. cbn [fst snd]. rewrite IHcs. reflexivity. }
    rewrite Hthread. reflexivity.
Qed.

Lemma try_outermost_total p (f : Node -> Node * bool) (g : Node -> Node) n :
  (forall x, f x = (g x, true)) ->
  try_outermost p f n = (map_outermost p g n, true).
Proof.
  intros Hf. unfold try_outermost, map_outermost.
  assert (Hthread : thread (try_outermost_in p f) (children n) true
                    = (map (map_outermost_in p g) (children n), true)).
  { induction (children n) as [|c cs IHcs]; [reflexivity|].
    cbn [thread map]. rewrite (try_outermost_in_total p f g c Hf). cbn [fst snd].
    rewrite IHcs. reflexivity. }
  rewrite Hthread. reflexivity.
Qed.

Lemma found_false_find_all p n : found p n = false -> find_all_in p n = [].
Proof.
  induction n as [d | t a s l h cs IH] using Node_induction; rewrite found_unfold; simpl.
  - destruct (p (TextNode d)); [discriminate|reflexivity].
  - destruct (p (Element t a s l h cs)); [discriminate|]. simpl.
    induction IH as [|c cs Hc _ IHcs]; [reflexivity|].
    rewrite found_list_cons. intros H. apply orb_false_iff in H as [H1 H2]. simpl.
    rewrite (Hc H1), (IHcs H2). reflexivity.
Qed.

Lemma querySelectorAll_found_list p n :
  querySelectorAll p n = [] <-> found_list p (children n) = false.
Proof.
  unfold querySelectorAll. induction (children n) as [|c cs IH]; simpl; [tauto|].
  rewrite found_list_cons, orb_false_iff. split.
  - intros H. apply app_eq_nil in H as [H1 H2]. split; [|apply IH, H2].
    unfold found. rewrite (find_all_in_nil _ _ H1). reflexivity.
  - intros [H1 H2]. rewrite (found_false_find_all _ _ H1). apply IH, H2.
Qed.

Lemma map_outermost_in_not_found p g n : found p n = false -> map_outermost_in p g n = n.
Proof.
  induction n as [d | t a s l h cs IH] using Node_induction; rewrite found_unfold; simpl.
  - destruct (p (TextNode d)); [discriminate|reflexivity].
  - destruct (p (Element t a s l h cs)); [discriminate|]. simpl. intros H. f_equal.
    induction IH as [|c cs Hc _ IHcs]; [reflexivity|].
    rewrite found_list_cons in H. apply orb_false_iff in H as [H1 H2]. simpl.
    rewrite (Hc H1), (IHcs H2). reflexivity.
Qed.

Lemma map_outermost_not_found p g n :
  found_list p (children n) = false -> map_outermost p g n = n.
Proof.
  intros H. unfold map_outermost.
  assert (Hmap : map (map_outermost_in p g) (children n) = children n).
  { revert H. induction (children n) as [|c cs IH]; [reflexivity|].
    rewrite found_list_cons. intros H. apply orb_false_iff in H as [H1 H2]. simpl.
    rewrite (map_outermost_in_not_found p g c H1), (IH H2). reflexivity. }
  rewrite Hmap. apply set_children_same.
Qed.

(** The fallback list name plays no part when no list bears it. *)
Lemma updateArrayField_same sectionId sectionEl field items :
  forallb flatRecord items = true ->
  field = sectionId
  \/ found_list (PreviewRuntime.is_list sectionId) (children sectionEl) = false ->
  ManifestInjector.updateArrayField sectionEl field items
  = (PreviewRuntime.updateArrayField sectionEl field items (Some sectionId), true).
Proof.
  intros Hitems Hfallback.
  unfold ManifestInjector.updateArrayField, PreviewRuntime.updateArrayField.
  change ManifestInjector.is_list with PreviewRuntime.is_list.
  destruct (querySelectorAll (PreviewRuntime.is_list field) sectionEl) eqn:E.
  - case_bool_decide; [reflexivity|]. rewrite map_outermost_not_found; [reflexivity|].
    destruct Hfallback as [<- | Hfree]; [|exact Hfree].
    apply querySelectorAll_found_list, E.
  - apply try_outermost_total. intros x. apply reconcileList_same, Hitems.
Qed.

(** ** Indexed dot paths *)

Lemma prefix_append p s rest : String.prefix (p ++ s) (p ++ (s ++ rest)) = true.
Proof.
  induction p as [|c p IH].
  - change (String.prefix s (s ++ rest) = true).
    induction s as [|c s IHs]; [destruct ("" ++ rest); reflexivity|].
    change (String.prefix (String c s) (String c (s ++ rest)) = true).
    cbn [String.prefix]. destruct (Ascii.ascii_dec c c); [exact IHs|congruence].
  - change (String.prefix (String c (p ++ s)) (String c (p ++ (s ++ rest))) = true).
    cbn [String.prefix]. destruct (Ascii.ascii_dec c c); [exact IH|congruence].
Qed.

Lemma is_field_indexedUnder field rest x :
  PreviewRuntime.is_field (field ++ "." ++ rest) x = true -> indexedUnder field x = true.
Proof.
  unfold PreviewRuntime.is_field, attr_is, indexedUnder. intros H.
  apply bool_decide_eq_true in H. rewrite H. apply prefix_append.
Qed.

Lemma updateFieldElement_absent container field value :
  found_list (PreviewRuntime.is_field field) (children container) = false ->
  PreviewRuntime.updateFieldElement container field value = container.
Proof.
  intros H. unfold PreviewRuntime.updateFieldElement, querySelector.
  unfold found_list in H. destruct (first_some _ _); [discriminate|reflexivity].
Qed.

Lemma fold_left_fixed {A} (g : Node -> A -> Node) (l : list A) n :
  (forall a, g n a = n) -> fold_left g l n = n.
Proof. intros H. induction l as [|a l IH]; simpl; [reflexivity|]. rewrite H. exact IH. Qed.

(** Where no field node is addressed below the array's name, the
    per-index writes of the full-update find nothing. *)
Lemma updateIndexed_absent field sectionEl ix :
  found_list (indexedUnder field) (children sectionEl) = false ->
  PreviewRuntime.updateIndexed field sectionEl ix = sectionEl.
Proof.
  intros H. unfold PreviewRuntime.updateIndexed.
  assert (Habsent : forall rest value,
             PreviewRuntime.updateFieldElement sectionEl (field ++ "." ++ rest) value
             = sectionEl).
  { intros rest value. apply updateFieldElement_absent.
    apply (found_list_false_mono _ (indexedUnder field) (is_field_indexedUnder field rest)), H. }
  destruct (negb _); [|apply Habsent].
  apply fold_left_fixed. intros kv. apply Habsent.
Qed.

Lemma is_list_attrs name x y :
  (forall a, a <> "src" -> a <> "href" -> getAttribute a x = getAttribute a y) ->
  PreviewRuntime.is_list name x = PreviewRuntime.is_list name y.
Proof.
  intros H. unfold PreviewRuntime.is_list, attr_is.
  rewrite (H "data-dr-list") by discriminate. reflexivity.
Qed.

Lemma indexedUnder_attrs field x y :
  (forall a, a <> "src" -> a <> "href" -> getAttribute a x = getAttribute a y) ->
  indexedUnder field x = indexedUnder field y.
Proof.
  intros H. unfold indexedUnder. rewrite (H "data-dr-field") by discriminate. reflexivity.
Qed.

(** ** One field of a manifest section *)

Lemma applyField_refines sectionId sectionEl fv :
  hydratableField sectionId sectionEl fv = true ->
  ManifestInjector.applyField fv sectionEl
  = (PreviewRuntime.updateSectionField sectionId sectionEl fv, true).
Proof.
  unfold hydratableField, ManifestInjector.applyField, PreviewRuntime.updateSectionField.
  intros H. apply andb_true_iff in H as [Hstyle H]. apply negb_true_iff in Hstyle.
  rewrite Hstyle. cbn [andb].
  destruct (snd fv) as [| | | | |items|nested]; try reflexivity.
  apply andb_true_iff in H as [H Hindexed]. apply andb_true_iff in H as [Hitems Hfallback].
  unfold freeBelow in *. apply negb_true_iff in Hindexed.
  rewrite (updateArrayField_same sectionId).
  - f_equal. symmetry. apply fold_left_fixed. intros ix.
    apply updateIndexed_absent.
    apply (free_updateArrayField _ (fun d => eq_refl) (indexedUnder_attrs (fst fv))), Hindexed.
  - exact Hitems.
  - apply orb_true_iff in Hfallback as [Hf | Hf].
    + left. apply bool_decide_eq_true in Hf. exact Hf.
    + right. apply negb_true_iff in Hf. exact Hf.
Qed.

Lemma hydratableField_kept sectionId sectionEl fv fv' :
  hydratableField sectionId sectionEl fv' = true ->
  hydratableField sectionId (PreviewRuntime.updateSectionField sectionId sectionEl fv) fv' = true.
Proof.
  unfold hydratableField. intros H. apply andb_true_iff in H as [-> H]. cbn [andb].
  destruct (snd fv') as [| | | | |items|nested]; try reflexivity.
  apply andb_true_iff in H as [H Hindexed]. apply andb_true_iff in H as [-> Hfallback].
  unfold freeBelow in *. apply negb_true_iff in Hindexed.
  rewrite (free_updateSectionField _ (fun d => eq_refl) (indexedUnder_attrs (fst fv'))
             sectionId sectionEl fv Hindexed).
  rewrite andb_true_r. cbn [andb].
  apply orb_true_iff in Hfallback as [-> | Hf]; [reflexivity|].
  apply negb_true_iff in Hf.
  rewrite (free_updateSectionField _ (fun d => eq_refl) (is_list_attrs sectionId)
             sectionId sectionEl fv Hf).
  apply orb_true_r.
Qed.

(** The loop of the injector over a field map is the loop of the
    full-update. *)
Lemma applyFields_refine sectionId data sectionEl :
  hydratable sectionId data sectionEl = true ->
  forEachTry ManifestInjector.applyField data sectionEl
  = (fold_left (PreviewRuntime.updateSectionField sectionId) data sectionEl, true).
Proof.
  unfold hydratable. revert sectionEl.
  induction data as [|fv data IH]; intros sectionEl H; [reflexivity|].
  cbn [forallb] in H. apply andb_true_iff in H as [Hfv Hdata].
  cbn [forEachTry fold_left]. rewrite (applyField_refines sectionId _ _ Hfv). cbn [fst snd].
  apply IH. apply forallb_forall. intros fv' Hin.
  apply hydratableField_kept. exact (proj1 (forallb_forall _ _) Hdata fv' Hin).
Qed.

Lemma hydratable_children sectionId data x y :
  children x = children y -> hydratable sectionId data x = hydratable sectionId data y.
Proof.
  intros H. unfold hydratable, hydratableField, freeBelow. rewrite H. reflexivity.
Qed.

(** Mutating through the reference a query returned. *)
Lemma modify_in_at_found p f n el :
  find_in p n = Some el -> modify_in p f n = modify_in p (fun _ => f el) n.
Proof.
  revert el. induction n as [d | t a s l h cs IH] using Node_induction; intros el; simpl.
  - destruct (p (TextNode d)); [|discriminate]. intros [= <-]. reflexivity.
  - destruct (p (Element t a s l h cs)); [intros [= <-]; reflexivity|].
    intros H. f_equal. revert H.
    induction IH as [|c cs Hc _ IHcs]; simpl; [discriminate|].
    destruct (find_in p c) eqn:Ec.
    + intros [= <-]. rewrite (Hc _ eq_refl).
      destruct (modify_in p (fun _ => f n) c) eqn:Em; [reflexivity|].
      apply modify_in_found in Em. congruence.
    + intros H. apply (proj2 (modify_in_found p f c)) in Ec as Ef.
      apply (proj2 (modify_in_found p (fun _ => f el) c)) in Ec as Eg.
      rewrite Ef, Eg, (IHcs H). reflexivity.
Qed.

(** ** A manifest section and the full-update *)

Lemma js_get_Some v k x : js_get v k = Some x -> js_prop v k = x.
Proof. unfold js_get. destruct (nullish v); [discriminate|]. intros [= <-]. reflexivity. Qed.




(** ** Reference resolution *)

Lemma lookup_field_assign key v data : lookup_field key (ManifestInjector.assign key v data) = v.
Proof.
  induction data as [|[k x] data IH]; simpl.
  - rewrite bool_decide_eq_true_2 by reflexivity. reflexivity.
  - case_bool_decide as Hk; simpl.
    + rewrite bool_decide_eq_true_2 by exact Hk. reflexivity.
    + rewrite bool_decide_eq_false_2 by exact Hk. exact IH.
Qed.

Lemma lookup_field_assign_ne key key' v data :
  key <> key' ->
  lookup_field key' (ManifestInjector.assign key v data) = lookup_field key' data.
Proof.
  intros Hne. induction data as [|[k x] data IH]; simpl.
  - rewrite bool_decide_eq_false_2 by exact Hne. reflexivity.
  - case_bool_decide as Hk; simpl.
    + subst k. rewrite !bool_decide_eq_false_2 by exact Hne. reflexivity.
    + case_bool_decide; [reflexivity|exact IH].
Qed.

Lemma lookup_field_absent key (r : Record) : key ∉ map fst r -> lookup_field key r = JUndefined.
Proof.
  induction r as [|[k x] r IH]; [reflexivity|]. simpl. intros H.
  apply not_elem_of_cons in H as [Hne H].
  rewrite bool_decide_eq_false_2 by congruence. exact (IH H).
Qed.

(** One schema entry: the field it names is resolved if it is a picker,
    every other field is left alone. *)
Lemma resolveField_lookup index data key fieldSchema :
  nullish fieldSchema = false ->
  exists data',
    ManifestInjector.resolveField index data (key, fieldSchema) = Some data'
    /\ forall key',
         lookup_field key' data'
         = if bool_decide (key' = key) && isPicker fieldSchema
           then resolvedValue index (lookup_field key' data)
           else lookup_field key' data.
Proof.
  intros Hschema. unfold ManifestInjector.resolveField, js_get, isPicker. cbn [fst snd].
  rewrite Hschema.
  destruct (ManifestInjector.sameValueZero (js_prop fieldSchema "uiWidget") _).
  - destruct (lookup_field key data) as [| | | | |[|[| | | |id0| |] refs]|] eqn:E;
      try (exists data; split; [reflexivity|]; intros key';
           case_bool_decide as Hk; [subst key'; rewrite E|]; reflexivity).
    eexists. split; [reflexivity|]. intros key'. case_bool_decide as Hk.
    + subst key'. rewrite lookup_field_assign, E. reflexivity.
    + apply lookup_field_assign_ne. congruence.
  - exists data. split; [reflexivity|]. intros key'. rewrite andb_false_r. reflexivity.
Qed.

(** The whole schema: a field is resolved exactly when the schema marks
    it as a picker. *)
Lemma resolveFields_lookup index schema data :
  NoDup (map fst schema) ->
  Forall (fun ks => nullish (snd ks) = false) schema ->
  exists data',
    foldlM (ManifestInjector.resolveField index) schema data = Some data'
    /\ forall key,
         lookup_field key data'
         = if isPicker (lookup_field key schema)
           then resolvedValue index (lookup_field key data)
           else lookup_field key data.
Proof.
  intros Hnd Hschema. revert data.
  induction Hschema as [|[k fs] schema Hfs _ IH]; intros data.
  - exists data. split; [reflexivity|]. intros key. reflexivity.
  - cbn [map fst] in Hnd. apply NoDup_cons in Hnd as [Hfresh Hnd].
    destruct (resolveField_lookup index data k fs Hfs) as (data1 & Hstep & Hdata1).
    destruct (IH Hnd data1) as (data' & Hrest & Hdata').
    exists data'. cbn [foldlM]. rewrite Hstep. split; [exact Hrest|].
    intros key. rewrite Hdata', !Hdata1. cbn [lookup_field].
    case_bool_decide as Hk.
    + subst key. rewrite bool_decide_eq_true_2 by reflexivity.
      rewrite (lookup_field_absent _ _ Hfresh). cbn [andb]. reflexivity.
    + rewrite bool_decide_eq_false_2 by congruence. reflexivity.
Qed.

Lemma resolveCollectionRefs_lookup index section :
  NoDup (map fst (entries (js_default (js_prop (js_prop section "schema") "properties")
                             (JObj [])))) ->
  Forall (fun ks => nullish (snd ks) = false)
    (entries (js_default (js_prop (js_prop section "schema") "properties") (JObj []))) ->
  exists data,
    ManifestInjector.resolveCollectionRefs section index = Some data
    /\ forall key,
         lookup_field key data
         = if isPicker (lookup_field key
                          (entries (js_default (js_prop (js_prop section "schema") "properties")
                                      (JObj []))))
           then resolvedValue index (lookup_field key (entries (js_prop section "data")))
           else lookup_field key (entries (js_prop section "data")).
Proof. intros Hnd Hschema. apply resolveFields_lookup; assumption. Qed.

(** ** The collection index *)

Lemma indexItems_fold items index :
  Forall (fun item => nullish item = false) items ->
  foldlM ManifestInjector.indexItem items index
  = Some (rev (indexEntries items) ++ index)%list.
Proof.
  intros H. revert index. induction H as [|item items Hitem _ IH]; intros index; [reflexivity|].
  cbn [foldlM]. unfold ManifestInjector.indexItem at 1, js_get. rewrite Hitem, IH.
  unfold indexEntries. cbn [flat_map].
  destruct (truthy (js_prop item "id")); cbn [app rev]; rewrite ?rev_app_distr, <- ?app_assoc;
    reflexivity.
Qed.

Lemma indexCollections_fold cols itemss index :
  Forall2 collectionItems cols itemss ->
  foldlM ManifestInjector.indexCollection cols index
  = Some (rev (indexEntries (concat itemss)) ++ index)%list.
Proof.
  intros H. revert index.
  induction H as [|col items cols itemss (Hcol & Hiter & Hitems) _ IH]; intros index;
    [reflexivity|].
  cbn [foldlM concat]. unfold ManifestInjector.indexCollection at 1, js_get.
  rewrite Hcol, Hiter, (indexItems_fold _ _ Hitems), IH.
  unfold indexEntries. rewrite flat_map_app, rev_app_distr, <- app_assoc. reflexivity.
Qed.

(** The index holds, latest first, the items of all collections that
    have a truthy id. *)
Lemma buildIndex_items manifest cols itemss :
  js_iter (js_default (js_prop manifest "collections") (JArr [])) = Some cols ->
  Forall2 collectionItems cols itemss ->
  ManifestInjector.buildIndex manifest = Some (rev (indexEntries (concat itemss))).
Proof.
  intros Hcols H. unfold ManifestInjector.buildIndex. rewrite Hcols.
  rewrite (indexCollections_fold _ _ _ H), app_nil_r. reflexivity.
Qed.

(** Looking an id up gives the last item, in document order, that
    carries it. *)
Lemma index_get_items items id :
  ManifestInjector.index_get (rev (indexEntries items)) id
  = default JUndefined
      (List.find (fun item => truthy (js_prop item "id")
                              && ManifestInjector.sameValueZero (js_prop item "id") id)
                 (rev items)).
Proof.
  unfold ManifestInjector.index_get.
  assert (Hfind : forall l acc,
             List.find (fun kv => ManifestInjector.sameValueZero (fst kv) id)
               (rev (indexEntries l) ++ acc)%list
             = match List.find (fun item => truthy (js_prop item "id")
                                  && ManifestInjector.sameValueZero (js_prop item "id") id)
                       (rev l) with
               | Some item => Some (js_prop item "id", item)
               | None => List.find (fun kv => ManifestInjector.sameValueZero (fst kv) id) acc
               end).
  { induction l as [|item l IH] using rev_ind; intros acc; [reflexivity|].
    unfold indexEntries in *. rewrite flat_map_app, !rev_app_distr. cbn [flat_map rev app].
    destruct (truthy (js_prop item "id")) eqn:Et; cbn [app rev List.find fst];
      rewrite ?Et; cbn [andb].
    - destruct (ManifestInjector.sameValueZero (js_prop item "id") id); [reflexivity|].
      apply IH.
    - apply IH. }
  specialize (Hfind items []). rewrite app_nil_r in Hfind. rewrite Hfind.
  destruct (List.find _ (rev items)); reflexivity.
Qed.

(** * Further properties of the embedded sync channel *)

(** ** Section visibility *)

Lemma style_set_twice p u v (s : gmap string string) :
  style_set p v (style_set p u s) = style_set p v s.
Proof.
  unfold style_set. repeat case_bool_decide; apply map_eq; intros q;
    destruct (decide (q = p)) as [->|Hq];
    rewrite ?lookup_delete_eq, ?lookup_insert_eq, ?lookup_delete_ne, ?lookup_insert_ne,
            ?lookup_delete_eq, ?lookup_insert_eq, ?lookup_delete_ne, ?lookup_insert_ne
      by congruence; reflexivity.
Qed.

Lemma setStyle_twice p u v x : setStyle p v (setStyle p u x) = setStyle p v x.
Proof. destruct x; [reflexivity|]. simpl. rewrite style_set_twice. reflexivity. Qed.


(** ** Messages for a section the page does not have *)

Lemma on_section_absent sectionId f doc :
  doc_querySelector (PreviewRuntime.is_section sectionId) doc = None ->
  PreviewRuntime.on_section sectionId f doc = doc.
Proof.
  intros H. unfold PreviewRuntime.on_section, doc_modify_first.
  unfold doc_querySelector in H. apply (proj2 (modify_in_found _ f doc)) in H.
  rewrite H. reflexivity.
Qed.

(** X2: a field update, section toggle, style update or scroll request
    that names a section the page does not have, by an id that can be
    written into a selector as it is, changes neither the document nor
    what has been posted or scrolled; only the field update leaves a
    trace, one warning on the console. *)
Theorem unknown_section_ignored
    (w : PreviewRuntime.Window) (event : PreviewRuntime.MessageEvent)
    (msg : PreviewRuntime.ParentToIframeMessage) (sectionId : string)
    (st : PreviewRuntime.State) :
  PreviewRuntime.data event = Some msg ->
  addressee msg = Some sectionId ->
  selectorSafe sectionId = true ->
  doc_querySelector (PreviewRuntime.is_section sectionId) (PreviewRuntime.document st) = None ->
  PreviewRuntime.document (PreviewRuntime.handleMessage w event st) = PreviewRuntime.document st
  /\ PreviewRuntime.posted (PreviewRuntime.handleMessage w event st) = PreviewRuntime.posted st
  /\ PreviewRuntime.scrolled (PreviewRuntime.handleMessage w event st)
     = PreviewRuntime.scrolled st
  /\ PreviewRuntime.console (PreviewRuntime.handleMessage w event st)
     = (PreviewRuntime.console st
        ++ if PreviewRuntime.originRejected w (PreviewRuntime.origin event) then []
           else match msg with
                | PreviewRuntime.FieldUpdate _ _ _ =>
                    [("[preview-runtime] Section not found: " ++ sectionId)%string]
                | _ => []
                end)%list.
Proof.
  intros Hdata Hto _ Habsent. unfold PreviewRuntime.handleMessage. rewrite Hdata.
  destruct (PreviewRuntime.originRejected w (PreviewRuntime.origin event));
    [rewrite app_nil_r; repeat split; reflexivity|].
  assert (Hdoc : forall st0, PreviewRuntime.document st0 = PreviewRuntime.document st ->
                 doc_querySelector (PreviewRuntime.is_section sectionId)
                   (PreviewRuntime.document st0) = None)
    by (intros st0 ->; exact Habsent).
  destruct msg; cbn [addressee] in Hto; try discriminate; injection Hto as ->;
    case_bool_decide; cbn [PreviewRuntime.handleFieldUpdate];
    try (unfold PreviewRuntime.handleFieldUpdate; cbn [PreviewRuntime.document
           PreviewRuntime.dispatch PreviewRuntime.with_parentOrigin]; rewrite Habsent);
    cbn [PreviewRuntime.document PreviewRuntime.posted PreviewRuntime.scrolled
         PreviewRuntime.console PreviewRuntime.with_document PreviewRuntime.dispatch
         PreviewRuntime.with_parentOrigin PreviewRuntime.log PreviewRuntime.scroll];
    unfold PreviewRuntime.handleSectionToggle, PreviewRuntime.handleStyleUpdate;
    rewrite ?(on_section_absent _ _ _ Habsent), ?Habsent, ?app_nil_r;
    repeat split; reflexivity.
Qed.

Lemma unknown_section_ignored_witness :
  addressee (PreviewRuntime.SectionToggle "pricing" false) = Some "pricing"
  /\ selectorSafe "pricing" = true
  /\ doc_querySelector (PreviewRuntime.is_section "pricing")
       (PreviewRuntime.document (PreviewRuntime.load editor (Some "true") heroPage)) = None
  /\ PreviewRuntime.document
       (PreviewRuntime.handleMessage editor
          {| PreviewRuntime.origin := "https://admin.example";
             PreviewRuntime.data := Some (PreviewRuntime.SectionToggle "pricing" false) |}
          (PreviewRuntime.load editor (Some "true") heroPage))
     = PreviewRuntime.document (PreviewRuntime.load editor (Some "true") heroPage).
Proof.
  split; [reflexivity|]. split; [reflexivity|]. split; [reflexivity|].
  exact (proj1 (unknown_section_ignored editor
                  {| PreviewRuntime.origin := "https://admin.example";
                     PreviewRuntime.data := Some (PreviewRuntime.SectionToggle "pricing" false) |}
                  (PreviewRuntime.SectionToggle "pricing" false) "pricing"
                  (PreviewRuntime.load editor (Some "true") heroPage)
                  eq_refl eq_refl eq_refl eq_refl)).
Defined.

(** ** The origin filter *)

Lemma prefix_split p s : String.prefix p s = true -> exists rest, s = p ++ rest.
Proof.
  revert s. induction p as [|c p IH]; intros s H.
  - exists s. reflexivity.
  - destruct s as [|c' s]; [discriminate|]. cbn [String.prefix] in H.
    destruct (Ascii.ascii_dec c c') as [->|]; [|discriminate].
    destruct (IH s H) as (rest & ->). exists rest. reflexivity.
Qed.

(** X3: the message handler lets an origin through exactly when it is the
    page's own origin, begins with [https://], [http://localhost] or
    [http://127.0.0.1], or ends with [.pages.dev]; the two tests for
    HTTPS loopback origins never decide. *)
Theorem origin_filter (w : PreviewRuntime.Window) (origin : string) :
  PreviewRuntime.originRejected w origin = negb (acceptedOrigin w origin).
Proof.
  unfold PreviewRuntime.originRejected, acceptedOrigin.
  destruct (startsWith origin "https://") eqn:Hs.
  - rewrite !andb_false_r, orb_true_r. reflexivity.
  - assert (Hl : startsWith origin "https://localhost" = false).
    { destruct (startsWith origin "https://localhost") eqn:E; [|reflexivity].
      apply prefix_split in E as (rest & ->). discriminate Hs. }
    assert (Hi : startsWith origin "https://127.0.0.1" = false).
    { destruct (startsWith origin "https://127.0.0.1") eqn:E; [|reflexivity].
      apply prefix_split in E as (rest & ->). discriminate Hs. }
    rewrite Hl, Hi. cbn [negb]. rewrite !andb_true_r, orb_false_r.
    rewrite !negb_orb. reflexivity.
Qed.

(** ** Section highlight *)

Lemma sum_list_zero {A} (g : A -> nat) (l : list A) :
  sum_list (map g l) = 0%nat <-> Forall (fun x => g x = 0%nat) l.
Proof.
  induction l as [|x l IH]; simpl.
  - split; [constructor|reflexivity].
  - split.
    + intros H. constructor; [lia|]. apply IH. lia.
    + intros H. apply Forall_cons in H as [H1 H2]. apply IH in H2. lia.
Qed.

Lemma highlights_children t a s l h cs :
  highlights (Element t a s l h cs) = 0%nat
  <-> h = false /\ Forall (fun c => highlights c = 0%nat) cs.
Proof.
  cbn [highlights]. rewrite <- sum_list_zero.
  destruct h; cbn [plus]; split.
  - discriminate.
  - intros [H _]. discriminate H.
  - intros H. split; [reflexivity|exact H].
  - intros [_ H]. exact H.
Qed.

Lemma highlights_clearHighlight n : highlights (PreviewRuntime.clearHighlight n) = 0%nat.
Proof.
  induction n as [d | t a s l h cs IH] using Node_induction; [reflexivity|].
  assert (Hcs : Forall (fun c => highlights c = 0%nat) (map PreviewRuntime.clearHighlight cs))
    by (apply Forall_map; exact IH).
  cbn [PreviewRuntime.clearHighlight]. destruct h; apply highlights_children; split; auto.
Qed.

Lemma clearHighlight_unmarked n :
  highlights n = 0%nat -> PreviewRuntime.clearHighlight n = n.
Proof.
  induction n as [d | t a s l h cs IH] using Node_induction; [reflexivity|].
  intros H. apply highlights_children in H as [-> Hcs]. cbn [PreviewRuntime.clearHighlight].
  f_equal. induction IH as [|c cs Hc _ IHcs]; [reflexivity|].
  apply Forall_cons in Hcs as [H1 H2]. cbn [map]. rewrite (Hc H1), (IHcs H2). reflexivity.
Qed.

Lemma found_clearHighlight sectionId n :
  found (PreviewRuntime.is_section sectionId) (PreviewRuntime.clearHighlight n)
  = found (PreviewRuntime.is_section sectionId) n.
Proof.
  induction n as [d | t a s l h cs IH] using Node_induction; [reflexivity|].
  rewrite !found_unfold.
  assert (Hcs : found_list (PreviewRuntime.is_section sectionId)
                  (map PreviewRuntime.clearHighlight cs)
                = found_list (PreviewRuntime.is_section sectionId) cs).
  { induction IH as [|c cs Hc _ IHcs]; [reflexivity|].
    cbn [map]. rewrite !found_list_cons, Hc, IHcs. reflexivity. }
  cbn [PreviewRuntime.clearHighlight]. destruct h; cbn [children]; rewrite Hcs; reflexivity.
Qed.

Section Highlighting.
Variable p : Node -> bool.
Variable f : Node -> Node.
Hypothesis p_text : forall d, p (TextNode d) = false.
Hypothesis f_marks : forall x, p x = true -> highlights x = 0%nat -> highlights (f x) = 1%nat.

Lemma highlights_modified n :
  highlights n = 0%nat -> highlights (modified p f n) = if found p n then 1%nat else 0%nat.
Proof.
  induction n as [d | t a s l h cs IH] using Node_induction; intros H.
  - rewrite modified_TextNode by apply p_text. unfold found. cbn [find_in].
    rewrite p_text. reflexivity.
  - rewrite found_unfold. destruct (p (Element t a s l h cs)) eqn:Ep.
    + rewrite modified_match by exact Ep. cbn [orb]. apply f_marks; assumption.
    + rewrite modified_Element by exact Ep. cbn [orb children].
      apply highlights_children in H as [-> Hcs]. cbn [highlights plus].
      clear Ep. induction IH as [|c cs Hc _ IHcs]; [reflexivity|].
      apply Forall_cons in Hcs as [H1 H2].
      rewrite modified_list_cons, found_list_cons.
      destruct (found p c) eqn:Ec; cbn [orb map sum_list sum_list_with].
      * rewrite (Hc H1), ?Ec. apply sum_list_zero in H2. simpl. simpl in H2. rewrite H2.
        reflexivity.
      * rewrite H1. cbn [plus]. apply IHcs, H2.
Qed.

End Highlighting.

Lemma find_in_clearHighlight (p : Node -> bool) n :
  (forall x, p (PreviewRuntime.clearHighlight x) = p x) ->
  find_in p (PreviewRuntime.clearHighlight n) = PreviewRuntime.clearHighlight <$> find_in p n.
Proof.
  intros Hp. induction n as [d | t a s l h cs IH] using Node_induction.
  - cbn [PreviewRuntime.clearHighlight find_in]. destruct (p (TextNode d)); reflexivity.
  - assert (Hcs : first_some (find_in p) (map PreviewRuntime.clearHighlight cs)
                  = PreviewRuntime.clearHighlight <$> first_some (find_in p) cs).
    { induction IH as [|c cs Hc _ IHcs]; [reflexivity|].
      cbn [map first_some]. rewrite Hc. destruct (find_in p c); simpl;
        [reflexivity|exact IHcs]. }
    pose proof (Hp (Element t a s l h cs)) as Hn.
    cbn [PreviewRuntime.clearHighlight] in *.
    destruct h; cbn [find_in]; rewrite Hn;
      (destruct (p (Element t a s l _ cs)); [reflexivity|exact Hcs]).
Qed.

Lemma is_section_clearHighlight sectionId x :
  PreviewRuntime.is_section sectionId (PreviewRuntime.clearHighlight x)
  = PreviewRuntime.is_section sectionId x.
Proof. destruct x as [d | t a s l [] cs]; reflexivity. Qed.

Lemma skeleton_clearHighlight n : skeleton (PreviewRuntime.clearHighlight n) = skeleton n.
Proof.
  induction n as [d | t a s l h cs IH] using Node_induction; [reflexivity|].
  assert (Hcs : map skeleton (map PreviewRuntime.clearHighlight cs) = map skeleton cs).
  { induction IH as [|c cs Hc _ IHcs]; [reflexivity|]. cbn [map]. rewrite Hc, IHcs.
    reflexivity. }
  cbn [PreviewRuntime.clearHighlight]. destruct h; cbn [skeleton]; rewrite Hcs; reflexivity.
Qed.

Lemma skeleton_modify_in p f n n' :
  (forall x, skeleton (f x) = skeleton x) ->
  modify_in p f n = Some n' -> skeleton n' = skeleton n.
Proof.
  intros Hf. revert n'.
  induction n as [d | t a s l h cs IH] using Node_induction; intros n'; cbn [modify_in].
  - destruct (p (TextNode d)); [|discriminate]. intros [= <-]. apply Hf.
  - destruct (p (Element t a s l h cs)); [intros [= <-]; apply Hf|].
    destruct (modify_list (modify_in p f) cs) as [cs'|] eqn:E; [|discriminate].
    intros [= <-]. cbn [skeleton]. f_equal. revert cs' E.
    induction IH as [|c cs Hc _ IHcs]; intros cs'; cbn [modify_list]; [discriminate|].
    destruct (modify_in p f c) as [c'|].
    + intros [= <-]. cbn [map]. rewrite (Hc c' eq_refl). reflexivity.
    + destruct (modify_list (modify_in p f) cs) as [cs''|]; [|discriminate].
      intros [= <-]. cbn [map]. rewrite (IHcs cs'' eq_refl). reflexivity.
Qed.

Lemma skeleton_outlined u v x :
  skeleton (PreviewRuntime.mark (setStyle "outlineOffset" u (setStyle "outline" v x)))
  = skeleton x.
Proof. destruct x; reflexivity. Qed.



Lemma unset_outline (s : gmap string string) u v :
  s !! "outline" = None -> s !! "outlineOffset" = None ->
  style_set "outlineOffset" ""
    (style_set "outline" "" (style_set "outlineOffset" u (style_set "outline" v s))) = s.
Proof.
  intros Ho Hoo. apply map_eq. intros q.
  destruct (decide (q = "outlineOffset")) as [->|Hq1].
  - rewrite Hoo. unfold style_set at 1. cbn. apply lookup_delete_eq.
  - rewrite (lookup_style_set_ne "outlineOffset" q) by congruence.
    destruct (decide (q = "outline")) as [->|Hq2].
    + rewrite Ho. unfold style_set at 1. cbn. apply lookup_delete_eq.
    + rewrite !lookup_style_set_ne by congruence. reflexivity.
Qed.

Lemma clearHighlight_modified sectionId n :
  highlights n = 0%nat ->
  (forall el, find_in (PreviewRuntime.is_section sectionId) n = Some el ->
              styleOf el !! "outline" = None /\ styleOf el !! "outlineOffset" = None) ->
  PreviewRuntime.clearHighlight
    (modified (PreviewRuntime.is_section sectionId)
       (fun el => PreviewRuntime.mark
                    (setStyle "outlineOffset" "-2px"
                       (setStyle "outline" "2px solid rgba(59, 130, 246, 0.5)" el))) n)
  = n.
Proof.
  induction n as [d | t a s l h cs IH] using Node_induction; intros Hzero Hstyle;
    [reflexivity|].
  destruct (PreviewRuntime.is_section sectionId (Element t a s l h cs)) eqn:Ep.
  - rewrite modified_match by exact Ep.
    destruct (Hstyle (Element t a s l h cs)) as [Ho Hoo]; [cbn [find_in]; rewrite Ep; reflexivity|].
    pose proof (clearHighlight_unmarked _ Hzero) as Hsame.
    apply highlights_children in Hzero as [-> Hcs].
    cbn [setStyle PreviewRuntime.mark PreviewRuntime.clearHighlight].
    cbn [PreviewRuntime.clearHighlight] in Hsame. injection Hsame as Hsame. rewrite Hsame.
    cbn [styleOf] in Ho, Hoo. rewrite (unset_outline s _ _ Ho Hoo). reflexivity.
  - rewrite modified_Element by exact Ep.
    cbn [find_in] in Hstyle. rewrite Ep in Hstyle.
    apply highlights_children in Hzero as [-> Hcs]. cbn [PreviewRuntime.clearHighlight].
    f_equal. clear Ep. induction IH as [|c cs Hc _ IHcs]; [reflexivity|].
    apply Forall_cons in Hcs as [H1 H2]. rewrite modified_list_cons.
    destruct (found (PreviewRuntime.is_section sectionId) c) eqn:Ec; cbn [map].
    + rewrite Hc; [|exact H1|].
      * f_equal. clear -H2. induction H2 as [|x xs Hx _ IHxs]; [reflexivity|].
        cbn [map]. rewrite (clearHighlight_unmarked _ Hx), IHxs. reflexivity.
      * intros el Hel. apply Hstyle. cbn. rewrite Hel. reflexivity.
    + rewrite (clearHighlight_unmarked _ H1). f_equal. apply IHcs; [exact H2|].
      intros el Hel. apply Hstyle. cbn. unfold found in Ec.
      destruct (find_in (PreviewRuntime.is_section sectionId) c); [discriminate|]. exact Hel.
Qed.



(** ** Theme variables *)

Section SetProperties.
Context {X : Type}.
Variable val : string * X -> JsValue.

Lemma setProperty_fold vars t a s l h cs :
  fold_left (fun d v => PreviewRuntime.setProperty (fst v) (val v) d) vars
            (Element t a s l h cs)
  = Element t a (fold_left (setVar val) vars s) l h cs.
Proof.
  revert s. induction vars as [|v vars IH]; intros s; [reflexivity|].
  cbn [fold_left]. unfold PreviewRuntime.setProperty at 2, setVar at 2.
  destruct (truthy (val v)); cbn [setStyle]; apply IH.
Qed.

Lemma setVar_other vars s p : p ∉ map fst vars -> fold_left (setVar val) vars s !! p = s !! p.
Proof.
  revert s. induction vars as [|v vars IH]; intros s Hp; [reflexivity|].
  cbn [map] in Hp. apply not_elem_of_cons in Hp as [Hne Hp].
  cbn [fold_left]. rewrite (IH _ Hp). unfold setVar.
  destruct (truthy (val v)); [|reflexivity]. apply lookup_style_set_ne. congruence.
Qed.

Lemma setVar_member vars s v :
  NoDup (map fst vars) -> v ∈ vars ->
  fold_left (setVar val) vars s !! fst v
  = if truthy (val v) then style_set (fst v) (js_String (val v)) s !! fst v else s !! fst v.
Proof.
  revert s. induction vars as [|v0 vars IH]; intros s Hnd Hv; [inversion Hv|].
  cbn [map] in Hnd. apply NoDup_cons in Hnd as [Hfresh Hnd].
  apply elem_of_cons in Hv as [->|Hv]; cbn [fold_left].
  - rewrite (setVar_other _ _ _ Hfresh). unfold setVar.
    destruct (truthy (val v0)); reflexivity.
  - rewrite (IH _ Hnd Hv).
    assert (Hne : fst v0 <> fst v).
    { intros E. apply Hfresh. rewrite E. apply list_elem_of_fmap. exists v. split; auto. }
    unfold setVar at 1 2.
    destruct (truthy (val v0)), (truthy (val v));
      unfold style_set; repeat case_bool_decide;
      rewrite ?lookup_delete_eq, ?lookup_insert_eq, ?lookup_delete_ne, ?lookup_insert_ne,
              ?lookup_delete_ne, ?lookup_insert_ne by congruence; reflexivity.
Qed.

Lemma setVar_twice vars s :
  NoDup (map fst vars) ->
  fold_left (setVar val) vars (fold_left (setVar val) vars s) = fold_left (setVar val) vars s.
Proof.
  intros Hnd. apply map_eq. intros p.
  destruct (decide (p ∈ map fst vars)) as [Hp|Hp].
  - apply list_elem_of_fmap in Hp as (v & -> & Hv).
    rewrite (setVar_member vars (fold_left (setVar val) vars s) v Hnd Hv).
    rewrite (setVar_member vars s v Hnd Hv).
    destruct (truthy (val v)); [|reflexivity].
    unfold style_set. case_bool_decide;
      rewrite ?lookup_delete_eq, ?lookup_insert_eq; reflexivity.
  - apply setVar_other, Hp.
Qed.

End SetProperties.

Lemma applyThemeCssVars_fold themeData doc :
  PreviewRuntime.applyThemeCssVars themeData doc
  = fold_left (fun d v => PreviewRuntime.setProperty (fst v)
                            (themeValue themeData (fst (snd v)) (snd (snd v))) d)
              themeVars doc.
Proof. reflexivity. Qed.

Lemma themeVars_NoDup : NoDup (map fst themeVars).
Proof. refine (bool_decide_unpack _ _). vm_compute. exact I. Qed.

(** X6: applying a theme writes the nine custom properties of the root
    element and nothing else.  Each of them takes the text of its theme
    value when that value is truthy and keeps what it had otherwise; every
    other declaration, the attributes, the listeners and the children of
    the root stay.  Applying the same theme again changes nothing, and the
    copy of the function in the injector does the same as the one in the
    preview runtime. *)
Theorem theme_variables (themeData : JsValue) t a s l h cs :
  exists s',
    PreviewRuntime.applyThemeCssVars themeData (Element t a s l h cs) = Element t a s' l h cs
    /\ (forall name group key,
           (name, (group, key)) ∈ themeVars ->
           style_get name s'
           = if truthy (themeValue themeData group key)
             then js_String (themeValue themeData group key)
             else style_get name s)
    /\ (forall p, p ∉ map fst themeVars -> s' !! p = s !! p)
    /\ PreviewRuntime.applyThemeCssVars themeData (Element t a s' l h cs)
       = Element t a s' l h cs
    /\ ManifestInjector.applyThemeCssVars themeData (Element t a s l h cs)
       = Element t a s' l h cs.
Proof.
  eexists. split; [rewrite applyThemeCssVars_fold; apply setProperty_fold|].
  split; [|split; [|split]].
  - intros name group key Hin. unfold style_get.
    rewrite (setVar_member _ themeVars s (name, (group, key)) themeVars_NoDup Hin).
    cbn [fst snd]. destruct (truthy (themeValue themeData group key)); [|reflexivity].
    apply style_get_set.
  - intros p Hp. apply setVar_other, Hp.
  - rewrite applyThemeCssVars_fold, setProperty_fold. f_equal.
    apply setVar_twice, themeVars_NoDup.
  - change (ManifestInjector.applyThemeCssVars themeData (Element t a s l h cs))
      with (PreviewRuntime.applyThemeCssVars themeData (Element t a s l h cs)).
    rewrite applyThemeCssVars_fold. apply setProperty_fold.
Qed.

(** ** Binding *)

Lemma has_attr_insert_ne a b v t (at_ : gmap string string) s l h cs s' l' h' cs' :
  a <> b ->
  has_attr a (Element t (<[b := v]> at_) s' l' h' cs') = has_attr a (Element t at_ s l h cs).
Proof.
  intros Hne. unfold has_attr. cbn [getAttribute]. rewrite lookup_insert_ne by congruence.
  reflexivity.
Qed.

Lemma bindInline_images b n :
  PreviewRuntime.setupImageClickHandlers (PreviewRuntime.bindInline b n)
  = PreviewRuntime.bindInline b (PreviewRuntime.setupImageClickHandlers n).
Proof.
  revert b. induction n as [d | t a s l h cs IH] using Node_induction; intros b;
    [reflexivity|].
  assert (Hcs : forall i, map PreviewRuntime.setupImageClickHandlers
                            (map (PreviewRuntime.bindInline i) cs)
                          = map (PreviewRuntime.bindInline i)
                              (map PreviewRuntime.setupImageClickHandlers cs)).
  { intros i. induction IH as [|c cs Hc _ IHcs]; [reflexivity|].
    cbn [map]. rewrite Hc, IHcs. reflexivity. }
  cbn [PreviewRuntime.bindInline PreviewRuntime.setupImageClickHandlers].
  unfold PreviewRuntime.is_list_item, has_attr. cbn [getAttribute].
  destruct (bool_decide (t = "img")) eqn:Et, (a !! "data-dr-field") eqn:Ef,
           (a !! "data-dr-list-item") eqn:Ei, b;
    cbn [andb orb negb PreviewRuntime.bindInline PreviewRuntime.setupImageClickHandlers];
    unfold PreviewRuntime.is_list_item, has_attr; cbn [getAttribute];
    rewrite ?lookup_insert_ne by discriminate; rewrite ?Et, ?Ef, ?Ei;
    cbn [andb orb negb]; rewrite Hcs; reflexivity.
Qed.

(** X7: the two bindings made when the runtime starts do not interfere:
    binding the image handlers after the inline editing gives the same
    page as binding them before it. *)
Theorem bindings_commute (doc : Node) :
  PreviewRuntime.setupImageClickHandlers (PreviewRuntime.setupInlineEditing doc)
  = PreviewRuntime.setupInlineEditing (PreviewRuntime.setupImageClickHandlers doc).
Proof. apply bindInline_images. Qed.

Lemma bindInline_inside n : PreviewRuntime.bindInline true n = n.
Proof.
  induction n as [d | t a s l h cs IH] using Node_induction; [reflexivity|].
  cbn [PreviewRuntime.bindInline orb negb]. rewrite andb_false_r. f_equal.
  induction IH as [|c cs Hc _ IHcs]; [reflexivity|]. cbn [map]. rewrite Hc, IHcs. reflexivity.
Qed.

Lemma bindInline_item b n :
  b || PreviewRuntime.is_list_item n = true -> PreviewRuntime.bindInline b n = n.
Proof.
  intros H. destruct n as [d | t a s l h cs]; [reflexivity|].
  cbn [PreviewRuntime.bindInline]. rewrite H. cbn [negb]. rewrite andb_false_r. f_equal.
  clear H. induction cs as [|c cs IH]; [reflexivity|]. cbn [map].
  rewrite bindInline_inside, IH. reflexivity.
Qed.

Lemma children_bindInline b n :
  children (PreviewRuntime.bindInline b n)
  = map (PreviewRuntime.bindInline (b || PreviewRuntime.is_list_item n)) (children n).
Proof.
  destruct n as [d | t a s l h cs]; [reflexivity|]. cbn [PreviewRuntime.bindInline].
  destruct (_ && _); reflexivity.
Qed.

Lemma existsb_chain p i path n c :
  children n !! i = Some c ->
  existsb p (chain (i :: path) n) = p n || existsb p (chain path c).
Proof. intros H. cbn [chain]. rewrite H. reflexivity. Qed.

Lemma find_last {A} (p : A -> bool) (l : list A) (x : A) :
  List.find p (l ++ [x])
  = match List.find p l with Some y => Some y | None => if p x then Some x else None end.
Proof.
  induction l as [|y l IH]; [reflexivity|]. cbn [app List.find].
  destruct (p y); [reflexivity|exact IH].
Qed.

Lemma closest_existsb p path doc :
  existsb p (chain path doc) = match closest p path doc with Some _ => true | None => false end.
Proof.
  unfold closest. generalize (chain path doc) as l. intros l.
  induction l as [|x l IH]; [reflexivity|].
  cbn [existsb rev]. rewrite find_last, IH.
  destruct (List.find p (rev l)); [apply orb_true_r|].
  destruct (p x); reflexivity.
Qed.

Lemma node_at_bindInline_inside path n b x :
  node_at path n = Some x ->
  b || existsb PreviewRuntime.is_list_item (chain path n) = true ->
  node_at path (PreviewRuntime.bindInline b n) = Some x.
Proof.
  revert n b. induction path as [|i path IH]; intros n b Hx Hin.
  - cbn [node_at] in *. injection Hx as <-. cbn [chain existsb] in Hin.
    rewrite orb_false_r in Hin. rewrite (bindInline_item _ _ Hin). reflexivity.
  - cbn [node_at] in *. rewrite children_bindInline, list_lookup_fmap.
    destruct (children n !! i) as [c|] eqn:Ec; [|discriminate]. cbn [fmap option_fmap option_map].
    apply IH; [exact Hx|]. rewrite (existsb_chain _ _ _ _ _ Ec) in Hin.
    rewrite orb_assoc in Hin. exact Hin.
Qed.

Lemma node_at_bindInline_outside path n b x :
  node_at path n = Some x ->
  b || existsb PreviewRuntime.is_list_item (chain path n) = false ->
  node_at path (PreviewRuntime.bindInline b n) = Some (PreviewRuntime.bindInline false x)
  /\ PreviewRuntime.is_list_item x = false.
Proof.
  revert n b. induction path as [|i path IH]; intros n b Hx Hout.
  - cbn [node_at] in *. injection Hx as <-. cbn [chain existsb] in Hout.
    rewrite orb_false_r in Hout. apply orb_false_elim in Hout as [-> Hn]. split; [reflexivity|].
    exact Hn.
  - cbn [node_at] in *. rewrite children_bindInline, list_lookup_fmap.
    destruct (children n !! i) as [c|] eqn:Ec; [|discriminate]. cbn [fmap option_fmap option_map].
    apply IH; [exact Hx|]. rewrite (existsb_chain _ _ _ _ _ Ec) in Hout.
    rewrite orb_assoc in Hout. exact Hout.
Qed.

(** X8: what [setupInlineEditing] binds.  An element inside a list item,
    the item included, is left exactly as it is, with everything below
    it.  Outside list items, a field element that is not an image becomes
    editable, gets the text cursor and no outline, and receives the three
    listeners after the ones it has; an image or an element that is no
    field keeps its attributes, style and listeners. *)
Theorem inline_editing_scope (doc : Node) (path : Path) (el : Node) :
  node_at path doc = Some el ->
  exists el',
    node_at path (PreviewRuntime.setupInlineEditing doc) = Some el'
    /\ (closest PreviewRuntime.is_list_item path doc <> None -> el' = el)
    /\ (closest PreviewRuntime.is_list_item path doc = None ->
        has_attr "data-dr-field" el = true -> tagOf el <> "img" ->
        getAttribute "contenteditable" el' = Some "true"
        /\ style_get "cursor" (styleOf el') = "text"
        /\ style_get "outline" (styleOf el') = "none"
        /\ PreviewRuntime.listenersOf el'
           = (PreviewRuntime.listenersOf el ++ [InlineFocus; InlineBlur; InlineInput])%list)
    /\ (has_attr "data-dr-field" el = false \/ tagOf el = "img" ->
        attrsOf el' = attrsOf el /\ styleOf el' = styleOf el
        /\ PreviewRuntime.listenersOf el' = PreviewRuntime.listenersOf el).
Proof.
  intros Hel. unfold PreviewRuntime.setupInlineEditing.
  pose proof (closest_existsb PreviewRuntime.is_list_item path doc) as Hc.
  destruct (existsb PreviewRuntime.is_list_item (chain path doc)) eqn:Ein.
  - exists el. split; [apply node_at_bindInline_inside; [exact Hel|rewrite Ein; reflexivity]|].
    split; [reflexivity|]. split; [|intros _; repeat split; reflexivity].
    intros Hnone. rewrite Hnone in Hc. discriminate Hc.
  - destruct (node_at_bindInline_outside path doc false el Hel) as [Hat Hitem];
      [rewrite Ein; reflexivity|].
    exists (PreviewRuntime.bindInline false el). split; [exact Hat|].
    split; [|split].
    + intros Hsome. destruct (closest PreviewRuntime.is_list_item path doc);
        [discriminate Hc|contradiction].
    + intros _ Hfield Htag. destruct el as [d | t a s l h cs]; [discriminate Hfield|].
      cbn [PreviewRuntime.bindInline orb]. rewrite Hfield, Hitem.
      cbn [tagOf] in Htag. rewrite bool_decide_eq_false_2 by exact Htag.
      cbn [andb negb getAttribute styleOf PreviewRuntime.listenersOf].
      split; [apply lookup_insert_eq|]. split; [apply style_get_set|].
      split; [|reflexivity].
      unfold style_get. rewrite lookup_style_set_ne by discriminate.
      apply (style_get_set "outline" "none" s).
    + intros Hskip. destruct el as [d | t a s l h cs]; [repeat split; reflexivity|].
      cbn [PreviewRuntime.bindInline orb]. cbn [tagOf] in Hskip.
      destruct Hskip as [Hfield | ->].
      * rewrite Hfield. cbn [andb]. repeat split; reflexivity.
      * rewrite bool_decide_eq_true_2 by reflexivity. cbn [negb]. rewrite andb_false_r.
        cbn [andb]. repeat split; reflexivity.
Qed.

Lemma inline_editing_scope_witness :
  node_at [0; 0; 0]%nat heroPage
  = Some (elem "h1" [("data-dr-field", "title"); ("data-dr-style", "title")] [TextNode "Hello"])
  /\ exists el',
       node_at [0; 0; 0]%nat (PreviewRuntime.setupInlineEditing heroPage) = Some el'
       /\ getAttribute "contenteditable" el' = Some "true"
       /\ PreviewRuntime.listenersOf el' = [InlineFocus; InlineBlur; InlineInput].
Proof.
  split; [reflexivity|].
  destruct (inline_editing_scope heroPage [0; 0; 0]%nat _ eq_refl)
    as (el' & Hat & _ & Hbound & _).
  exists el'. split; [exact Hat|].
  destruct Hbound as (Hce & _ & _ & Hl); [reflexivity|reflexivity|discriminate|].
  split; [exact Hce|exact Hl].
Defined.

(** ** Outbound events *)

Section NoParent.
Import PreviewRuntime.
Variable w : Window.
Hypothesis top : has_parent w = false.

Lemma sendToParent_top m st : sendToParent w m st = st.
Proof. unfold sendToParent. rewrite top. reflexivity. Qed.

Lemma report_top path messages st : report w path messages st = st.
Proof.
  unfold report. destruct (node_at path (document st)); [|reflexivity].
  destruct (getSectionId path (document st)); [|reflexivity].
  destruct (nonEmpty _); [|reflexivity].
  generalize (messages n s s0) as ms. intros ms.
  induction ms as [|m ms IH]; [reflexivity|]. cbn [fold_left]. rewrite sendToParent_top.
  exact IH.
Qed.

Lemma runListener_top l path st : posted (runListener w l path st) = posted st.
Proof. destruct l; cbn [runListener]; rewrite ?report_top; reflexivity. Qed.

Lemma runAt_top e path st : posted (fst (runAt w e path st)) = posted st.
Proof.
  unfold runAt. cbn [fst]. generalize (listenersAt e path (document st)) as ls. intros ls.
  revert st. induction ls as [|l ls IH]; intros st; [reflexivity|].
  cbn [fold_left]. rewrite IH. apply runListener_top.
Qed.

Lemma propagate_top e paths st : posted (fst (propagate w e paths st)) = posted st.
Proof.
  revert st. induction paths as [|p paths IH]; intros st; [reflexivity|].
  cbn [propagate]. destruct (snd (runAt w e p st)); [apply runAt_top|].
  rewrite IH. apply runAt_top.
Qed.

Lemma dispatchEvent_top e target st : posted (dispatchEvent w e target st) = posted st.
Proof.
  unfold dispatchEvent. destruct (node_at target (document st)); [|reflexivity].
  destruct e; try apply propagate_top.
  destruct (_ || _); [apply propagate_top|].
  unfold documentClick. destruct (closest _ _ _); rewrite ?sendToParent_top; apply propagate_top.
Qed.

Lemma run_top evs st : posted (run w evs st) = posted st.
Proof.
  revert st. induction evs as [|ev evs IH]; intros st; [reflexivity|].
  unfold run in *. cbn [fold_left]. rewrite IH.
  destruct ev as [event | e target]; cbn [step].
  - destruct (active st); [apply handleMessage_posted|reflexivity].
  - apply dispatchEvent_top.
Qed.

End NoParent.

(** X9: a page that is not embedded in another window posts nothing,
    whatever messages arrive and whatever the user does: the outbox stays
    as it was, and it is empty for a page that has just been loaded. *)
Theorem top_window_never_posts
    (w : PreviewRuntime.Window) (evs : list PreviewRuntime.Event) :
  PreviewRuntime.has_parent w = false ->
  (forall st, PreviewRuntime.posted (PreviewRuntime.run w evs st) = PreviewRuntime.posted st)
  /\ (forall preview doc,
         PreviewRuntime.posted (PreviewRuntime.run w evs (PreviewRuntime.load w preview doc))
         = []).
Proof.
  intros Htop. split; [intros st; apply run_top, Htop|].
  intros preview doc. rewrite (run_top w Htop).
  destruct (load_fresh w preview doc) as (_ & _ & ->). rewrite Htop, andb_false_r. reflexivity.
Qed.

Lemma top_window_never_posts_witness :
  PreviewRuntime.posted
    (PreviewRuntime.run
       {| PreviewRuntime.location_origin := "https://site.example";
          PreviewRuntime.has_parent := false |}
       [PreviewRuntime.UserEvent PreviewRuntime.InputEvent [0; 0; 0]%nat;
        PreviewRuntime.UserEvent PreviewRuntime.ClickEvent [0]%nat]
       (PreviewRuntime.load
          {| PreviewRuntime.location_origin := "https://site.example";
             PreviewRuntime.has_parent := false |}
          (Some "true") heroPage))
  = [].
Proof.
  exact (proj2 (top_window_never_posts
                  {| PreviewRuntime.location_origin := "https://site.example";
                     PreviewRuntime.has_parent := false |}
                  _ eq_refl) (Some "true") heroPage).
Defined.

(** ** Without the preview flag *)

Lemma unbound_node_at path n x :
  unbound n = true -> node_at path n = Some x -> PreviewRuntime.listenersOf x = [].
Proof.
  revert n. induction path as [|i path IH]; intros n Hn Hx.
  - cbn [node_at] in Hx. injection Hx as <-. destruct n as [d | t a s l h cs]; [reflexivity|].
    cbn [unbound] in Hn. apply andb_prop in Hn as [Hl _].
    apply bool_decide_eq_true_1 in Hl. exact Hl.
  - cbn [node_at] in Hx. destruct (children n !! i) as [c|] eqn:Ec; [|discriminate].
    apply (IH c); [|exact Hx]. destruct n as [d | t a s l h cs]; [discriminate Ec|].
    cbn [unbound children] in *. apply andb_prop in Hn as [_ Hcs].
    rewrite forallb_forall in Hcs. apply Hcs. apply list_elem_of_In.
    apply (list_elem_of_lookup_2 _ _ _ Ec).
Qed.

Lemma propagate_unbound w e paths st :
  unbound (PreviewRuntime.document st) = true ->
  PreviewRuntime.propagate w e paths st = (st, false).
Proof.
  intros Hst. induction paths as [|p paths IH]; [reflexivity|].
  cbn [PreviewRuntime.propagate]. unfold PreviewRuntime.runAt, PreviewRuntime.listenersAt.
  destruct (node_at p (PreviewRuntime.document st)) as [x|] eqn:Ex.
  - rewrite (unbound_node_at _ _ _ Hst Ex). cbn. exact IH.
  - cbn. exact IH.
Qed.

(** X10: without [?preview=true] the module does nothing: on a page that
    carries no listener of the runtime, no message and no user event
    changes the document, the parent origin, the outbox or the console. *)
Theorem inert_without_preview_flag
    (w : PreviewRuntime.Window) (preview : option string) (doc : Node)
    (evs : list PreviewRuntime.Event) :
  preview <> Some "true" ->
  unbound doc = true ->
  PreviewRuntime.run w evs (PreviewRuntime.load w preview doc) = PreviewRuntime.initial doc.
Proof.
  intros Hflag Hdoc. unfold PreviewRuntime.load.
  rewrite bool_decide_eq_false_2 by exact Hflag.
  induction evs as [|ev evs IH]; [reflexivity|].
  unfold PreviewRuntime.run in *. cbn [fold_left].
  replace (PreviewRuntime.step w (PreviewRuntime.initial doc) ev)
    with (PreviewRuntime.initial doc); [exact IH|].
  destruct ev as [event | e target]; [reflexivity|].
  cbn [PreviewRuntime.step]. unfold PreviewRuntime.dispatchEvent.
  destruct (node_at target _); [|reflexivity].
  rewrite (propagate_unbound w e _ (PreviewRuntime.initial doc) Hdoc). destruct e; reflexivity.
Qed.

Lemma inert_without_preview_flag_witness :
  unbound heroPage = true
  /\ PreviewRuntime.run editor
       [PreviewRuntime.Message
          {| PreviewRuntime.origin := "https://admin.example";
             PreviewRuntime.data := Some (PreviewRuntime.SectionToggle "hero" false) |};
        PreviewRuntime.UserEvent PreviewRuntime.ClickEvent [0]%nat]
       (PreviewRuntime.load editor None heroPage)
     = PreviewRuntime.initial heroPage.
Proof.
  split; [reflexivity|].
  apply (inert_without_preview_flag editor None heroPage); [discriminate|reflexivity].
Defined.

(** ** Clicks *)

Section Clicks.
Import PreviewRuntime.
Variable w : Window.

Lemma posts_refl P st : posts P st st.
Proof. exists []. rewrite app_nil_r. split; [destruct st; reflexivity|constructor]. Qed.

Lemma posts_trans P st1 st2 st3 : posts P st1 st2 -> posts P st2 st3 -> posts P st1 st3.
Proof.
  intros (new1 & -> & F1) (new2 & -> & F2). exists (new1 ++ new2)%list.
  cbn [document _parentOrigin posted scrolled console dispatched active].
  rewrite app_assoc. split; [reflexivity|]. apply Forall_app; split; assumption.
Qed.

Lemma sendToParent_posts (P : IframeToParentMessage -> bool) m st :
  P m = true -> posts P st (sendToParent w m st).
Proof.
  intros Hm. unfold sendToParent. destruct (has_parent w); [|apply posts_refl].
  exists [(m, _parentOrigin st)]. split; [reflexivity|]. constructor; [exact Hm|constructor].
Qed.

Lemma report_posts (P : IframeToParentMessage -> bool) path messages st :
  (forall el sectionId field, Forall (fun m => P m = true) (messages el sectionId field)) ->
  posts P st (report w path messages st).
Proof.
  intros Hms. unfold report. destruct (node_at path (document st)); [|apply posts_refl].
  destruct (getSectionId path (document st)); [|apply posts_refl].
  destruct (nonEmpty _); [|apply posts_refl].
  specialize (Hms n s s0). revert st. induction Hms as [|m ms Hm _ IH]; intros st.
  - apply posts_refl.
  - cbn [fold_left]. eapply posts_trans; [apply sendToParent_posts, Hm|apply IH].
Qed.

Lemma click_listeners path doc :
  Forall (fun l => l = ImageClick) (listenersAt ClickEvent path doc).
Proof.
  unfold listenersAt. destruct (node_at path doc) as [x|]; [|constructor].
  apply Forall_forall. intros l Hl. apply list_elem_of_filter in Hl as [Hl _].
  destruct l; try discriminate Hl. reflexivity.
Qed.

Lemma runAt_click path st : posts fromImage st (fst (runAt w ClickEvent path st)).
Proof.
  unfold runAt. cbn [fst]. pose proof (click_listeners path (document st)) as Hls.
  revert Hls. generalize (listenersAt ClickEvent path (document st)) as ls. intros ls Hls.
  revert st. induction Hls as [|l ls -> _ IH]; intros st; [apply posts_refl|].
  cbn [fold_left]. eapply posts_trans; [|apply IH].
  cbn [runListener]. apply report_posts.
  intros el sectionId field. repeat constructor.
Qed.

Lemma propagate_click paths st : posts fromImage st (fst (propagate w ClickEvent paths st)).
Proof.
  revert st. induction paths as [|p paths IH]; intros st; [apply posts_refl|].
  cbn [propagate]. destruct (snd (runAt w ClickEvent p st)); [apply runAt_click|].
  eapply posts_trans; [apply runAt_click|apply IH].
Qed.

Lemma propagate_none e paths st :
  Forall (fun q => listenersAt e q (document st) = []) paths ->
  propagate w e paths st = (st, false).
Proof.
  intros H. induction H as [|q paths Hq _ IH]; [reflexivity|].
  cbn [propagate]. unfold runAt. rewrite Hq. cbn. exact IH.
Qed.

End Clicks.

Lemma bubble_chain target doc :
  Forall (fun q => forall x, node_at q doc = Some x -> x ∈ chain target doc)
         (bubble_paths target).
Proof.
  revert doc. induction target as [|i target IH]; intros doc.
  - constructor; [|constructor]. intros x Hx. cbn in Hx. injection Hx as <-.
    apply list_elem_of_here.
  - cbn [bubble_paths]. apply Forall_app. split.
    + apply Forall_map. cbn [chain node_at].
      destruct (children doc !! i) as [c|] eqn:Ec.
      * eapply Forall_impl; [apply (IH c)|]. intros q Hq x Hx. cbn [node_at] in Hx.
        rewrite ?Ec in Hx. apply list_elem_of_further, Hq, Hx.
      * apply Forall_forall. intros q _ x Hx. cbn [node_at] in Hx. rewrite ?Ec in Hx.
        discriminate Hx.
    + constructor; [|constructor]. intros x Hx. cbn in Hx. injection Hx as <-.
      apply list_elem_of_here.
Qed.

(** X11: what a click sends.  A click on a field element or inside one
    posts only what an image field posts, a selection and a replace
    request, and leaves the document alone.  A click outside every field
    element, on an active page and with no image listener between the
    target and the root, posts exactly one [deselect]. *)
Theorem click_reports (w : PreviewRuntime.Window) (target : Path) (st : PreviewRuntime.State) :
  (closest (has_attr "data-dr-field") target (PreviewRuntime.document st) <> None ->
   posts fromImage st (PreviewRuntime.dispatchEvent w PreviewRuntime.ClickEvent target st))
  /\ (closest (has_attr "data-dr-field") target (PreviewRuntime.document st) = None ->
      node_at target (PreviewRuntime.document st) <> None ->
      PreviewRuntime.active st = true ->
      existsb imageBound (chain target (PreviewRuntime.document st)) = false ->
      PreviewRuntime.dispatchEvent w PreviewRuntime.ClickEvent target st
      = PreviewRuntime.sendToParent w PreviewRuntime.Deselect st).
Proof.
  unfold PreviewRuntime.dispatchEvent. split.
  - intros Hfield. destruct (node_at target _); [|apply posts_refl].
    pose proof (propagate_click w (bubble_paths target) st) as Hp. cbn [PreviewRuntime.bubbles].
    destruct (_ || _); [exact Hp|]. unfold PreviewRuntime.documentClick.
    destruct Hp as (new & Hst & Hnew). rewrite Hst at 1. cbn [PreviewRuntime.document].
    destruct (closest _ _ _); [|contradiction]. exists new. split; assumption.
  - intros Hfield Htarget Hactive Hbound.
    destruct (node_at target _); [|contradiction]. cbn [PreviewRuntime.bubbles].
    rewrite propagate_none.
    + cbn [fst snd]. rewrite Hactive. cbn [negb orb]. unfold PreviewRuntime.documentClick.
      rewrite Hfield. reflexivity.
    + eapply Forall_impl; [apply (bubble_chain target (PreviewRuntime.document st))|].
      intros q Hq. unfold PreviewRuntime.listenersAt.
      destruct (node_at q _) as [x|] eqn:Ex; [|reflexivity].
      specialize (Hq x Ex). apply list_elem_of_In in Hq.
      assert (Hx : imageBound x = false).
      { destruct (imageBound x) eqn:E; [|reflexivity].
        rewrite <- Hbound. symmetry. apply existsb_exists. exists x. split; assumption. }
      unfold imageBound in Hx. clear -Hx.
      induction (PreviewRuntime.listenersOf x) as [|l ls IH]; [reflexivity|].
      cbn [existsb] in Hx. apply orb_false_elim in Hx as [Hl Hls].
      rewrite filter_cons. destruct (decide _) as [E|E]; [congruence|]. apply IH, Hls.
Qed.

Lemma click_reports_witness :
  closest (has_attr "data-dr-field") [0]%nat
    (PreviewRuntime.document (PreviewRuntime.load editor (Some "true") heroPage)) = None
  /\ PreviewRuntime.dispatchEvent editor PreviewRuntime.ClickEvent [0]%nat
       (PreviewRuntime.load editor (Some "true") heroPage)
     = PreviewRuntime.sendToParent editor PreviewRuntime.Deselect
         (PreviewRuntime.load editor (Some "true") heroPage).
Proof.
  split; [reflexivity|].
  apply (proj2 (click_reports editor [0]%nat
                  (PreviewRuntime.load editor (Some "true") heroPage)));
    [reflexivity | discriminate | reflexivity | reflexivity].
Defined.

(** ** Elements outside every section *)

Lemma children_skeleton n : children (skeleton n) = map skeleton (children n).
Proof. destruct n; reflexivity. Qed.

Lemma getAttribute_skeleton a n : getAttribute a (skeleton n) = getAttribute a n.
Proof. destruct n; reflexivity. Qed.

Lemma chain_skeleton path n : chain path (skeleton n) = map skeleton (chain path n).
Proof.
  revert n. induction path as [|i path IH]; intros n; [reflexivity|].
  cbn [chain map]. f_equal. rewrite children_skeleton, list_lookup_fmap.
  destruct (children n !! i) as [c|]; [|reflexivity]. cbn. apply IH.
Qed.

Lemma existsb_skeleton a path n :
  existsb (has_attr a) (chain path (skeleton n)) = existsb (has_attr a) (chain path n).
Proof.
  rewrite chain_skeleton. induction (chain path n) as [|x l IH]; [reflexivity|].
  cbn [map existsb]. rewrite IH. unfold has_attr. rewrite getAttribute_skeleton. reflexivity.
Qed.

Lemma skeleton_modify_at path f n :
  (forall x, skeleton (f x) = skeleton x) -> skeleton (modify_at path f n) = skeleton n.
Proof.
  intros Hf. revert n. induction path as [|i path IH]; intros n; [apply Hf|].
  cbn [modify_at]. destruct n as [d | t a s l h cs]; [reflexivity|].
  cbn [set_children children skeleton]. f_equal.
  revert i. induction cs as [|c cs IHcs]; intros i; [reflexivity|].
  destruct i as [|i]; cbn [alter list_alter map]; [rewrite IH; reflexivity|].
  f_equal. apply IHcs.
Qed.

Lemma skeleton_setStyle p v x : skeleton (setStyle p v x) = skeleton x.
Proof. destruct x; reflexivity. Qed.

Lemma existsb_bubble p target n :
  existsb p (chain target n) = false ->
  Forall (fun q => existsb p (chain q n) = false) (bubble_paths target).
Proof.
  revert n. induction target as [|i target IH]; intros n H.
  - constructor; [exact H|constructor].
  - cbn [bubble_paths]. cbn [chain existsb] in H. apply orb_false_elim in H as [Hn Hrest].
    apply Forall_app. split; [|constructor; [cbn; rewrite Hn; reflexivity|constructor]].
    apply Forall_map. destruct (children n !! i) as [c|] eqn:Ec.
    + eapply Forall_impl; [apply (IH c Hrest)|]. intros q Hq. cbn [chain existsb].
      rewrite Ec, Hn, Hq. reflexivity.
    + apply Forall_forall. intros q _. cbn [chain existsb]. rewrite Ec, Hn. reflexivity.
Qed.

Section Sectionless.
Import PreviewRuntime.
Variable w : Window.

Lemma report_sectionless path messages st :
  existsb (has_attr "data-dr-section") (chain path (skeleton (document st))) = false ->
  report w path messages st = st.
Proof.
  intros H. rewrite existsb_skeleton, closest_existsb in H. unfold report, getSectionId.
  destruct (node_at path (document st)); [|reflexivity].
  destruct (closest _ _ _); [discriminate H|reflexivity].
Qed.

Lemma runListener_sectionless l path st :
  existsb (has_attr "data-dr-section") (chain path (skeleton (document st))) = false ->
  restyled st (runListener w l path st).
Proof.
  intros H. unfold restyled.
  destruct l; cbn [runListener];
    rewrite ?report_sectionless
      by (cbn [document with_document];
          rewrite ?skeleton_modify_at by (intros x; rewrite ?skeleton_setStyle; reflexivity);
          exact H);
    cbn [document with_document posted _parentOrigin];
    rewrite ?skeleton_modify_at by (intros x; rewrite ?skeleton_setStyle; reflexivity);
    repeat split; reflexivity.
Qed.

Lemma runAt_sectionless e path st :
  existsb (has_attr "data-dr-section") (chain path (skeleton (document st))) = false ->
  restyled st (fst (runAt w e path st)).
Proof.
  unfold runAt. cbn [fst]. generalize (listenersAt e path (document st)) as ls. intros ls.
  revert st. induction ls as [|l ls IH]; intros st H; [repeat split; reflexivity|].
  cbn [fold_left]. destruct (runListener_sectionless l path st H) as (Hd & Hp & Ho).
  destruct (IH (runListener w l path st)) as (Hd' & Hp' & Ho'); [rewrite Hd; exact H|].
  unfold restyled. rewrite Hd', Hp', Ho'. repeat split; assumption.
Qed.

Lemma propagate_sectionless e paths st :
  Forall (fun q => existsb (has_attr "data-dr-section")
                     (chain q (skeleton (document st))) = false) paths ->
  restyled st (fst (propagate w e paths st)).
Proof.
  intros H. revert st H. induction paths as [|q paths IH]; intros st H;
    [repeat split; reflexivity|].
  apply Forall_cons in H as [Hq H]. cbn [propagate].
  destruct (runAt_sectionless e q st Hq) as (Hd & Hp & Ho).
  destruct (snd (runAt w e q st)); [repeat split; assumption|].
  destruct (IH (fst (runAt w e q st))) as (Hd' & Hp' & Ho'); [rewrite Hd; exact H|].
  unfold restyled. rewrite Hd', Hp', Ho'. repeat split; assumption.
Qed.

End Sectionless.

(** X12: an element outside every section reports nothing.  Whatever
    listeners it and its ancestors carry, an event on it posts no selection
    and no edit; the only thing that can follow is the [deselect] of a
    click. *)
Theorem outside_sections_nothing_reported
    (w : PreviewRuntime.Window) (e : PreviewRuntime.EventType) (target : Path)
    (st : PreviewRuntime.State) :
  closest (has_attr "data-dr-section") target (PreviewRuntime.document st) = None ->
  PreviewRuntime.posted (PreviewRuntime.dispatchEvent w e target st) = PreviewRuntime.posted st
  \/ (e = PreviewRuntime.ClickEvent
      /\ PreviewRuntime.posted (PreviewRuntime.dispatchEvent w e target st)
         = (PreviewRuntime.posted st
            ++ [(PreviewRuntime.Deselect, PreviewRuntime._parentOrigin st)])%list).
Proof.
  intros Hout.
  assert (Hchain : existsb (has_attr "data-dr-section")
                     (chain target (skeleton (PreviewRuntime.document st))) = false)
    by (rewrite existsb_skeleton, closest_existsb, Hout; reflexivity).
  unfold PreviewRuntime.dispatchEvent.
  destruct (node_at target _); [|left; reflexivity].
  assert (Hp : forall paths,
             Forall (fun q => existsb (has_attr "data-dr-section")
                                (chain q (skeleton (PreviewRuntime.document st))) = false)
                    paths ->
             PreviewRuntime.posted (fst (PreviewRuntime.propagate w e paths st))
             = PreviewRuntime.posted st
             /\ PreviewRuntime._parentOrigin (fst (PreviewRuntime.propagate w e paths st))
                = PreviewRuntime._parentOrigin st).
  { intros paths H. destruct (propagate_sectionless w e paths st H) as (_ & H1 & H2).
    split; assumption. }
  assert (Hpaths : Forall (fun q => existsb (has_attr "data-dr-section")
                                      (chain q (skeleton (PreviewRuntime.document st))) = false)
                     (if PreviewRuntime.bubbles e then bubble_paths target else [target])).
  { destruct (PreviewRuntime.bubbles e); [apply existsb_bubble, Hchain|].
    constructor; [exact Hchain|constructor]. }
  destruct (Hp _ Hpaths) as [Hposted Horigin].
  destruct e; cbn [PreviewRuntime.bubbles] in *; try (left; exact Hposted).
  destruct (_ || _); [left; exact Hposted|].
  unfold PreviewRuntime.documentClick.
  destruct (closest (has_attr "data-dr-field") _ _); [left; exact Hposted|].
  unfold PreviewRuntime.sendToParent. destruct (PreviewRuntime.has_parent w);
    [|left; exact Hposted].
  right. split; [reflexivity|]. cbn [PreviewRuntime.posted PreviewRuntime.post].
  rewrite Hposted, Horigin. reflexivity.
Qed.

Lemma outside_sections_nothing_reported_witness :
  closest (has_attr "data-dr-section") [0]%nat
    (PreviewRuntime.document (PreviewRuntime.load editor (Some "true") heroPage)) = None
  /\ (PreviewRuntime.posted
        (PreviewRuntime.dispatchEvent editor PreviewRuntime.InputEvent [0]%nat
           (PreviewRuntime.load editor (Some "true") heroPage))
      = PreviewRuntime.posted (PreviewRuntime.load editor (Some "true") heroPage)
      \/ (PreviewRuntime.InputEvent = PreviewRuntime.ClickEvent
          /\ PreviewRuntime.posted
               (PreviewRuntime.dispatchEvent editor PreviewRuntime.InputEvent [0]%nat
                  (PreviewRuntime.load editor (Some "true") heroPage))
             = (PreviewRuntime.posted (PreviewRuntime.load editor (Some "true") heroPage)
                ++ [(PreviewRuntime.Deselect,
                     PreviewRuntime._parentOrigin
                       (PreviewRuntime.load editor (Some "true") heroPage))])%list)).
Proof.
  split; [reflexivity|].
  apply (outside_sections_nothing_reported editor PreviewRuntime.InputEvent [0]%nat
           (PreviewRuntime.load editor (Some "true") heroPage)).
  reflexivity.
Defined.

(** * Further properties of the appliers *)

(** ** Reading a field back *)

Lemma textContent_setTextContent v t a s l h cs :
  textContent (setTextContent v (Element t a s l h cs)) = v.
Proof.
  unfold setTextContent. case_bool_decide as Hv; cbn; [symmetry; exact Hv|].
  destruct v; reflexivity.
Qed.



(** ** What a reconciliation renders *)

Lemma renderedItems_removed n : renderedItems (remove_all PreviewRuntime.is_list_item n) = [].
Proof.
  unfold renderedItems. rewrite remove_all_children.
  destruct n as [d | t a s l h cs]; [reflexivity|]. cbn [set_children children].
  induction cs as [|c cs IH]; [reflexivity|]. cbn [flat_map].
  destruct (PreviewRuntime.is_list_item c) eqn:Ec; [exact IH|].
  cbn [app List.filter]. rewrite (p_remove_all _ is_list_item_local), Ec. exact IH.
Qed.



(** * Further properties of the remote hydration channel *)

(** ** An entry that cannot be rendered *)

Lemma forEachTry_app {A S} (body : A -> S -> S * bool) (l1 l2 : list A) (s : S) :
  forEachTry body (l1 ++ l2) s
  = if snd (forEachTry body l1 s) then forEachTry body l2 (fst (forEachTry body l1 s))
    else forEachTry body l1 s.
Proof.
  revert s. induction l1 as [|x l1 IH]; intros s; [reflexivity|].
  cbn [app forEachTry]. cbv zeta. destruct (snd (body x s)) eqn:E; [apply IH|].
  rewrite E. reflexivity.
Qed.

Lemma injector_fillItem newItem itemData :
  nullish itemData = false ->
  ManifestInjector.fillItem (cloneNode (cloneNode newItem)) itemData
  = Some (hydratedItem newItem itemData).
Proof.
  intros H. unfold ManifestInjector.fillItem, js_entries. rewrite H, cloneNode_idem.
  reflexivity.
Qed.

Lemma injector_reconcileList pre listEl templateItem :
  querySelector PreviewRuntime.is_list_item listEl = Some templateItem ->
  Forall (fun i => nullish i = false) pre ->
  ManifestInjector.reconcileList pre listEl
  = (set_children
       (children (remove_all PreviewRuntime.is_list_item listEl)
        ++ map (hydratedItem templateItem) pre)
       (remove_all PreviewRuntime.is_list_item listEl), true).
Proof.
  intros Ht Hpre. unfold ManifestInjector.reconcileList.
  change ManifestInjector.is_list_item with PreviewRuntime.is_list_item. rewrite Ht.
  rewrite (forEachTry_total _ (fun l i => appendChild (hydratedItem templateItem i) l)).
  - rewrite fold_appendChild. reflexivity.
  - eapply Forall_impl; [exact Hpre|]. intros i Hi l. cbn beta.
    rewrite (injector_fillItem _ _ Hi). reflexivity.
Qed.

Lemma is_list_item_hydratedItem templateItem itemData :
  PreviewRuntime.is_list_item (hydratedItem templateItem itemData)
  = PreviewRuntime.is_list_item templateItem.
Proof.
  unfold hydratedItem.
  destruct (fold_left_root
              (fun it kv => modify_first (ManifestInjector.is_field (fst kv))
                              (ManifestInjector.writeItemField itemData (snd kv)) it)
              (entries itemData) (cloneNode templateItem)) as [cs ->].
  - intros x kv. apply modify_first_root.
  - rewrite is_list_item_local. apply has_attr_cloneNode.
Qed.

Lemma thread_failed p (f : Node -> Node * bool) cs :
  thread (try_outermost_in p f) cs false = (cs, false).
Proof.
  induction cs as [|c cs IH]; [reflexivity|].
  cbn [thread]. destruct c; cbn [try_outermost_in negb fst snd]; rewrite IH; reflexivity.
Qed.

Lemma try_outermost_in_not_found p (f : Node -> Node * bool) n :
  found p n = false -> try_outermost_in p f n true = (n, true).
Proof.
  induction n as [d | t a s l h cs IH] using Node_induction; rewrite found_unfold; simpl.
  - destruct (p (TextNode d)); [discriminate|reflexivity].
  - destruct (p (Element t a s l h cs)); [discriminate|]. simpl. intros H.
    assert (Hthread : thread (try_outermost_in p f) cs true = (cs, true)).
    { induction IH as [|c cs Hc _ IHcs]; [reflexivity|].
      rewrite found_list_cons in H. apply orb_false_iff in H as [H1 H2].
      cbn [thread]. rewrite (Hc H1). cbn [fst snd]. rewrite (IHcs H2). reflexivity. }
    rewrite Hthread. reflexivity.
Qed.

(** When the function throws on the first node found, the traversal ends
    there: that node is as the function left it, the rest is untouched. *)
Lemma try_outermost_in_fails p (f : Node -> Node * bool) n el :
  find_in p n = Some el -> snd (f el) = false ->
  try_outermost_in p f n true = (modified p (fun _ => fst (f el)) n, false).
Proof.
  intros Hel Hf. revert Hel.
  induction n as [d | t a s l h cs IH] using Node_induction; cbn [find_in try_outermost_in negb].
  - destruct (p (TextNode d)) eqn:E; [|discriminate]. intros [= <-].
    rewrite (modified_match _ _ _ E). destruct (f (TextNode d)); cbn [snd] in Hf; subst.
    reflexivity.
  - destruct (p (Element t a s l h cs)) eqn:E.
    + intros [= <-]. rewrite (modified_match _ _ _ E).
      destruct (f (Element t a s l h cs)); cbn [snd] in Hf; subst. reflexivity.
    + intros Hel. rewrite (modified_Element _ _ _ _ _ _ _ _ E).
      assert (Hthread : thread (try_outermost_in p f) cs true
                        = (modified_list p (fun _ => fst (f el)) cs, false)).
      { clear E. induction IH as [|c cs Hc _ IHcs]; [discriminate Hel|].
        cbn [first_some] in Hel. rewrite modified_list_cons. unfold found. cbn [thread].
        destruct (find_in p c) as [x|] eqn:Ec.
        - rewrite (Hc Hel). cbn [fst snd]. rewrite thread_failed. reflexivity.
        - rewrite (try_outermost_in_not_found p f c) by (unfold found; rewrite Ec; reflexivity).
          cbn [fst snd]. rewrite (IHcs Hel). reflexivity. }
      rewrite Hthread. reflexivity.
Qed.

Lemma try_outermost_fails p (f : Node -> Node * bool) n el :
  querySelector p n = Some el -> snd (f el) = false ->
  try_outermost p f n = (modify_first p (fun _ => fst (f el)) n, false).
Proof.
  unfold querySelector, try_outermost. intros Hel Hf. rewrite modify_first_modified.
  assert (Hthread : thread (try_outermost_in p f) (children n) true
                    = (modified_list p (fun _ => fst (f el)) (children n), false)).
  { induction (children n) as [|c cs IHcs]; [discriminate Hel|].
    cbn [first_some] in Hel. rewrite modified_list_cons. unfold found. cbn [thread].
    destruct (find_in p c) as [x|] eqn:Ec.
    - rewrite (try_outermost_in_fails p f c el) by congruence.
      cbn [fst snd]. rewrite thread_failed. reflexivity.
    - rewrite (try_outermost_in_not_found p f c) by (unfold found; rewrite Ec; reflexivity).
      cbn [fst snd]. rewrite (IHcs Hel). reflexivity. }
  rewrite Hthread. reflexivity.
Qed.

Lemma injector_updateArrayField_fails container listName items listEl :
  querySelector (ManifestInjector.is_list listName) container = Some listEl ->
  snd (ManifestInjector.reconcileList items listEl) = false ->
  ManifestInjector.updateArrayField container listName items
  = (modify_first (ManifestInjector.is_list listName)
       (fun _ => fst (ManifestInjector.reconcileList items listEl)) container, false).
Proof.
  intros Hel Hf. unfold ManifestInjector.updateArrayField.
  destruct (querySelectorAll (ManifestInjector.is_list listName) container) eqn:E.
  - apply querySelectorAll_nil in E. congruence.
  - apply try_outermost_fails; assumption.
Qed.

Lemma children_setStyle p v x : children (setStyle p v x) = children x.
Proof. destruct x; reflexivity. Qed.



(** ** Manifests that cannot be read *)

Lemma indexItems_broken items index :
  existsb nullish items = true -> foldlM ManifestInjector.indexItem items index = None.
Proof.
  revert index. induction items as [|item items IH]; intros index H; [discriminate H|].
  cbn [existsb] in H. cbn [foldlM]. unfold ManifestInjector.indexItem at 1, js_get.
  destruct (nullish item); [reflexivity|]. apply IH, H.
Qed.

Lemma indexCollections_broken cols index :
  existsb brokenCollection cols = true ->
  foldlM ManifestInjector.indexCollection cols index = None.
Proof.
  revert index. induction cols as [|col cols IH]; intros index H; [discriminate H|].
  cbn [existsb] in H. cbn [foldlM].
  destruct (ManifestInjector.indexCollection index col) as [index'|] eqn:E; [|reflexivity].
  apply orb_prop in H as [H|H]; [|apply IH, H]. exfalso.
  unfold ManifestInjector.indexCollection, js_get, brokenCollection in *.
  destruct (nullish col); [discriminate E|]. cbn [orb] in H.
  destruct (js_iter _) as [items|]; [|discriminate E].
  rewrite (indexItems_broken _ _ H) in E. discriminate E.
Qed.

Lemma findTheme_broken pre bad post :
  nullish bad = true ->
  Forall (fun s => nullish s = false
                   /\ ManifestInjector.sameValueZero (js_prop s "id") (JStr "theme") = false)
         pre ->
  ManifestInjector.findTheme (pre ++ bad :: post) = None.
Proof.
  intros Hbad Hpre. induction Hpre as [|s pre [Hs Hid] _ IH]; cbn [app ManifestInjector.findTheme].
  - unfold js_get. rewrite Hbad. reflexivity.
  - unfold js_get. rewrite Hs, Hid. exact IH.
Qed.

(** X16: a manifest that passes the shape check but cannot be read leaves
    the page untouched.  When a collection is [null], has data that
    cannot be iterated or holds a [null] item, or when a [null] section
    comes before any theme section, applying the manifest fails before
    the first change to the document, theme included. *)
Theorem malformed_manifest_untouched (manifest : JsValue) (doc : Node) :
  malformed manifest ->
  ManifestInjector.applyManifest manifest doc = (doc, false).
Proof.
  intros [Hcols | (pre & bad & post & Hsections & Hbad & Hpre)];
    unfold ManifestInjector.applyManifest.
  - unfold ManifestInjector.buildIndex.
    destruct (js_iter _) as [cols|]; [|reflexivity].
    rewrite (indexCollections_broken _ _ Hcols). reflexivity.
  - destruct (ManifestInjector.buildIndex manifest); [|reflexivity].
    rewrite Hsections, (findTheme_broken _ _ _ Hbad Hpre). reflexivity.
Qed.

Lemma malformed_manifest_untouched_witness :
  malformed (JObj [("sections", JArr [JObj [("id", JStr "hero");
                                            ("data", JObj [("title", JStr "New")])]]);
                   ("collections", JArr [JObj [("id", JStr "homes");
                                               ("data", JObj [])]])])
  /\ ManifestInjector.applyManifest
       (JObj [("sections", JArr [JObj [("id", JStr "hero");
                                       ("data", JObj [("title", JStr "New")])]]);
              ("collections", JArr [JObj [("id", JStr "homes"); ("data", JObj [])]])])
       heroPage
     = (heroPage, false).
Proof.
  assert (H : malformed
                (JObj [("sections", JArr [JObj [("id", JStr "hero");
                                                ("data", JObj [("title", JStr "New")])]]);
                       ("collections", JArr [JObj [("id", JStr "homes");
                                                   ("data", JObj [])]])]))
    by (left; reflexivity).
  split; [exact H|]. apply (malformed_manifest_untouched _ heroPage H).
Defined.

(** ** The collection index, as a whole *)

(** X17: the index of collection items.  When every collection is an
    object whose data, if any, is a list of items that are not [null], the
    index is built, and looking an id up gives the last item, over all
    collections in order, that carries this id and whose id is truthy;
    items without an id or with an empty one are never found. *)
Theorem collection_index_latest_item (manifest : JsValue) (cols : list JsValue)
    (itemss : list (list JsValue)) :
  js_iter (js_default (js_prop manifest "collections") (JArr [])) = Some cols ->
  Forall2 collectionItems cols itemss ->
  exists index,
    ManifestInjector.buildIndex manifest = Some index
    /\ forall id,
         ManifestInjector.index_get index id
         = default JUndefined
             (List.find (fun item => truthy (js_prop item "id")
                                     && ManifestInjector.sameValueZero (js_prop item "id") id)
                        (rev (concat itemss))).
Proof.
  intros Hcols Hitems. exists (rev (indexEntries (concat itemss))).
  split; [apply (buildIndex_items manifest cols itemss Hcols Hitems)|].
  intros id. apply index_get_items.
Qed.

Lemma collection_index_latest_item_witness :
  exists index,
    ManifestInjector.buildIndex
      (JObj [("collections",
              JArr [JObj [("data", JArr [JObj [("id", JStr "a"); ("name", JStr "first")];
                                         JObj [("id", JStr ""); ("name", JStr "unnamed")]])];
                    JObj [("data", JArr [JObj [("id", JStr "a"); ("name", JStr "second")]])]])])
    = Some index
    /\ ManifestInjector.index_get index (JStr "a")
       = JObj [("id", JStr "a"); ("name", JStr "second")]
    /\ ManifestInjector.index_get index (JStr "") = JUndefined.
Proof.
  destruct (collection_index_latest_item
              (JObj [("collections",
                      JArr [JObj [("data", JArr [JObj [("id", JStr "a"); ("name", JStr "first")];
                                                 JObj [("id", JStr "");
                                                       ("name", JStr "unnamed")]])];
                            JObj [("data", JArr [JObj [("id", JStr "a");
                                                       ("name", JStr "second")]])]])])
              _
              [[JObj [("id", JStr "a"); ("name", JStr "first")];
                JObj [("id", JStr ""); ("name", JStr "unnamed")]];
               [JObj [("id", JStr "a"); ("name", JStr "second")]]]
              eq_refl) as (index & Hindex & Hget).
  - repeat constructor.
  - exists index. split; [exact Hindex|]. rewrite !Hget. split; reflexivity.
Defined.

(** * Properties of the build-time reader *)

(** ** Loading *)

Lemma setById_fold l index :
  Forall (fun x => nullish x = false) l ->
  foldlM ManifestLoader.setById l index = Some (byId l ++ index)%list.
Proof.
  intros H. revert index. unfold byId.
  induction H as [|x l Hx _ IH]; intros index; [reflexivity|].
  cbn [foldlM]. unfold ManifestLoader.setById at 1, js_get. rewrite Hx. cbn.
  rewrite IH, <- app_assoc. reflexivity.
Qed.

Lemma setById_fold_inv l index index' :
  foldlM ManifestLoader.setById l index = Some index' ->
  Forall (fun x => nullish x = false) l.
Proof.
  revert index. induction l as [|x l IH]; intros index H; [constructor|].
  cbn [foldlM] in H. unfold ManifestLoader.setById at 1, js_get in H.
  destruct (nullish x) eqn:Ex; [discriminate H|]. cbn in H.
  constructor; [exact Ex|]. exact (IH _ H).
Qed.

Lemma loader_indexCollections_fold cols itemss index :
  Forall2 (fun col items => nullish col = false
                            /\ js_iter (js_prop col "data") = Some items
                            /\ Forall (fun item => nullish item = false) items)
          cols itemss ->
  foldlM ManifestLoader.indexCollection cols index = Some (byId (concat itemss) ++ index)%list.
Proof.
  intros H. revert index.
  induction H as [|col items cols itemss (Hcol & Hiter & Hitems) _ IH]; intros index;
    [reflexivity|].
  cbn [foldlM concat]. unfold ManifestLoader.indexCollection at 1, js_get.
  rewrite Hcol. cbn. rewrite Hiter. cbn. rewrite (setById_fold _ _ Hitems), IH.
  unfold byId. rewrite map_app, rev_app_distr, <- app_assoc. reflexivity.
Qed.

Lemma loader_indexCollections_inv cols index index' :
  foldlM ManifestLoader.indexCollection cols index = Some index' ->
  exists itemss,
    Forall2 (fun col items => nullish col = false
                              /\ js_iter (js_prop col "data") = Some items
                              /\ Forall (fun item => nullish item = false) items)
            cols itemss.
Proof.
  revert index. induction cols as [|col cols IH]; intros index H; [exists []; constructor|].
  cbn [foldlM] in H.
  destruct (ManifestLoader.indexCollection index col) as [index1|] eqn:E; [|discriminate H].
  destruct (IH _ H) as (itemss & Hrest).
  unfold ManifestLoader.indexCollection, js_get in E.
  destruct (nullish col) eqn:Ecol; [discriminate E|]. cbn in E.
  destruct (js_iter (js_prop col "data")) as [items|] eqn:Eiter; [|discriminate E]. cbn in E.
  exists (items :: itemss). constructor; [|exact Hrest].
  split; [exact Ecol|]. split; [exact Eiter|]. exact (setById_fold_inv _ _ _ E).
Qed.

(** A manifest loads exactly when its sections and collections are lists
    without [null], and the data of every collection is a list without
    [null]; the three maps then hold the sections, the collections and
    the items by id. *)
Lemma init_loads manifest T :
  ManifestLoader.init manifest = Some T
  <-> exists sections cols itemss,
        nullish manifest = false
        /\ loads manifest sections cols itemss
        /\ T = {| ManifestLoader.manifest := manifest;
                  ManifestLoader.sectionsMap := byId sections;
                  ManifestLoader.collections := cols;
                  ManifestLoader.collectionsMap := byId cols;
                  ManifestLoader.collectionItemIndex := byId (concat itemss) |}.
Proof.
  unfold ManifestLoader.init, ManifestLoader.mapById, js_get. split.
  - intros H. destruct (nullish manifest) eqn:Em; [discriminate H|]. cbn in H.
    destruct (js_prop manifest "sections") as [| | | | |sections|] eqn:Es; try discriminate H.
    cbn in H.
    destruct (foldlM ManifestLoader.setById sections []) as [sm|] eqn:Esm; [|discriminate H].
    cbn in H.
    destruct (js_default (js_prop manifest "collections") (JArr []))
      as [| | | | |cols|] eqn:Ec; try discriminate H.
    cbn in H.
    destruct (foldlM ManifestLoader.setById cols []) as [cm|] eqn:Ecm; [|discriminate H].
    cbn in H.
    destruct (foldlM ManifestLoader.indexCollection cols []) as [ci|] eqn:Eci;
      [|discriminate H].
    cbn in H. injection H as <-.
    pose proof (setById_fold_inv _ _ _ Esm) as Hsections.
    pose proof (setById_fold_inv _ _ _ Ecm) as Hcols.
    destruct (loader_indexCollections_inv _ _ _ Eci) as (itemss & Hitems).
    rewrite (setById_fold _ _ Hsections) in Esm. rewrite (setById_fold _ _ Hcols) in Ecm.
    rewrite (loader_indexCollections_fold _ _ _ Hitems) in Eci.
    rewrite app_nil_r in Esm, Ecm, Eci.
    injection Esm as <-. injection Ecm as <-. injection Eci as <-.
    exists sections, cols, itemss. split; [reflexivity|].
    split; [|reflexivity]. repeat split; assumption.
  - intros (sections & cols & itemss & Hm & (Hs & Hc & Hsections & Hitems) & ->).
    rewrite Hm. cbn. rewrite Hs. cbn. rewrite (setById_fold _ _ Hsections). cbn.
    rewrite Hc. cbn.
    assert (Hcols : Forall (fun x => nullish x = false) cols).
    { clear -Hitems. induction Hitems as [|col items cols itemss (H & _) _ IH]; constructor;
        assumption. }
    rewrite (setById_fold _ _ Hcols). cbn.
    rewrite (loader_indexCollections_fold _ _ _ Hitems). cbn. rewrite !app_nil_r. reflexivity.
Qed.

Lemma index_get_byId l id :
  ManifestInjector.index_get (byId l) (JStr id) = lastWithId id l.
Proof.
  unfold ManifestInjector.index_get, byId, lastWithId. rewrite <- map_rev.
  induction (rev l) as [|x r IH]; [reflexivity|]. cbn [map List.find fst snd].
  destruct (ManifestInjector.sameValueZero (js_prop x "id") (JStr id)); [reflexivity|exact IH].
Qed.

(** X18: when the reader loads.  The module initialises without an
    exception exactly when the manifest is not [null], its sections are a
    list without [null] or [undefined] entries, its collections, if any,
    are such a list too, and the data of every collection is a list, or a
    string, without [null] or [undefined] entries. *)
Theorem loader_loads_iff (manifest : JsValue) :
  ManifestLoader.init manifest <> None
  <-> nullish manifest = false
      /\ exists sections cols itemss, loads manifest sections cols itemss.
Proof.
  split.
  - intros H. destruct (ManifestLoader.init manifest) as [T|] eqn:E; [|contradiction].
    apply init_loads in E as (sections & cols & itemss & Hm & Hl & _).
    split; [exact Hm|]. exists sections, cols, itemss. exact Hl.
  - intros (Hm & sections & cols & itemss & Hl).
    erewrite (proj2 (init_loads manifest _)); [discriminate|].
    exists sections, cols, itemss. split; [exact Hm|]. split; [exact Hl|reflexivity].
Qed.

(** ** Sections and collections by id *)

Lemma findTheme_first sections :
  Forall (fun s => nullish s = false) sections ->
  ManifestInjector.findTheme sections
  = Some (List.find (fun s => ManifestInjector.sameValueZero (js_prop s "id") (JStr "theme"))
                    sections).
Proof.
  intros H. induction H as [|s sections Hs _ IH]; [reflexivity|].
  cbn [ManifestInjector.findTheme List.find]. unfold js_get. rewrite Hs.
  destruct (ManifestInjector.sameValueZero (js_prop s "id") (JStr "theme")); [reflexivity|].
  exact IH.
Qed.

(** X19: which section answers to an id.  The reader keeps, for every id,
    the last section and the last collection of the manifest that carry
    it: they decide whether the section is enabled, which theme section
    is read and which collection data is returned.  The injector reads
    the same list from the front: its theme section is the first one with
    the id [theme]. *)
Theorem loader_last_section_wins (manifest : JsValue) (T : ManifestLoader.Tables)
    (sections cols : list JsValue) (id : string) :
  ManifestLoader.init manifest = Some T ->
  js_prop manifest "sections" = JArr sections ->
  js_default (js_prop manifest "collections") (JArr []) = JArr cols ->
  ManifestLoader.isSectionEnabled T id
  = negb (ManifestInjector.sameValueZero (js_prop (lastWithId id sections) "enabled")
            (JBool false))
  /\ fst (ManifestLoader.getCollectionData T id)
     = (if truthy (lastWithId id cols) then js_prop (lastWithId id cols) "data" else JArr [])
  /\ (truthy (js_prop (lastWithId "theme" sections) "data") = true ->
      ManifestLoader.getTheme T = js_prop (lastWithId "theme" sections) "data")
  /\ ManifestInjector.findTheme sections
     = Some (List.find (fun s => ManifestInjector.sameValueZero (js_prop s "id")
                                   (JStr "theme")) sections).
Proof.
  intros Hinit Hs Hc.
  apply init_loads in Hinit as (sections' & cols' & itemss & _ & (Hs' & Hc' & Hnn & _) & ->).
  rewrite Hs in Hs'. injection Hs' as <-. rewrite Hc in Hc'. injection Hc' as <-.
  unfold ManifestLoader.isSectionEnabled, ManifestLoader.getCollectionData,
    ManifestLoader.getTheme.
  cbn [ManifestLoader.sectionsMap ManifestLoader.collectionsMap]. rewrite !index_get_byId.
  split; [reflexivity|]. split; [destruct (truthy (lastWithId id cols)); reflexivity|].
  split; [intros ->; reflexivity|]. apply findTheme_first, Hnn.
Qed.

Lemma loader_last_section_wins_witness :
  match ManifestLoader.init
          (JObj [("sections",
                  JArr [JObj [("id", JStr "hero"); ("enabled", JBool false)];
                        JObj [("id", JStr "hero"); ("enabled", JBool true)]])])
  with
  | Some T => ManifestLoader.isSectionEnabled T "hero" = true
  | None => False
  end.
Proof.
  destruct (ManifestLoader.init _) as [T|] eqn:E; [|vm_compute in E; discriminate E].
  rewrite (proj1 (loader_last_section_wins _ T _ [] "hero" E eq_refl eq_refl)).
  reflexivity.
Defined.

Lemma lastWithId_absent id l :
  Forall (fun x => ManifestInjector.sameValueZero (js_prop x "id") (JStr id) = false) l ->
  lastWithId id l = JUndefined.
Proof.
  intros H. unfold lastWithId. apply Forall_rev in H.
  induction H as [|x r Hx _ IH]; [reflexivity|]. cbn [List.find]. rewrite Hx. exact IH.
Qed.

(** X20: asking the reader for an id the manifest does not have.  An
    unknown section gives the empty object and one warning, and counts as
    enabled; an unknown collection gives the empty list and one warning.
    Neither throws. *)
Theorem loader_unknown_ids (manifest : JsValue) (T : ManifestLoader.Tables)
    (sections cols : list JsValue) (id : string) :
  ManifestLoader.init manifest = Some T ->
  js_prop manifest "sections" = JArr sections ->
  js_default (js_prop manifest "collections") (JArr []) = JArr cols ->
  (Forall (fun s => ManifestInjector.sameValueZero (js_prop s "id") (JStr id) = false)
          sections ->
   ManifestLoader.getSectionData T id
   = Some (JObj [], ["[manifest-loader] Section " ++ ManifestLoader.quote ++ id
                     ++ ManifestLoader.quote ++ " not found"])
   /\ ManifestLoader.isSectionEnabled T id = true)
  /\ (Forall (fun c => ManifestInjector.sameValueZero (js_prop c "id") (JStr id) = false)
             cols ->
      ManifestLoader.getCollectionData T id
      = (JArr [], ["[manifest-loader] Collection " ++ ManifestLoader.quote ++ id
                   ++ ManifestLoader.quote ++ " not found"])).
Proof.
  intros Hinit Hs Hc.
  apply init_loads in Hinit as (sections' & cols' & itemss & _ & (Hs' & Hc' & _ & _) & ->).
  rewrite Hs in Hs'. injection Hs' as <-. rewrite Hc in Hc'. injection Hc' as <-.
  unfold ManifestLoader.getSectionData, ManifestLoader.isSectionEnabled,
    ManifestLoader.getCollectionData.
  cbn [ManifestLoader.sectionsMap ManifestLoader.collectionsMap]. rewrite !index_get_byId.
  split; intros Habsent; rewrite (lastWithId_absent _ _ Habsent); [split|]; reflexivity.
Qed.

Lemma loader_unknown_ids_witness :
  match ManifestLoader.init (JObj [("sections", JArr [JObj [("id", JStr "hero")]])]) with
  | Some T =>
      ManifestLoader.isSectionEnabled T "pricing" = true
      /\ fst <$> ManifestLoader.getSectionData T "pricing" = Some (JObj [])
  | None => False
  end.
Proof.
  destruct (ManifestLoader.init _) as [T|] eqn:E; [|vm_compute in E; discriminate E].
  destruct (proj1 (loader_unknown_ids _ T _ [] "pricing" E eq_refl eq_refl))
    as [Hdata Henabled]; [repeat constructor|].
  split; [exact Henabled|]. rewrite Hdata. reflexivity.
Defined.

(** ** Section data and its references *)

Lemma lookup_field_present key (r : Record) :
  lookup_field key r <> JUndefined -> key ∈ map fst r.
Proof.
  intros H. destruct (decide (key ∈ map fst r)) as [Hin|Hout]; [exact Hin|].
  contradiction H. apply lookup_field_absent, Hout.
Qed.

Lemma assign_keys key v data :
  key ∈ map fst data -> map fst (ManifestInjector.assign key v data) = map fst data.
Proof.
  induction data as [|[k x] data IH]; intros H; [inversion H|].
  cbn [ManifestInjector.assign]. case_bool_decide as Hk; [reflexivity|].
  cbn [map fst] in *. f_equal. apply IH. apply elem_of_cons in H as [->|H]; [contradiction|].
  exact H.
Qed.

Lemma resolveField_keys index data ks data' :
  ManifestInjector.resolveField index data ks = Some data' -> map fst data' = map fst data.
Proof.
  unfold ManifestInjector.resolveField. destruct (js_get (snd ks) "uiWidget"); [|discriminate].
  destruct (ManifestInjector.sameValueZero _ _); [|intros [= <-]; reflexivity].
  destruct (lookup_field (fst ks) data) as [| | | | |[|[| | | |id0| |] refs]|] eqn:E;
    intros [= <-]; try reflexivity.
  apply assign_keys, lookup_field_present. rewrite E. discriminate.
Qed.

Lemma resolveFields_keys index schema data data' :
  foldlM (ManifestInjector.resolveField index) schema data = Some data' ->
  map fst data' = map fst data.
Proof.
  revert data. induction schema as [|ks schema IH]; intros data H.
  - injection H as <-. reflexivity.
  - cbn [foldlM] in H.
    destruct (ManifestInjector.resolveField index data ks) as [data1|] eqn:E; [|discriminate H].
    rewrite (IH _ H). apply (resolveField_keys _ _ _ _ E).
Qed.

(** X21: the data the reader returns for a section.  Without schema
    properties the data comes back as it is.  With them, the result has
    the keys of the data, in their order; a key the schema marks as a
    collection picker and whose value is a list starting with an id holds
    the items found for the ids, in order, unknown ids dropped; every
    other key holds what the data holds.  Data that is a list comes back
    as an object keyed by position. *)
Theorem loader_section_data (manifest : JsValue) (T : ManifestLoader.Tables)
    (sections : list JsValue) (id : string) (data schema : Record) :
  ManifestLoader.init manifest = Some T ->
  js_prop manifest "sections" = JArr sections ->
  truthy (lastWithId id sections) = true ->
  entries (js_default (js_prop (lastWithId id sections) "data") (JObj [])) = data ->
  isPrimitive (js_default (js_prop (lastWithId id sections) "data") (JObj [])) = false ->
  (truthy (js_prop (js_prop (lastWithId id sections) "schema") "properties") = false ->
   ManifestLoader.getSectionData T id
   = Some (js_default (js_prop (lastWithId id sections) "data") (JObj []), []))
  /\ (js_prop (js_prop (lastWithId id sections) "schema") "properties" = JObj schema ->
      NoDup (map fst schema) ->
      Forall (fun ks => nullish (snd ks) = false) schema ->
      exists data',
        ManifestLoader.getSectionData T id = Some (JObj data', [])
        /\ map fst data' = map fst data
        /\ forall key,
             lookup_field key data'
             = if isPicker (lookup_field key schema)
               then resolvedValue (ManifestLoader.collectionItemIndex T) (lookup_field key data)
               else lookup_field key data).
Proof.
  intros Hinit Hs Hfound Hdata Hobject.
  apply init_loads in Hinit as (sections' & cols & itemss & _ & (Hs' & _) & ->).
  rewrite Hs in Hs'. injection Hs' as <-.
  unfold ManifestLoader.getSectionData.
  cbn [ManifestLoader.sectionsMap ManifestLoader.collectionItemIndex].
  rewrite index_get_byId, Hfound, Hobject. cbn [negb orb]. split.
  - intros ->. reflexivity.
  - intros Hschema Hnd Hnn. rewrite Hschema. cbn [truthy negb entries]. rewrite Hdata.
    destruct (resolveFields_lookup (byId (concat itemss)) schema data Hnd Hnn)
      as (data' & Hfold & Hlookup).
    exists data'. rewrite Hfold. split; [reflexivity|].
    split; [apply (resolveFields_keys _ _ _ _ Hfold)|exact Hlookup].
Qed.

Lemma loader_section_data_witness :
  match ManifestLoader.init
          (JObj [("sections",
                  JArr [JObj [("id", JStr "featured");
                              ("data", JObj [("title", JStr "Homes");
                                             ("homes", JArr [JStr "h2"; JStr "h9"])]);
                              ("schema",
                               JObj [("properties",
                                      JObj [("homes",
                                             JObj [("uiWidget",
                                                    JStr "collectionPicker")])])])]]);
                 ("collections",
                  JArr [JObj [("id", JStr "homes");
                              ("data", JArr [JObj [("id", JStr "h1")];
                                             JObj [("id", JStr "h2")]])]])])
  with
  | Some T =>
      fst <$> ManifestLoader.getSectionData T "featured"
      = Some (JObj [("title", JStr "Homes"); ("homes", JArr [JObj [("id", JStr "h2")]])])
  | None => False
  end.
Proof.
  destruct (ManifestLoader.init _) as [T|] eqn:E; [|vm_compute in E; discriminate E].
  destruct (proj2 (loader_section_data _ T _ "featured" _
                     [("homes", JObj [("uiWidget", JStr "collectionPicker")])]
                     E eq_refl eq_refl eq_refl eq_refl))
    as (data' & Hdata & _); [reflexivity| |repeat constructor|].
  - refine (bool_decide_unpack _ _). vm_compute. exact I.
  - rewrite Hdata. vm_compute in E. injection E as <-. vm_compute in Hdata.
    injection Hdata as <-. reflexivity.
Defined.

(** ** The reader and the injector *)

Lemma sameValueZero_eq a b : ManifestInjector.sameValueZero a b = true -> a = b.
Proof.
  destruct a, b; cbn; intros H; try discriminate H; try reflexivity;
    apply bool_decide_eq_true_1 in H; congruence.
Qed.

Lemma index_get_agree items id :
  truthy id = true ->
  ManifestInjector.index_get (byId items) id
  = ManifestInjector.index_get (rev (indexEntries items)) id.
Proof.
  intros Hid. rewrite index_get_items. unfold ManifestInjector.index_get, byId.
  rewrite <- map_rev. induction (rev items) as [|x r IH]; [reflexivity|].
  cbn [map List.find fst snd].
  destruct (ManifestInjector.sameValueZero (js_prop x "id") id) eqn:E.
  - rewrite (sameValueZero_eq _ _ E), Hid. reflexivity.
  - rewrite andb_false_r. exact IH.
Qed.

Lemma assign_truthyRefs key found data :
  Forall (fun r => truthy r = true) found -> truthyRefs data ->
  truthyRefs (ManifestInjector.assign key (JArr found) data).
Proof.
  intros Hfound Hrefs.
  induction Hrefs as [|[k v] data Hv Hrest IH]; cbn [ManifestInjector.assign].
  - constructor; [|constructor]. exact Hfound.
  - case_bool_decide; constructor; [exact Hfound|exact Hrest|exact Hv|exact IH].
Qed.

Lemma resolveField_agree items data ks :
  truthyRefs data ->
  ManifestInjector.resolveField (byId items) data ks
  = ManifestInjector.resolveField (rev (indexEntries items)) data ks
  /\ forall data', ManifestInjector.resolveField (byId items) data ks = Some data' ->
                   truthyRefs data'.
Proof.
  intros Hrefs. unfold ManifestInjector.resolveField.
  destruct (js_get (snd ks) "uiWidget"); [|split; [reflexivity|discriminate]].
  destruct (ManifestInjector.sameValueZero _ _);
    [|split; [reflexivity|intros data' [= <-]; exact Hrefs]].
  destruct (lookup_field (fst ks) data) as [| | | | |[|[| | | |id0| |] refs]|] eqn:E;
    try (split; [reflexivity|intros data' [= <-]; exact Hrefs]).
  assert (Hin : Forall (fun r => truthy r = true) (JStr id0 :: refs)).
  { clear -Hrefs E. induction Hrefs as [|[k v] data Hv _ IH]; [discriminate E|].
    cbn [lookup_field] in E. destruct (bool_decide (k = fst ks)); [|exact (IH E)].
    subst v. exact Hv. }
  assert (Hmap : map (ManifestInjector.index_get (byId items)) (JStr id0 :: refs)
                 = map (ManifestInjector.index_get (rev (indexEntries items)))
                       (JStr id0 :: refs)).
  { revert Hin. generalize (JStr id0 :: refs) as rs. intros rs Hin.
    induction Hin as [|r rs Hr _ IH]; [reflexivity|]. cbn [map].
    rewrite (index_get_agree _ _ Hr), IH. reflexivity. }
  rewrite Hmap. split; [reflexivity|]. intros data' [= <-].
  apply assign_truthyRefs; [|exact Hrefs].
  apply Forall_forall. intros r Hr. apply list_elem_of_filter in Hr as [Hr _]. exact Hr.
Qed.

Lemma resolveFields_agree items schema data :
  truthyRefs data ->
  foldlM (ManifestInjector.resolveField (byId items)) schema data
  = foldlM (ManifestInjector.resolveField (rev (indexEntries items))) schema data.
Proof.
  revert data. induction schema as [|ks schema IH]; intros data Hrefs; [reflexivity|].
  cbn [foldlM]. destruct (resolveField_agree items data ks Hrefs) as [<- Hkeep].
  destruct (ManifestInjector.resolveField (byId items) data ks) as [data1|]; [|reflexivity].
  apply IH, (Hkeep data1 eq_refl).
Qed.

Lemma loads_collectionItems manifest sections cols itemss :
  loads manifest sections cols itemss ->
  js_iter (js_default (js_prop manifest "collections") (JArr [])) = Some cols
  /\ Forall2 collectionItems cols itemss.
Proof.
  intros (_ & Hc & _ & Hitems). rewrite Hc. split; [reflexivity|].
  eapply Forall2_impl; [exact Hitems|]. intros col items (Hcol & Hiter & Hnn).
  split; [exact Hcol|]. split; [|exact Hnn].
  unfold js_default. destruct (js_prop col "data"); try discriminate Hiter; exact Hiter.
Qed.

(** X22: the reader and the injector resolve references alike.  For a
    manifest the reader loads, the injector builds its index too, and an
    id that is truthy finds the same item in both.  So, for a section
    with object data and schema properties whose references are all
    truthy, the data the reader returns at build time is the data the
    injector applies when it hydrates the page. *)
Theorem reader_and_injector_agree (manifest : JsValue) (T : ManifestLoader.Tables)
    (sections : list JsValue) (id : string) (data : Record) :
  ManifestLoader.init manifest = Some T ->
  js_prop manifest "sections" = JArr sections ->
  exists index,
    ManifestInjector.buildIndex manifest = Some index
    /\ (forall ref, truthy ref = true ->
                    ManifestInjector.index_get (ManifestLoader.collectionItemIndex T) ref
                    = ManifestInjector.index_get index ref)
    /\ (truthy (lastWithId id sections) = true ->
        js_prop (lastWithId id sections) "data" = JObj data ->
        truthy (js_prop (js_prop (lastWithId id sections) "schema") "properties") = true ->
        truthyRefs data ->
        ManifestLoader.getSectionData T id
        = (fun resolved => (JObj resolved, []))
            <$> ManifestInjector.resolveCollectionRefs (lastWithId id sections) index).
Proof.
  intros Hinit Hs.
  apply init_loads in Hinit as (sections' & cols & itemss & _ & Hloads & ->).
  pose proof Hloads as (Hs' & _). rewrite Hs in Hs'. injection Hs' as <-.
  destruct (loads_collectionItems _ _ _ _ Hloads) as [Hcols Hitems].
  exists (rev (indexEntries (concat itemss))).
  split; [apply (buildIndex_items manifest cols itemss Hcols Hitems)|].
  cbn [ManifestLoader.collectionItemIndex]. split; [intros ref; apply index_get_agree|].
  intros Hfound Hdata Hprops Hrefs.
  unfold ManifestLoader.getSectionData, ManifestInjector.resolveCollectionRefs.
  cbn [ManifestLoader.sectionsMap ManifestLoader.collectionItemIndex].
  rewrite index_get_byId, Hfound, Hdata, Hprops. cbn [negb orb js_default nullish isPrimitive].
  assert (Hnn : js_default (js_prop (js_prop (lastWithId id sections) "schema") "properties")
                  (JObj [])
                = js_prop (js_prop (lastWithId id sections) "schema") "properties").
  { unfold js_default. destruct (js_prop (js_prop _ "schema") "properties");
      try reflexivity; discriminate Hprops. }
  rewrite Hnn. cbn [entries]. rewrite (resolveFields_agree _ _ _ Hrefs).
  destruct (foldlM _ _ data); reflexivity.
Qed.

Lemma reader_and_injector_agree_witness :
  match ManifestLoader.init
          (JObj [("sections", JArr []);
                 ("collections",
                  JArr [JObj [("id", JStr "homes");
                              ("data", JArr [JObj [("id", JStr "h1")];
                                             JObj [("id", JStr "")]])]])])
  with
  | Some T =>
      exists index,
        ManifestInjector.buildIndex
          (JObj [("sections", JArr []);
                 ("collections",
                  JArr [JObj [("id", JStr "homes");
                              ("data", JArr [JObj [("id", JStr "h1")];
                                             JObj [("id", JStr "")]])]])])
        = Some index
        /\ ManifestInjector.index_get (ManifestLoader.collectionItemIndex T) (JStr "h1")
           = ManifestInjector.index_get index (JStr "h1")
  | None => False
  end.
Proof.
  destruct (ManifestLoader.init _) as [T|] eqn:E; [|vm_compute in E; discriminate E].
  destruct (reader_and_injector_agree _ T [] "hero" [] E eq_refl) as (index & Hi & Hget & _).
  exists index. split; [exact Hi|]. apply Hget. reflexivity.
Defined.

(** ** Themes *)

Lemma extractDefaults_JObj r :
  ManifestLoader.extractDefaults (JObj r) = JObj (flat_map extracted r).
Proof.
  cbn [ManifestLoader.extractDefaults]. f_equal.
  induction r as [|[key value] r IH]; [reflexivity|].
  cbn [flat_map]. unfold extracted at 1. cbn [fst snd].
  destruct (ManifestLoader.extractEntry value (ManifestLoader.extractDefaults value));
    cbn [app]; rewrite IH; reflexivity.
Qed.

Lemma extractDefaults_JArr l :
  ManifestLoader.extractDefaults (JArr l) = JObj (flat_map extracted (indexed l)).
Proof.
  cbn [ManifestLoader.extractDefaults]. f_equal. unfold indexed.
  assert (H : forall i,
             (fix go (i : nat) (l : list JsValue) : Record :=
                match l with
                | [] => []
                | value :: l' =>
                    match ManifestLoader.extractEntry value
                            (ManifestLoader.extractDefaults value) with
                    | Some d => (string_of_nat i, d) :: go (S i) l'
                    | None => go (S i) l'
                    end
                end) i l
             = flat_map extracted (imap (fun j x => (string_of_nat (i + j), x)) l)).
  { induction l as [|value l IH]; intros i; [reflexivity|].
    cbn [imap flat_map]. unfold extracted at 1. cbn [fst snd]. rewrite Nat.add_0_r.
    rewrite (IH (S i)).
    assert (Hshift : imap (fun j x => (string_of_nat (S i + j), x)) l
                     = imap ((fun j x => (string_of_nat (i + j), x)) ∘ S) l).
    { apply imap_ext. intros j x _. cbn. rewrite Nat.add_succ_r. reflexivity. }
    rewrite Hshift.
    destruct (ManifestLoader.extractEntry value (ManifestLoader.extractDefaults value));
      reflexivity. }
  apply (H 0%nat).
Qed.

Lemma extracted_chars (g : nat -> string) s :
  flat_map extracted (imap (fun j x => (g j, x)) (chars s)) = [].
Proof.
  revert g. induction s as [|c s IH]; intros g; [reflexivity|].
  cbn [chars imap flat_map]. unfold extracted at 1. cbn [fst snd app].
  change (ManifestLoader.extractEntry (JStr (String c "")) _) with (@None JsValue).
  apply (IH (fun j => g (S j))).
Qed.

(** The entries [extractDefaults] walks are those of [Object.entries]. *)
Lemma extractDefaults_entries obj :
  ManifestLoader.extractDefaults obj = JObj (flat_map extracted (entries obj)).
Proof.
  destruct obj as [| | | |s|l|r]; try reflexivity.
  - cbn [entries ManifestLoader.extractDefaults]. unfold indexed.
    rewrite (extracted_chars string_of_nat). reflexivity.
  - apply extractDefaults_JArr.
  - apply extractDefaults_JObj.
Qed.

Section JsValueInduction.
Variable P : JsValue -> Prop.
Hypothesis P_undefined : P JUndefined.
Hypothesis P_null : P JNull.
Hypothesis P_bool : forall b, P (JBool b).
Hypothesis P_num : forall z, P (JNum z).
Hypothesis P_str : forall s, P (JStr s).
Hypothesis P_arr : forall l, Forall P l -> P (JArr l).
Hypothesis P_obj : forall r, Forall (fun kv => P (snd kv)) r -> P (JObj r).

Fixpoint JsValue_induction (v : JsValue) : P v :=
  match v with
  | JUndefined => P_undefined
  | JNull => P_null
  | JBool b => P_bool b
  | JNum z => P_num z
  | JStr s => P_str s
  | JArr l =>
      P_arr l ((fix go (l : list JsValue) : Forall P l :=
                  match l with
                  | [] => List.Forall_nil P
                  | x :: l' => List.Forall_cons P x l' (JsValue_induction x) (go l')
                  end) l)
  | JObj r =>
      P_obj r ((fix go (r : Record) : Forall (fun kv => P (snd kv)) r :=
                  match r with
                  | [] => List.Forall_nil _
                  | (k, x) :: r' =>
                      List.Forall_cons (fun kv => P (snd kv)) (k, x) r'
                        (JsValue_induction x) (go r')
                  end) r)
  end.

End JsValueInduction.

Lemma schemaOf_keys r :
  map fst (map (fun kv : string * JsValue => let '(key, value) := kv in (key, schemaOf value)) r)
  = map fst r.
Proof. induction r as [|[k v] r IH]; [reflexivity|]. cbn [map fst]. rewrite IH. reflexivity. Qed.

Lemma extracted_schemaOf value :
  plainTheme value = true -> forall key, extracted (key, schemaOf value) = [(key, value)].
Proof.
  induction value as [| | b | z | s | l _ | r IH] using JsValue_induction; intros Hplain key;
    try reflexivity.
  cbn [plainTheme] in Hplain. apply andb_prop in Hplain as [Hkeys Hvalues].
  apply andb_prop in Hkeys as [Hdefault Htype].
  unfold extracted. cbn [fst snd schemaOf]. unfold ManifestLoader.extractEntry.
  cbn [truthy isPrimitive negb andb ManifestLoader.js_in]. rewrite schemaOf_keys.
  apply negb_true_iff in Hdefault, Htype. rewrite Hdefault, Htype. cbn [negb].
  rewrite extractDefaults_JObj. do 3 f_equal.
  clear Hdefault Htype. induction IH as [|[k v] r Hv _ IHr]; [reflexivity|].
  cbn [forallb] in Hvalues. apply andb_prop in Hvalues as [Hplain Hrest].
  cbn [snd] in Hv. cbn [map flat_map]. rewrite (Hv Hplain k), (IHr Hrest). reflexivity.
Qed.

(** X23: reading a theme back from its schema-style definition.  When
    the legacy theme of the manifest is a theme written out as
    definitions with defaults, [extractDefaults] returns the theme
    itself, whatever the nesting, provided no group has a key named
    [default] or [type]; [getTheme] returns it when no theme section has
    data and the theme has no top-level [data].  With no theme at all
    [getTheme] returns the built-in theme. *)
Theorem theme_defaults_round_trip (r : Record) :
  plainTheme (JObj r) = true ->
  ManifestLoader.extractDefaults (schemaOf (JObj r)) = JObj r
  /\ forall manifest T sections,
       ManifestLoader.init manifest = Some T ->
       js_prop manifest "sections" = JArr sections ->
       truthy (js_prop (lastWithId "theme" sections) "data") = false ->
       (js_prop manifest "theme" = schemaOf (JObj r) -> "data" ∉ map fst r ->
        ManifestLoader.getTheme T = JObj r)
       /\ (truthy (js_prop manifest "theme") = false ->
           ManifestLoader.getTheme T = ManifestLoader.defaultTheme).
Proof.
  intros Hplain.
  assert (Hround : ManifestLoader.extractDefaults (schemaOf (JObj r)) = JObj r).
  { pose proof (extracted_schemaOf (JObj r) Hplain "theme") as H.
    unfold extracted in H. cbn [fst snd] in H.
    unfold ManifestLoader.extractEntry in H.
    cbn [schemaOf truthy isPrimitive negb andb ManifestLoader.js_in] in H.
    rewrite schemaOf_keys in H. cbn [plainTheme] in Hplain.
    apply andb_prop in Hplain as [Hkeys _]. apply andb_prop in Hkeys as [Hdefault Htype].
    apply negb_true_iff in Hdefault, Htype. rewrite Hdefault, Htype in H. cbn [negb] in H.
    exact (f_equal (fun l => match l with [(_, d)] => d | _ => JUndefined end) H). }
  split; [exact Hround|]. intros manifest T sections Hinit Hs Hsection.
  apply init_loads in Hinit as (sections' & cols & itemss & _ & (Hs' & _) & ->).
  rewrite Hs in Hs'. injection Hs' as <-.
  unfold ManifestLoader.getTheme. cbn [ManifestLoader.sectionsMap ManifestLoader.manifest].
  rewrite index_get_byId, Hsection. split.
  - intros Htheme Hdata. rewrite Htheme. cbn [schemaOf truthy negb js_prop].
    rewrite lookup_field_absent by (rewrite schemaOf_keys; exact Hdata).
    cbn [truthy]. exact Hround.
  - intros ->. reflexivity.
Qed.

Lemma theme_defaults_round_trip_witness :
  plainTheme (JObj [("colors", JObj [("primary", JStr "#1c1917")]);
                    ("radius", JObj [("base", JStr "0px")])]) = true
  /\ ManifestLoader.extractDefaults
       (JObj [("colors",
               JObj [("primary", JObj [("type", JStr "string");
                                       ("default", JStr "#1c1917")])]);
              ("radius",
               JObj [("base", JObj [("type", JStr "string"); ("default", JStr "0px")])])])
     = JObj [("colors", JObj [("primary", JStr "#1c1917")]);
             ("radius", JObj [("base", JStr "0px")])].
Proof.
  split; [reflexivity|].
  apply (proj1 (theme_defaults_round_trip
                  [("colors", JObj [("primary", JStr "#1c1917")]);
                   ("radius", JObj [("base", JStr "0px")])] eq_refl)).
Defined.

(** * Further properties of reference resolution *)

(** X24: what the injector makes of the data of a section.  The resolved
    data has the keys of the data, in their order.  A key that the schema
    marks as a collection picker, and whose value is a list starting with
    an id, holds the items the index has for the ids of the list, in
    order, the ids without an item dropped; every other key holds what
    the data holds.  A schema entry that is [null] makes the resolution
    throw. *)
Theorem references_resolved_by_schema
    (index : ManifestInjector.CollectionIndex) (section : JsValue) (schema : Record) :
  js_default (js_prop (js_prop section "schema") "properties") (JObj []) = JObj schema ->
  NoDup (map fst schema) ->
  (Forall (fun ks => nullish (snd ks) = false) schema ->
   exists data,
     ManifestInjector.resolveCollectionRefs section index = Some data
     /\ map fst data = map fst (entries (js_prop section "data"))
     /\ forall key,
          lookup_field key data
          = if isPicker (lookup_field key schema)
            then resolvedValue index (lookup_field key (entries (js_prop section "data")))
            else lookup_field key (entries (js_prop section "data")))
  /\ (Exists (fun ks => nullish (snd ks) = true) schema ->
      ManifestInjector.resolveCollectionRefs section index = None).
Proof.
  intros Hschema Hnd. unfold ManifestInjector.resolveCollectionRefs. rewrite Hschema.
  cbn [entries]. split.
  - intros Hnn.
    destruct (resolveFields_lookup index schema (entries (js_prop section "data")) Hnd Hnn)
      as (data & Hfold & Hlookup).
    exists data. split; [exact Hfold|]. split; [|exact Hlookup].
    apply (resolveFields_keys _ _ _ _ Hfold).
  - intros Hbad. generalize (entries (js_prop section "data")) as data. clear Hschema Hnd.
    induction Hbad as [[k fs] schema Hfs | [k fs] schema _ IH]; intros data; cbn [foldlM].
    + unfold ManifestInjector.resolveField, js_get. cbn [snd] in *. rewrite Hfs. reflexivity.
    + destruct (ManifestInjector.resolveField index data (k, fs)); [apply IH|reflexivity].
Qed.

Lemma references_resolved_by_schema_witness :
  exists data,
    ManifestInjector.resolveCollectionRefs
      (JObj [("id", JStr "featured");
             ("data", JObj [("title", JStr "Homes"); ("homes", JArr [JStr "h2"; JStr "h9"])]);
             ("schema",
              JObj [("properties",
                     JObj [("homes", JObj [("uiWidget", JStr "collectionPicker")])])])])
      [(JStr "h2", JObj [("id", JStr "h2")])]
    = Some data
    /\ lookup_field "homes" data = JArr [JObj [("id", JStr "h2")]]
    /\ lookup_field "title" data = JStr "Homes".
Proof.
  destruct (proj1 (references_resolved_by_schema
                     [(JStr "h2", JObj [("id", JStr "h2")])]
                     (JObj [("id", JStr "featured");
                            ("data", JObj [("title", JStr "Homes");
                                           ("homes", JArr [JStr "h2"; JStr "h9"])]);
                            ("schema",
                             JObj [("properties",
                                    JObj [("homes",
                                           JObj [("uiWidget", JStr "collectionPicker")])])])])
                     [("homes", JObj [("uiWidget", JStr "collectionPicker")])]
                     eq_refl (NoDup_singleton _)))
    as (data & Hdata & _ & Hlookup); [repeat constructor|].
  exists data. split; [exact Hdata|]. rewrite !Hlookup. split; reflexivity.
Defined.

(** * Further properties of the appliers: which elements are written *)

Section FirstOnly.
Variable p : Node -> bool.
Variable f : Node -> Node.
Hypothesis p_local : forall cs n, p (set_children cs n) = p n.
Hypothesis f_single :
  forall x, p x = true -> querySelectorAll p x = [] -> find_all_in p (f x) = [f x].

Lemma find_all_modified_list cs el rest :
  Forall (fun c => forall el rest,
            find_all_in p c = el :: rest -> querySelectorAll p el = [] ->
            find_all_in p (modified p f c) = f el :: rest) cs ->
  flat_map (find_all_in p) cs = el :: rest -> querySelectorAll p el = [] ->
  flat_map (find_all_in p) (modified_list p f cs) = f el :: rest.
Proof.
  intros IH. revert el rest. induction IH as [|c cs Hc _ IHcs]; intros el rest Hall Hel;
    [discriminate Hall|].
  rewrite modified_list_cons. cbn [flat_map] in Hall.
  destruct (found p c) eqn:Ec.
  - destruct (find_all_in p c) as [|el1 rest1] eqn:E1.
    + apply find_all_in_nil in E1. unfold found in Ec. rewrite E1 in Ec. discriminate Ec.
    + cbn [app] in Hall. injection Hall as -> <-. cbn [flat_map].
      rewrite (Hc el rest1 eq_refl Hel). reflexivity.
  - rewrite (found_false_find_all _ _ Ec) in Hall. cbn [app] in Hall.
    cbn [flat_map]. rewrite (found_false_find_all _ _ Ec). cbn [app].
    apply IHcs; assumption.
Qed.

Lemma find_all_modified n el rest :
  find_all_in p n = el :: rest -> querySelectorAll p el = [] ->
  find_all_in p (modified p f n) = f el :: rest.
Proof.
  revert el rest. induction n as [d | t a s l h cs IH] using Node_induction;
    intros el rest Hall Hel.
  - rewrite find_all_in_unfold in Hall. cbn [querySelectorAll children flat_map] in Hall.
    rewrite app_nil_r in Hall. destruct (p (TextNode d)) eqn:Ep; [|discriminate Hall].
    injection Hall as <- <-. rewrite modified_match by exact Ep. apply f_single; assumption.
  - rewrite find_all_in_unfold in Hall. destruct (p (Element t a s l h cs)) eqn:Ep.
    + cbn [app] in Hall. injection Hall as <- <-. rewrite Hel.
      rewrite modified_match by exact Ep. apply f_single; assumption.
    + cbn [app] in Hall. rewrite modified_Element by exact Ep.
      rewrite find_all_in_unfold.
      pose proof (p_local (modified_list p f cs) (Element t a s l h cs)) as Ep'.
      cbn [set_children] in Ep'. rewrite Ep', Ep. cbn [app].
      apply find_all_modified_list; assumption.
Qed.

Lemma querySelectorAll_modify_first n el rest :
  querySelectorAll p n = el :: rest -> querySelectorAll p el = [] ->
  querySelectorAll p (modify_first p f n) = f el :: rest.
Proof.
  intros Hall Hel. rewrite modify_first_modified.
  destruct n as [d | t a s l h cs]; [discriminate Hall|].
  cbn [set_children children querySelectorAll] in *.
  apply find_all_modified_list; [|assumption|assumption].
  apply Forall_forall. intros c _ el' rest'. apply find_all_modified.
Qed.

End FirstOnly.

Lemma querySelectorAll_text p cs n :
  (forall d, p (TextNode d) = false) -> forallb isText cs = true ->
  querySelectorAll p (set_children cs n) = [].
Proof.
  intros Hp Hcs. destruct n as [d | t a s l h cs0]; [reflexivity|].
  unfold querySelectorAll. cbn [set_children children].
  induction cs as [|c cs IH]; [reflexivity|]. cbn [forallb] in Hcs.
  apply andb_prop in Hcs as [Hc Hcs]. destruct c; [|discriminate Hc].
  cbn [flat_map]. rewrite find_all_in_unfold, Hp. cbn. exact (IH Hcs).
Qed.



(** ** Every list with the name *)

Section EveryMatch.
Variable p : Node -> bool.
Variable g : Node -> Node.
Hypothesis p_local : forall cs n, p (set_children cs n) = p n.
Hypothesis g_keeps : forall x, p x = true -> p (g x) = true.
Hypothesis g_free : forall x, querySelectorAll p x = [] -> querySelectorAll p (g x) = [].

Lemma map_outermost_in_match n : p n = true -> map_outermost_in p g n = g n.
Proof. intros H. destruct n; cbn [map_outermost_in]; rewrite H; reflexivity. Qed.

Lemma find_all_in_single n : p n = true -> querySelectorAll p n = [] -> find_all_in p n = [n].
Proof. intros Hp Hn. rewrite find_all_in_unfold, Hp, Hn. reflexivity. Qed.

Lemma find_all_map_outermost n :
  Forall (fun x => querySelectorAll p x = []) (find_all_in p n) ->
  find_all_in p (map_outermost_in p g n) = map g (find_all_in p n).
Proof.
  induction n as [d | t a s l h cs IH] using Node_induction; intros Hflat.
  - destruct (p (TextNode d)) eqn:Ep.
    + rewrite (find_all_in_single _ Ep eq_refl), (map_outermost_in_match _ Ep).
      apply find_all_in_single; [apply g_keeps, Ep|apply g_free; reflexivity].
    + cbn [map_outermost_in]. rewrite Ep, find_all_in_unfold, Ep. reflexivity.
  - destruct (p (Element t a s l h cs)) eqn:Ep.
    + assert (Hroot : querySelectorAll p (Element t a s l h cs) = []).
      { rewrite find_all_in_unfold, Ep in Hflat. cbn [app] in Hflat.
        apply Forall_cons in Hflat as [Hroot _]. exact Hroot. }
      rewrite (find_all_in_single _ Ep Hroot), (map_outermost_in_match _ Ep).
      apply find_all_in_single; [apply g_keeps, Ep|apply g_free, Hroot].
    + cbn [map_outermost_in]. rewrite Ep.
      rewrite (find_all_in_unfold p (Element t a s l h cs)) in *. rewrite Ep in *.
      cbn [app] in *. rewrite find_all_in_unfold.
      pose proof (p_local (map (map_outermost_in p g) cs) (Element t a s l h cs)) as Ep'.
      cbn [set_children] in Ep'. rewrite Ep', Ep. cbn [app]. clear Ep Ep'.
      unfold querySelectorAll in *. cbn [children] in *.
      induction IH as [|c cs Hc _ IHcs]; [reflexivity|].
      cbn [map flat_map] in *. apply Forall_app in Hflat as [H1 H2].
      rewrite map_app, (Hc H1), (IHcs H2). reflexivity.
Qed.

Lemma querySelectorAll_map_outermost n :
  Forall (fun x => querySelectorAll p x = []) (querySelectorAll p n) ->
  querySelectorAll p (map_outermost p g n) = map g (querySelectorAll p n).
Proof.
  intros Hflat. unfold map_outermost. destruct n as [d | t a s l h cs]; [reflexivity|].
  unfold querySelectorAll in *. cbn [set_children children] in *.
  induction cs as [|c cs IH]; [reflexivity|].
  cbn [map flat_map] in *. apply Forall_app in Hflat as [H1 H2].
  rewrite map_app, (find_all_map_outermost c H1), (IH H2). reflexivity.
Qed.

End EveryMatch.

Lemma free_children_remove_all r p n :
  (forall x y, (forall a, a <> "src" -> a <> "href" -> getAttribute a x = getAttribute a y) ->
               r x = r y) ->
  found_list r (children n) = false ->
  found_list r (children (remove_all p n)) = false.
Proof.
  intros r_attrs H. destruct n as [d | t a s l h cs]; [reflexivity|].
  cbn [remove_all children] in *. apply found_list_false_Forall in H.
  apply found_list_false_Forall. induction H as [|c cs Hc _ IH]; [constructor|].
  cbn [flat_map]. destruct (p c); [exact IH|]. cbn [app].
  constructor; [apply (free_remove_all r r_attrs), Hc|exact IH].
Qed.

Lemma reconcileList_keeps_free name items listEl :
  querySelectorAll (PreviewRuntime.is_list name) listEl = [] ->
  querySelectorAll (PreviewRuntime.is_list name) (PreviewRuntime.reconcileList items listEl) = [].
Proof.
  intros H. apply querySelectorAll_found_list in H. apply querySelectorAll_found_list.
  destruct (querySelector PreviewRuntime.is_list_item listEl) as [T|] eqn:Et;
    [|rewrite (reconcileList_no_template _ _ Et); exact H].
  rewrite (reconcileList_unfold items listEl T Et).
  destruct listEl as [d | t a s l h cs]; [discriminate Et|].
  change (children (set_children ?cs0 (remove_all ?q (Element t a s l h cs)))) with cs0.
  rewrite found_list_app.
  rewrite (free_children_remove_all _ _ _ (is_list_attrs name) H). cbn [orb].
  apply found_list_false_Forall, Forall_map, Forall_forall. intros i _. cbn.
  apply (free_fillItem _ (fun d => eq_refl) (is_list_attrs name)).
  rewrite !(found_cloneNode _ (is_list_attrs name)).
  apply (found_querySelector _ _ _ _ Et H).
Qed.

Lemma is_list_reconcileList name items listEl :
  PreviewRuntime.is_list name (PreviewRuntime.reconcileList items listEl)
  = PreviewRuntime.is_list name listEl.
Proof.
  destruct (querySelector PreviewRuntime.is_list_item listEl) as [T|] eqn:Et;
    [|rewrite (reconcileList_no_template _ _ Et); reflexivity].
  rewrite (reconcileList_unfold items listEl T Et). unfold PreviewRuntime.is_list.
  rewrite attr_is_local. destruct listEl; reflexivity.
Qed.



(** * Messages as a whole *)

Lemma handleFieldUpdate_document sectionId field value st :
  isPrimitive value = true ->
  PreviewRuntime.document (PreviewRuntime.handleFieldUpdate sectionId field value st)
  = PreviewRuntime.on_section sectionId
      (fun sectionEl => PreviewRuntime.updateFieldElement sectionEl field value)
      (PreviewRuntime.document st).
Proof.
  intros Hv. unfold PreviewRuntime.handleFieldUpdate.
  destruct (doc_querySelector _ _) eqn:E.
  - cbn [PreviewRuntime.document PreviewRuntime.with_document].
    destruct value; try discriminate Hv; reflexivity.
  - rewrite (on_section_absent _ _ _ E). reflexivity.
Qed.

Lemma updateFieldElement_root container field value :
  exists cs, PreviewRuntime.updateFieldElement container field value = set_children cs container.
Proof.
  unfold PreviewRuntime.updateFieldElement.
  destruct (querySelector _ _); [|exists (children container); symmetry; apply set_children_same].
  destruct (nullish value); [exists (children container); symmetry; apply set_children_same|].
  apply modify_first_root.
Qed.

Lemma on_section_fold sectionId (fields : Record) doc :
  PreviewRuntime.on_section sectionId
    (fun sectionEl =>
       fold_left (fun el fv => PreviewRuntime.updateFieldElement el (fst fv) (snd fv))
                 fields sectionEl) doc
  = fold_left (fun d fv =>
                 PreviewRuntime.on_section sectionId
                   (fun sectionEl =>
                      PreviewRuntime.updateFieldElement sectionEl (fst fv) (snd fv)) d)
              fields doc.
Proof.
  revert doc. induction fields as [|fv fields IH]; intros doc.
  - cbn [fold_left]. unfold PreviewRuntime.on_section. apply doc_modify_first_fixed.
    reflexivity.
  - cbn [fold_left]. rewrite <- IH. unfold PreviewRuntime.on_section.
    rewrite !doc_modify_first_modified. symmetry. apply modified_twice.
    + intros x Hx. destruct (updateFieldElement_root x (fst fv) (snd fv)) as [cs ->].
      unfold PreviewRuntime.is_section. rewrite attr_is_local. exact Hx.
    + intros cs n. apply attr_is_local.
Qed.



(** X28: the runtime never answers a message.  Whatever messages arrive,
    from whatever origin, the outbox stays as it was: what is posted is
    posted when the module starts or when the user acts. *)
Theorem messages_never_answered (w : PreviewRuntime.Window)
    (events : list PreviewRuntime.MessageEvent) (st : PreviewRuntime.State) :
  PreviewRuntime.posted (PreviewRuntime.run w (map PreviewRuntime.Message events) st)
  = PreviewRuntime.posted st.
Proof.
  revert st. induction events as [|event events IH]; intros st; [reflexivity|].
  unfold PreviewRuntime.run in *. cbn [map fold_left PreviewRuntime.step]. rewrite IH.
  destruct (PreviewRuntime.active st); [apply handleMessage_posted|reflexivity].
Qed.
